(** * The content-item tree engine of golden-layout

    A shallow embedding of [src/js_es6/items/AbstractContentItem.ts] and of
    the default resolution of [src/js_es6/config/UserConfig.ts].

    Content items and item configurations are JavaScript objects that are
    shared by reference: a child's configuration object is the very object
    stored in its parent's [config.content].  The model therefore keeps an
    object store with one table for items and one for configurations, both
    keyed by object identity, and every method is a computation over that
    store which either completes normally or throws. *)

From stdpp Require Import base gmap list strings.
From Stdlib Require Import ZArith Lia.
From Corelib Require Import PrimFloat.

(** ** Object identities and values *)

Abbreviation iref := positive (only parsing).   (* identity of a content item *)
Abbreviation cref := positive (only parsing).   (* identity of a config object *)
Abbreviation Element := positive (only parsing). (* an opaque DOM handle *)

(** [config.id] is [string | string[]] or missing. *)
Inductive IdVal :=
| IdAbsent
| IdStr (s : string)
| IdArr (l : list string).

Module ItemConfig.
(** The fields of an item configuration that the item class reads or
    writes.  [content] holds references to the children's configuration
    objects; it may be undefined. *)
Record t := mk {
  content : option (list cref);
  id : IdVal;
  isClosable : bool;
  title : string
}.
Definition with_content (c : option (list cref)) (x : t) : t :=
  mk c (id x) (isClosable x) (title x).
Definition with_id (v : IdVal) (x : t) : t :=
  mk (content x) v (isClosable x) (title x).
End ItemConfig.

Record Item := mkItem {
  config : cref;
  type : string;
  contentItems : list iref;
  parent : option iref;
  isInitialised : bool;
  isMaximised : bool;
  isRoot : bool;
  instanceofRoot : bool;            (* [this instanceof Root] *)
  element : option Element;
  _pendingEventPropagations : gmap string bool
}.

Definition with_contentItems (l : list iref) (it : Item) : Item :=
  mkItem (config it) (type it) l (parent it) (isInitialised it)
         (isMaximised it) (isRoot it) (instanceofRoot it) (element it)
         (_pendingEventPropagations it).

Definition with_parent (p : option iref) (it : Item) : Item :=
  mkItem (config it) (type it) (contentItems it) p (isInitialised it)
         (isMaximised it) (isRoot it) (instanceofRoot it) (element it)
         (_pendingEventPropagations it).

Definition with_isInitialised (b : bool) (it : Item) : Item :=
  mkItem (config it) (type it) (contentItems it) (parent it) b
         (isMaximised it) (isRoot it) (instanceofRoot it) (element it)
         (_pendingEventPropagations it).

Definition with_pending (m : gmap string bool) (it : Item) : Item :=
  mkItem (config it) (type it) (contentItems it) (parent it)
         (isInitialised it) (isMaximised it) (isRoot it) (instanceofRoot it)
         (element it) m.

(** A [BubblingEvent]: its name, the item it started from, and whether a
    listener stopped it. *)
Record BubblingEvent := mkEvent {
  ev_name : string;
  origin : iref;
  isPropagationStopped : bool
}.

(** What [layoutManager.emit] is handed as its second argument. *)
Inductive Payload :=
| POrigin (i : iref)
| PEvent (e : BubblingEvent).

(** Calls that leave the item tree: methods whose body belongs to a concrete
    item class, the DOM, and the layout manager.  They are recorded in the
    order in which they happen. *)
Inductive Effect :=
| Call (this : iref) (method : string) (args : list string)
| DomRemove (e : Element)
| DomAppend (container : iref) (child : option Element)
| DomReplaceChild (new old : Element)
| LmEmit (name : string) (p : Payload).

(** A callback handed to [animFrame]:
    [fnBind(this.propagateEventToLayoutManager, this, [name, event])]. *)
Record Frame := mkFrame {
  fr_this : iref;
  fr_name : string;
  fr_event : BubblingEvent
}.

Record State := mkState {
  items : gmap positive Item;
  configs : gmap positive ItemConfig.t;
  trace : list Effect;
  frames : list Frame
}.

Definition with_items (m : gmap positive Item) (s : State) : State :=
  mkState m (configs s) (trace s) (frames s).
Definition with_configs (m : gmap positive ItemConfig.t) (s : State) : State :=
  mkState (items s) m (trace s) (frames s).
Definition with_trace (t : list Effect) (s : State) : State :=
  mkState (items s) (configs s) t (frames s).
Definition with_frames (f : list Frame) (s : State) : State :=
  mkState (items s) (configs s) (trace s) f.

(** ** Computations *)

Inductive Exn :=
| Error (msg : string)
| TypeError.

(** How a call ends.  [Stuck] is not a JavaScript outcome: it marks a run
    that went past the recursion bound of the model, met a reference that
    the store does not hold, or called by name a method that the model does
    not embed. *)
Inductive Completion (A : Type) :=
| Normal (a : A)
| Throw (e : Exn)
| Stuck.
Arguments Normal {A} a.
Arguments Throw {A} e.
Arguments Stuck {A}.

Definition M (A : Type) : Type := State -> Completion A * State.

Definition ret {A} (a : A) : M A := fun s => (Normal a, s).
Definition throw {A} (e : Exn) : M A := fun s => (Throw e, s).
Definition stuck {A} : M A := fun s => (Stuck, s).

Definition bind {A B} (m : M A) (k : A -> M B) : M B :=
  fun s =>
    match m s with
    | (Normal a, s') => k a s'
    | (Throw e, s') => (Throw e, s')
    | (Stuck, s') => (Stuck, s')
    end.

Declare Scope js_scope.
Delimit Scope js_scope with js.
Notation "x <- m ;; k" := (bind m (fun x => k))
  (at level 100, m at next level, right associativity) : js_scope.
Notation "m ;;; k" := (bind m (fun _ => k))
  (at level 100, right associativity) : js_scope.
Local Open Scope js_scope.

Definition get : M State := fun s => (Normal s, s).
Definition modify (f : State -> State) : M unit := fun s => (Normal tt, f s).
Definition tell (e : Effect) : M unit :=
  modify (fun s => with_trace (trace s ++ [e]) s).

Definition get_item (i : iref) : M Item :=
  fun s => match items s !! i with
           | Some it => (Normal it, s)
           | None => (Stuck, s)
           end.

Definition get_config (c : cref) : M ItemConfig.t :=
  fun s => match configs s !! c with
           | Some x => (Normal x, s)
           | None => (Stuck, s)
           end.

Definition put_item (i : iref) (it : Item) : M unit :=
  modify (fun s => with_items (<[i := it]> (items s)) s).

Definition put_config (c : cref) (x : ItemConfig.t) : M unit :=
  modify (fun s => with_configs (<[c := x]> (configs s)) s).

(** [this.config], read through the item. *)
Definition this_config (this : iref) : M ItemConfig.t :=
  it <- get_item this ;; get_config (config it).

(** Runs [body] on every element of [l], left to right. *)
Fixpoint for_each {A} (body : A -> M unit) (l : list A) : M unit :=
  match l with
  | [] => ret tt
  | x :: rest => body x ;;; for_each body rest
  end.

(** ** Array helpers *)

(** Modelled from the spec: [utils.indexOf(needle, haystack)] is not among
    the sources; like [Array.prototype.indexOf] it gives the position of the
    first element identical to the needle, or -1. *)
Fixpoint indexOf `{EqDecision A} (needle : A) (haystack : list A) : Z :=
  match haystack with
  | [] => -1
  | x :: rest =>
      if decide (x = needle) then 0
      else let r := indexOf needle rest in
           if (r =? -1)%Z then (-1)%Z else (1 + r)%Z
  end.

(** The start position [Array.prototype.splice] uses for an integer
    [index] on an array of length [len]. *)
Definition splice_start (len : nat) (index : Z) : nat :=
  if (index <? 0)%Z then Z.to_nat (Z.max (Z.of_nat len + index) 0)
  else Z.to_nat (Z.min index (Z.of_nat len)).

(** [arr.splice(index, 1)] *)
Definition splice_remove {A} (index : Z) (l : list A) : list A :=
  delete (splice_start (length l) index) l.

(** [arr.splice(index, 0, x)] *)
Definition splice_insert {A} (index : Z) (x : A) (l : list A) : list A :=
  let k := splice_start (length l) index in
  take k l ++ x :: drop k l.

(** ** The id subsystem *)

(** [!v] for an id value: a missing id and the empty string are falsy, an
    array never is. *)
Definition falsy (v : IdVal) : bool :=
  match v with
  | IdAbsent => true
  | IdStr s => bool_decide (s = "")
  | IdArr _ => false
  end.

Definition hasId_of (v : IdVal) (id : string) : bool :=
  if falsy v then false
  else match v with
       | IdStr s => bool_decide (s = id)
       | IdArr l => negb (indexOf id l =? -1)%Z
       | IdAbsent => false
       end.

Definition hasId (this : iref) (id : string) : M bool :=
  c <- this_config this ;; ret (hasId_of (ItemConfig.id c) id).

Definition set_id (this : iref) (v : IdVal) : M unit :=
  it <- get_item this ;;
  c <- get_config (config it) ;;
  put_config (config it) (ItemConfig.with_id v c).

Definition addId (this : iref) (id : string) : M unit :=
  present <- hasId this id ;;
  if present then ret tt
  else
    c <- this_config this ;;
    if falsy (ItemConfig.id c) then set_id this (IdStr id)
    else match ItemConfig.id c with
         | IdStr s => set_id this (IdArr [s; id])
         | IdArr l => set_id this (IdArr (l ++ [id]))
         | IdAbsent => ret tt
         end.

Definition removeId (this : iref) (id : string) : M unit :=
  present <- hasId this id ;;
  if negb present then throw (Error "Id not found")
  else
    c <- this_config this ;;
    match ItemConfig.id c with
    | IdStr _ => set_id this IdAbsent
    | IdArr l => set_id this (IdArr (splice_remove (indexOf id l) l))
    | IdAbsent => ret tt
    end.

(** ** Event bubbling and batching *)

Definition _throttledEvents : list string := ["stateChanged"].

(** Modelled from the spec: [utils.animFrame] and [utils.fnBind] are not
    among the sources; the bound callback is deferred to the next
    animation-frame opportunity, so it joins the queue of pending frames. *)
Definition animFrame (f : Frame) : M unit :=
  modify (fun s => with_frames (frames s ++ [f]) s).

Definition propagateEventToLayoutManager
    (this : iref) (name : string) (event : BubblingEvent) : M unit :=
  it <- get_item this ;;
  put_item this
    (with_pending (<[name := false]> (_pendingEventPropagations it)) it) ;;;
  tell (LmEmit name (PEvent event)).

Definition scheduleEventPropagationToLayoutManager
    (this : iref) (name : string) (event : BubblingEvent) : M unit :=
  if (indexOf name _throttledEvents =? -1)%Z then
    tell (LmEmit name (POrigin (origin event)))
  else
    it <- get_item this ;;
    if bool_decide (_pendingEventPropagations it !! name = Some true)
    then ret tt
    else
      put_item this
        (with_pending (<[name := true]> (_pendingEventPropagations it)) it) ;;;
      animFrame (mkFrame this name event).

(** [event] is [None] when what was emitted is not a [BubblingEvent].
    Passing the event to the parent's emitter runs the parent's own
    [propagateEvent], which is one more level of recursion. *)
Fixpoint propagateEvent (fuel : nat) (this : iref) (name : string)
    (event : option BubblingEvent) : M unit :=
  match fuel with
  | 0 => stuck
  | S fuel' =>
      it <- get_item this ;;
      match event with
      | Some e =>
          if negb (isPropagationStopped e) && isInitialised it then
            match (if isRoot it then None else parent it) with
            | Some p => propagateEvent fuel' p name event
            | None => scheduleEventPropagationToLayoutManager this name e
            end
          else ret tt
      | None => ret tt
      end
  end.

(** Modelled from the spec: [EventEmitter] is not among the sources.  The
    constructor subscribes [propagateEvent] to [EventEmitter.ALL_EVENT], so
    emitting on an item runs it with the name and the event; listeners
    registered by other code are outside the model. *)
Definition emit (fuel : nat) (this : iref) (name : string)
    (event : option BubblingEvent) : M unit :=
  propagateEvent fuel this name event.

Definition emitBubblingEvent (fuel : nat) (this : iref) (name : string)
    : M unit :=
  emit fuel this name (Some (mkEvent name this false)).

(** Modelled from the spec: the animation-frame opportunity itself.  It runs
    the callbacks queued by [animFrame], oldest first. *)
Definition runAnimationFrame : M unit :=
  s <- get ;;
  modify (with_frames []) ;;;
  for_each (fun f => propagateEventToLayoutManager
                       (fr_this f) (fr_name f) (fr_event f))
           (frames s).

Definition setTitle (fuel : nat) (this : iref) (title : string) : M unit :=
  it <- get_item this ;;
  c <- get_config (config it) ;;
  put_config (config it)
    (ItemConfig.mk (ItemConfig.content c) (ItemConfig.id c)
                   (ItemConfig.isClosable c) title) ;;;
  emit fuel this "titleChanged" None ;;;
  emit fuel this "stateChanged" None.

(** ** Life cycle *)

(** [_$destroy] *)
Definition _destroy (fuel : nat) (this : iref) : M unit :=
  emitBubblingEvent fuel this "beforeItemDestroyed" ;;;
  it <- get_item this ;;
  match element it with
  | None => throw TypeError
  | Some e =>
      tell (DomRemove e) ;;;
      emitBubblingEvent fuel this "itemDestroyed"
  end.

(** [_$init].  [setSize] is abstract and [childElementContainer] belongs to
    the concrete classes: both are recorded. *)
Definition _init (fuel : nat) (this : iref) : M unit :=
  tell (Call this "setSize" []) ;;;
  it <- get_item this ;;
  for_each (fun c => ch <- get_item c ;; tell (DomAppend this (element ch)))
           (contentItems it) ;;;
  it <- get_item this ;;
  put_item this (with_isInitialised true it) ;;;
  emitBubblingEvent fuel this "itemCreated" ;;;
  emitBubblingEvent fuel this (type it +:+ "Created").

(** The properties of an item that hold data: the fields the class
    declares and its constructor fills.  None of them can be called. *)
Definition data_properties : list string :=
  ["_pendingEventPropagations"; "_throttledEvents"; "config"; "type";
   "contentItems"; "parent"; "isInitialised"; "isMaximised"; "isRoot";
   "isRow"; "isColumn"; "isStack"; "isComponent"; "element";
   "layoutManager"].

(** [this[functionName].apply(this, args)], for the names the model can
    follow.  The two life-cycle methods run the body this class gives them.
    [setSize] is abstract here, so the call reaches a concrete item class and
    is recorded.  A name that denotes a data property throws a TypeError.
    The methods of this class that take one string run their body on the
    first argument.  Every other name (the remaining methods of this class,
    whatever the concrete classes and [EventEmitter] add, and names that no
    class defines) and a call of a one-argument method without an argument
    are outside the model: the run is [Stuck]. *)
Definition invoke (fuel : nat) (this : iref) (functionName : string)
    (args : list string) : M unit :=
  if decide (functionName = "_$destroy") then _destroy fuel this
  else if decide (functionName = "_$init") then _init fuel this
  else if decide (functionName = "setSize") then
    tell (Call this functionName args)
  else if bool_decide (functionName ∈ data_properties) then throw TypeError
  else
    match args with
    | [] => stuck
    | a :: _ =>
        if decide (functionName = "setTitle") then setTitle fuel this a
        else if decide (functionName = "addId") then addId this a
        else if decide (functionName = "removeId") then removeId this a
        else if decide (functionName = "hasId") then hasId this a ;;; ret tt
        else if decide (functionName = "emitBubblingEvent") then
          emitBubblingEvent fuel this a
        else stuck
    end.

(** ** The tree walker *)

(** [for (let i = 0; i < this.contentItems.length; i++) body(this.contentItems[i])]:
    the array is read again at every round; [n] bounds the rounds. *)
Fixpoint for_children (n : nat) (this : iref) (i : nat)
    (body : iref -> M unit) : M unit :=
  it <- get_item this ;;
  match contentItems it !! i with
  | None => ret tt
  | Some c =>
      match n with
      | 0 => stuck
      | S n' => body c ;;; for_children n' this (S i) body
      end
  end.

Fixpoint callDownwards_rec (fuel k : nat) (this : iref)
    (functionName : string) (functionArguments : option (list string))
    (bottomUp skipSelf : bool) : M unit :=
  match k with
  | 0 => stuck
  | S k' =>
      let args := default [] functionArguments in
      (if negb bottomUp && negb skipSelf then
         invoke fuel this functionName args ;;;
         invoke fuel this functionName args
       else ret tt) ;;;
      it <- get_item this ;;
      for_children (length (contentItems it)) this 0
        (fun c => callDownwards_rec fuel k' c functionName
                    functionArguments bottomUp false) ;;;
      (if bottomUp && negb skipSelf then
         invoke fuel this functionName args
       else ret tt)
  end.

(** [fuel] bounds the depth of every recursion a call starts. *)
Definition callDownwards (fuel : nat) := callDownwards_rec fuel fuel.

(** ** The mutation engine *)

Fixpoint removeChild_rec (fuel k : nat) (this contentItem : iref)
    (keepChild : bool) : M unit :=
  match k with
  | 0 => stuck
  | S k' =>
      it <- get_item this ;;
      let index := indexOf contentItem (contentItems it) in
      if (index =? -1)%Z then
        throw (Error "Can't remove child item. Unknown content item")
      else
        (if negb keepChild then
           match contentItems it !! Z.to_nat index with
           | None => throw TypeError
           | Some c =>
               _destroy fuel c ;;;
               it1 <- get_item this ;;
               match contentItems it1 !! Z.to_nat index with
               | None => throw TypeError
               | Some c1 =>
                   callDownwards fuel c1 "_$destroy" (Some []) true true
               end
           end
         else ret tt) ;;;
        it2 <- get_item this ;;
        put_item this
          (with_contentItems (splice_remove index (contentItems it2)) it2) ;;;
        c <- this_config this ;;
        match ItemConfig.content c with
        | None => throw TypeError
        | Some l =>
            it3 <- get_item this ;;
            put_config (config it3)
              (ItemConfig.with_content (Some (splice_remove index l)) c) ;;;
            it4 <- get_item this ;;
            if (0 <? length (contentItems it4))%nat then
              callDownwards fuel this "setSize" None false false
            else
              c4 <- this_config this ;;
              if negb (instanceofRoot it4) && ItemConfig.isClosable c4 then
                match parent it4 with
                | None => throw TypeError
                | Some p => removeChild_rec fuel k' p this false
                end
              else ret tt
        end
  end.

Definition removeChild (fuel : nat) := removeChild_rec fuel fuel.

Definition remove (fuel : nat) (this : iref) : M unit :=
  it <- get_item this ;;
  match parent it with
  | None => throw TypeError
  | Some p => removeChild fuel p this false
  end.

Definition addChild (fuel : nat) (this contentItem : iref)
    (index : option Z) : M unit :=
  it <- get_item this ;;
  let index := default (Z.of_nat (length (contentItems it))) index in
  put_item this
    (with_contentItems (splice_insert index contentItem (contentItems it))
                       it) ;;;
  c <- this_config this ;;
  (match ItemConfig.content c with
   | None => put_config (config it) (ItemConfig.with_content (Some []) c)
   | Some _ => ret tt
   end) ;;;
  c1 <- this_config this ;;
  child <- get_item contentItem ;;
  match ItemConfig.content c1 with
  | None => throw TypeError
  | Some l =>
      put_config (config it)
        (ItemConfig.with_content
           (Some (splice_insert index (config child) l)) c1) ;;;
      child1 <- get_item contentItem ;;
      put_item contentItem (with_parent (Some this) child1) ;;;
      child2 <- get_item contentItem ;;
      match parent child2 with
      | None => throw TypeError
      | Some p =>
          pit <- get_item p ;;
          if isInitialised pit && negb (isInitialised child2)
          then _init fuel contentItem
          else ret tt
      end
  end.

(** Modelled from the spec: [LayoutManager._$normalizeContentItem] is not
    among the sources; it is the identity on a node that is already
    constructed, which is what [replaceChild]'s parameter type admits. *)
Definition _normalizeContentItem (contentItem : iref) : M iref :=
  ret contentItem.

(** The hook is empty in this class. *)
Definition processChildReplaced (this : iref) (index : Z) (newChild : iref)
    : M unit := ret tt.

(** The DOM is not part of the store: of [oldChild.element[0].parentNode]
    and [parentNode.replaceChild] the model keeps that both elements must be
    there, and the record of the call. *)
Definition replaceChild (fuel : nat) (this oldChild newChild : iref)
    (destroyOldChild : bool) : M unit :=
  newChild <- _normalizeContentItem newChild ;;
  it <- get_item this ;;
  let index := indexOf oldChild (contentItems it) in
  old <- get_item oldChild ;;
  match element old with
  | None => throw TypeError
  | Some oldEl =>
      if (index =? -1)%Z then
        throw (Error "Can't replace child. oldChild is not child of this")
      else
        new <- get_item newChild ;;
        match element new with
        | None => throw TypeError
        | Some newEl =>
            tell (DomReplaceChild newEl oldEl) ;;;
            (if destroyOldChild then
               old1 <- get_item oldChild ;;
               put_item oldChild (with_parent None old1) ;;;
               _destroy fuel oldChild
             else ret tt) ;;;
            it1 <- get_item this ;;
            put_item this
              (with_contentItems
                 (<[Z.to_nat index := newChild]> (contentItems it1)) it1) ;;;
            new1 <- get_item newChild ;;
            put_item newChild (with_parent (Some this) new1) ;;;
            processChildReplaced this index newChild ;;;
            new2 <- get_item newChild ;;
            match parent new2 with
            | None => throw TypeError
            | Some p =>
                pit <- get_item p ;;
                (if isInitialised pit && negb (isInitialised new2)
                 then _init fuel newChild
                 else ret tt) ;;;
                callDownwards fuel this "setSize" None false false
            end
        end
  end.

(** ** Selectors *)

Fixpoint fold_each {A B} (body : B -> A -> M B) (l : list A) (acc : B)
    : M B :=
  match l with
  | [] => ret acc
  | x :: rest => acc' <- body acc x ;; fold_each body rest acc'
  end.

(** The local function [next] of [getItemsByFilter]; [result] is the array
    it pushes to.  The callback reads the store and leaves it alone. *)
Fixpoint next (fuel : nat) (filter : State -> iref -> bool)
    (contentItem : iref) (result : list iref) : M (list iref) :=
  match fuel with
  | 0 => stuck
  | S fuel' =>
      it <- get_item contentItem ;;
      fold_each
        (fun result c =>
           s <- get ;;
           next fuel' filter c (if filter s c then result ++ [c] else result))
        (contentItems it) result
  end.

Definition getItemsByFilter (fuel : nat) (this : iref)
    (filter : State -> iref -> bool) : M (list iref) :=
  next fuel filter this [].

(** The callback of [getItemsById]. *)
Definition id_filter (id : string) (s : State) (item : iref) : bool :=
  match items s !! item with
  | Some it =>
      match configs s !! config it with
      | Some c =>
          match ItemConfig.id c with
          | IdArr l => negb (indexOf id l =? -1)%Z
          | IdStr x => bool_decide (x = id)
          | IdAbsent => false
          end
      | None => false
      end
  | None => false
  end.

Definition getItemsById (fuel : nat) (this : iref) (id : string)
    : M (list iref) :=
  getItemsByFilter fuel this (id_filter id).

(** ** Geometry *)

(** A JavaScript number is an IEEE 754 binary64 value; [+] and [*] on
    numbers are the additions and multiplications of that format, rounded
    to nearest, with its infinities and NaN. *)
Module Number.
Definition t : Set := PrimFloat.float.
Definition add : t -> t -> t := PrimFloat.add.
Definition mul : t -> t -> t := PrimFloat.mul.
End Number.

Module Offset.
Record t := mk { left : Number.t; top : Number.t }.
End Offset.

Module WidthAndHeight.
Record t := mk { width : Number.t; height : Number.t }.
End WidthAndHeight.

Module Area.
Record t := mk {
  x1 : Number.t; y1 : Number.t; x2 : Number.t; y2 : Number.t;
  surface : Number.t;
  contentItem : iref
}.
End Area.

Definition lift {A} (r : Exn + A) : M A :=
  match r with
  | inl e => throw e
  | inr a => ret a
  end.

(** [_$getArea].  The two jQuery helpers are not among the sources and are
    taken as parameters: they are handed the element, which is undefined when
    neither the argument nor [this.element] is set.  The declared result type
    is [Area | null], hence the option. *)
Definition _getArea
    (getJQueryOffset : option Element -> Exn + Offset.t)
    (getJQueryWidthAndHeight : option Element -> Exn + WidthAndHeight.t)
    (this : iref) (element_arg : option Element) : M (option Area.t) :=
  it <- get_item this ;;
  let el := match element_arg with
            | Some e => Some e
            | None => element it
            end in
  offset <- lift (getJQueryOffset el) ;;
  widthAndHeight <- lift (getJQueryWidthAndHeight el) ;;
  ret (Some (Area.mk
               (Offset.left offset)
               (Offset.top offset)
               (Number.add (Offset.left offset)
                           (WidthAndHeight.width widthAndHeight))
               (Number.add (Offset.top offset)
                           (WidthAndHeight.height widthAndHeight))
               (Number.mul (WidthAndHeight.width widthAndHeight)
                           (WidthAndHeight.height widthAndHeight))
               this)).

(** ** Default resolution of item configurations ([UserConfig.ts]) *)

Module UserItemConfig.

Inductive Kind := root | row | column | stack | component | react_component.

#[local] Unset Elimination Schemes.

(** A user-supplied item configuration; every field but the type may be
    left out.  [componentName] belongs to the two component kinds; their
    [componentState] and [props] are opaque payloads and are left out. *)
Inductive t := mk {
  type : Kind;
  content : option (list t);
  width : option Z;
  height : option Z;
  id : option IdVal;
  isClosable : option bool;
  title : option string;
  reorderEnabled : option bool;
  activeItemIndex : option Z;
  componentName : option string
}.

(** The resolved configuration, a plain value. *)
Inductive resolved := mkResolved {
  r_type : Kind;
  r_content : list resolved;
  r_width : Z;
  r_height : Z;
  r_id : IdVal;
  r_isClosable : bool;
  r_reorderEnabled : bool;
  r_title : string;
  r_activeItemIndex : Z;
  r_componentName : option string
}.

#[local] Set Elimination Schemes.

Definition defaults : resolved :=
  mkResolved stack [] 50 50 (IdStr "") true true "" (-1) None.

(** Modelled from the spec: [ReactComponentConfig.REACT_COMPONENT_ID] is
    declared outside the sources; only its being a fixed name matters. *)
Definition REACT_COMPONENT_ID : string := "lm-react-component".

Fixpoint resolveDefaults (user : t) : Exn + resolved :=
  match user with
  | mk ty content w h i closable ti reorder active cname =>
      let resolveContentDefaults :=
        match content with
        | None => inr []
        | Some l =>
            (fix go (l : list t) : Exn + list resolved :=
               match l with
               | [] => inr []
               | x :: rest =>
                   match resolveDefaults x with
                   | inl e => inl e
                   | inr r =>
                       match go rest with
                       | inl e => inl e
                       | inr rs => inr (r :: rs)
                       end
                   end
               end) l
        end in
      match ty with
      | root | row | column | stack =>
          match resolveContentDefaults with
          | inl e => inl e
          | inr rs =>
              inr (mkResolved ty rs
                     (default (r_width defaults) w)
                     (default (r_height defaults) h)
                     (default (r_id defaults) i)
                     (default (r_isClosable defaults) closable)
                     (default (r_reorderEnabled defaults) reorder)
                     (default (r_title defaults) ti)
                     (default (r_activeItemIndex defaults) active)
                     None)
          end
      | component =>
          match cname with
          | None =>
              inl (Error "UserJsonComponentConfig.componentName is undefined")
          | Some n =>
              match resolveContentDefaults with
              | inl e => inl e
              | inr rs =>
                  inr (mkResolved ty rs
                         (default (r_width defaults) w)
                         (default (r_height defaults) h)
                         (default (r_id defaults) i)
                         (default (r_isClosable defaults) closable)
                         (default (r_reorderEnabled defaults) reorder)
                         (default n ti)
                         (default (r_activeItemIndex defaults) active)
                         (Some n))
              end
          end
      | react_component =>
          match cname with
          | None =>
              inl (Error "UserReactComponentConfig.componentName is undefined")
          | Some n =>
              match resolveContentDefaults with
              | inl e => inl e
              | inr rs =>
                  inr (mkResolved react_component rs
                         (default (r_width defaults) w)
                         (default (r_height defaults) h)
                         (default (r_id defaults) i)
                         (default (r_isClosable defaults) closable)
                         (default (r_reorderEnabled defaults) reorder)
                         (default n ti)
                         (default (r_activeItemIndex defaults) active)
                         (Some REACT_COMPONENT_ID))
              end
          end
      end
  end.

End UserItemConfig.

(** ** The tree a store holds *)

#[local] Unset Elimination Schemes.
Inductive tree := Node (label : iref) (subtrees : list tree).
#[local] Set Elimination Schemes.

Definition label_of (t : tree) : iref := match t with Node i _ => i end.
Definition subtrees_of (t : tree) : list tree :=
  match t with Node _ ch => ch end.

Fixpoint preorder (t : tree) : list iref :=
  match t with Node i ch => i :: concat (map preorder ch) end.

Fixpoint postorder (t : tree) : list iref :=
  match t with Node i ch => concat (map postorder ch) ++ [i] end.

(** Every node twice in a row, parents before children. *)
Fixpoint preorder_twice (t : tree) : list iref :=
  match t with Node i ch => i :: i :: concat (map preorder_twice ch) end.

Fixpoint height (t : tree) : nat :=
  match t with Node _ ch => S (foldr Nat.max 0 (map height ch)) end.

(** The nodes strictly below the top of [t], parents before children and
    siblings in their order. *)
Definition descendants (t : tree) : list iref :=
  concat (map preorder (subtrees_of t)).

#[local] Unset Elimination Schemes.

(** The items of [s] reachable from [label_of t] through [contentItems]
    unfold into [t]. *)
Inductive represents (s : State) : tree -> Prop :=
| represents_node i it ch :
    items s !! i = Some it ->
    contentItems it = map label_of ch ->
    Forall (represents s) ch ->
    represents s (Node i ch).

(** The same, with the [parent] link of every node pointing at the node
    above it; [par] is the link of the top. *)
Inductive hangs (s : State) : option iref -> tree -> Prop :=
| hangs_node par i it ch :
    items s !! i = Some it ->
    parent it = par ->
    contentItems it = map label_of ch ->
    Forall (hangs s (Some i)) ch ->
    hangs s par (Node i ch).

#[local] Set Elimination Schemes.

(** The configuration objects of the items [l], in order. *)
Fixpoint configs_of (s : State) (l : list iref) : option (list cref) :=
  match l with
  | [] => Some []
  | i :: rest =>
      match items s !! i, configs_of s rest with
      | Some it, Some cs => Some (config it :: cs)
      | _, _ => None
      end
  end.

(** [config.content] of item [i] lists the configuration objects of its
    [contentItems], one for one. *)
Definition parallel (s : State) (i : iref) : Prop :=
  exists it c l,
    items s !! i = Some it /\ configs s !! config it = Some c /\
    ItemConfig.content c = Some l /\
    configs_of s (contentItems it) = Some l.

(** Invariants I1, I2 and I3 of the tree under [r], with [t] its shape. *)
Definition I1 (s : State) (t : tree) : Prop :=
  represents s t /\ NoDup (preorder t).
Definition I2 (s : State) (t : tree) : Prop :=
  hangs s None t.
Definition I3 (s : State) (t : tree) : Prop :=
  forall i, i ∈ preorder t -> parallel s i.

Definition well_formed (s : State) (r : iref) : Prop :=
  exists t, label_of t = r /\ I1 s t /\ I2 s t /\ I3 s t.

(** Invariant I4 on an id value. *)
Definition I4 (v : IdVal) : Prop :=
  match v with
  | IdArr [] => False
  | _ => True
  end.

(** ** Bounded checks on a store *)

(** Item [i] has fewer than [n] ancestors and all of them are in the store. *)
Fixpoint depthb (n : nat) (s : State) (i : iref) : bool :=
  match n with
  | 0 => false
  | S n' =>
      match items s !! i with
      | None => false
      | Some it =>
          match parent it with
          | None => true
          | Some p => depthb n' s p
          end
      end
  end.

(** The items below [i] form a tree of height at most [n], and [P] holds of
    [i] and of each of them. *)
Fixpoint allb_below (P : iref -> bool) (n : nat) (s : State) (i : iref)
    : bool :=
  match n with
  | 0 => false
  | S n' =>
      match items s !! i with
      | None => false
      | Some it => P i && forallb (allb_below P n' s) (contentItems it)
      end
  end.

(** [_$destroy] can run on item [i]: it has an element to remove, and the
    two events it emits find their way up within [n] steps. *)
Definition destroyable (n : nat) (s : State) (i : iref) : bool :=
  match items s !! i with
  | Some it =>
      match element it with Some _ => depthb n s i | None => false end
  | None => false
  end.

(** The order in which [callDownwards] reaches the nodes of [t]. *)
Definition visit_order (bottomUp skipSelf : bool) (t : tree) : list iref :=
  match t with
  | Node i ch =>
      if bottomUp then
        concat (map postorder ch) ++ (if skipSelf then [] else [i])
      else
        (if skipSelf then [] else [i; i]) ++ concat (map preorder_twice ch)
  end.

(** A chain of containers above [c] that empties when [c] is removed:
    [chain] lists them from the parent of [c] upwards.  Each holds nothing but
    the node below it, is closable and is not the root, and its parent is the
    next one; [g], the parent of the last, is where the removals stop: it is
    the root, or not closable, or keeps other children. *)
Fixpoint collapses (s : State) (c : iref) (chain : list iref) (g : iref)
    : Prop :=
  match chain with
  | [] =>
      exists it cf l,
        items s !! g = Some it /\ c ∈ contentItems it /\
        configs s !! config it = Some cf /\
        ItemConfig.content cf = Some l /\
        (1 < length (contentItems it) \/ instanceofRoot it = true \/
         ItemConfig.isClosable cf = false)
  | p :: rest =>
      exists it cf l,
        items s !! p = Some it /\ contentItems it = [c] /\
        configs s !! config it = Some cf /\
        ItemConfig.content cf = Some l /\
        instanceofRoot it = false /\ ItemConfig.isClosable cf = true /\
        parent it = Some (hd g rest) /\
        collapses s p rest g
  end.

(** The item on which an event emitted at [i] is scheduled for the layout
    manager: the first item on the way up that is the root or has no parent,
    provided every item on the way is initialised. *)
Fixpoint top_of (n : nat) (s : State) (i : iref) : option iref :=
  match n with
  | 0 => None
  | S n' =>
      match items s !! i with
      | None => None
      | Some it =>
          if isInitialised it then
            match (if isRoot it then None else parent it) with
            | Some p => top_of n' s p
            | None => Some i
            end
          else None
      end
  end.

(** The deliveries to the layout manager among the recorded effects. *)
Definition deliveries (l : list Effect) : list (string * Payload) :=
  omap (fun e => match e with
                 | LmEmit n p => Some (n, p)
                 | _ => None
                 end) l.

(** The calls of method [m] among the recorded effects. *)
Definition calls (m : string) (l : list Effect) : list iref :=
  omap (fun e => match e with
                 | Call i m' _ => if decide (m' = m) then Some i else None
                 | _ => None
                 end) l.

(** [emitBubblingEvent] once per name of [names], in order. *)
Definition emit_all (fuel : nat) (this : iref) (names : list string)
    : M unit :=
  for_each (emitBubblingEvent fuel this) names.


(** [this.config.id] as the store has it. *)
Definition id_of (s : State) (this : iref) : option IdVal :=
  match items s !! this with
  | Some it =>
      match configs s !! config it with
      | Some c => Some (ItemConfig.id c)
      | None => None
      end
  | None => None
  end.

(** ** Sample stores *)

(** An initialised item with an element attached. *)
Definition sample_item (cfg : cref) (ty : string) (ch : list iref)
    (par : option iref) (is_root : bool) (el : Element) : Item :=
  mkItem cfg ty ch par true false is_root is_root (Some el) ∅.

Definition sample_config (l : list cref) (closable : bool) : ItemConfig.t :=
  ItemConfig.mk (Some l) (IdStr "") closable "".

(** root 1 -> row 2 -> stack 3 -> component 4, every id left at its
    default, and a component 5 that is not part of the tree. *)
Definition sample_layout : State :=
  mkState
    (list_to_map
       [(1%positive, sample_item 11 "root" [2%positive] None true 21);
        (2%positive, sample_item 12 "row" [3%positive] (Some 1%positive) false 22);
        (3%positive, sample_item 13 "stack" [4%positive] (Some 2%positive) false 23);
        (4%positive, sample_item 14 "component" [] (Some 3%positive) false 24);
        (5%positive, sample_item 15 "component" [] None false 25)])
    (list_to_map
       [(11%positive, sample_config [12%positive] true);
        (12%positive, sample_config [13%positive] true);
        (13%positive, sample_config [14%positive] true);
        (14%positive, sample_config [] true);
        (15%positive, sample_config [] true)])
    [] [].

Definition sample_tree : tree :=
  Node 1 [Node 2 [Node 3 [Node 4 []]]].

(** [sample_layout] with the id of component 4 set to [v]. *)
Definition sample_with_id (v : IdVal) : State :=
  with_configs
    (<[14%positive := ItemConfig.with_id v (sample_config [] true)]>
       (configs sample_layout))
    sample_layout.

(** A store with a single stack that has no element attached. *)
Definition sample_bare : State :=
  mkState
    {[ 1%positive := mkItem 11 "stack" [] None false false false false None ∅ ]}
    {[ 11%positive := sample_config [] true ]}
    [] [].

(** Modelled from the spec: the helpers of [utils/jquery-legacy] are not
    among the sources.  This sample DOM gives every element the same box,
    300 by 200 at (10, 20), and fails on an undefined element the way a
    property access on undefined does. *)
Definition sample_getJQueryOffset (e : option Element) : Exn + Offset.t :=
  match e with
  | Some _ => inr (Offset.mk 10%float 20%float)
  | None => inl TypeError
  end.

Definition sample_getJQueryWidthAndHeight (e : option Element)
    : Exn + WidthAndHeight.t :=
  match e with
  | Some _ => inr (WidthAndHeight.mk 300%float 200%float)
  | None => inl TypeError
  end.

(** [s] differs from [s0] in the recorded effects at most. *)
Definition trace_only (s0 s : State) : Prop :=
  items s = items s0 /\ configs s = configs s0 /\ frames s = frames s0.

(** From every store that differs from [s0] in the recorded effects at most,
    [m] completes normally and leaves such a store again. *)
Definition quiet (s0 : State) (m : M unit) : Prop :=
  forall s, trace_only s0 s ->
    exists s', m s = (Normal tt, s') /\ trace_only s0 s'.

(** [s'] has the items of [s], each with some of its [contentItems] gone. *)
Definition pruned (s s' : State) : Prop :=
  forall j,
    match items s !! j with
    | None => items s' !! j = None
    | Some it =>
        exists l, items s' !! j = Some (with_contentItems l it) /\
                  l ⊆ contentItems it
    end.

(** What a cascade of removals that starts with [c] and runs through [chain]
    up to [g] leaves of the items of [s]: the containers of the chain are
    empty, [g] has lost the first entry for the node below it, and no other
    item has changed. *)
Definition cascade_result (s s' : State) (c : iref) (chain : list iref)
    (g : iref) : Prop :=
  (forall p, p ∈ chain ->
     exists it, items s !! p = Some it /\
                items s' !! p = Some (with_contentItems [] it)) /\
  (exists it,
     items s !! g = Some it /\
     items s' !! g =
       Some (with_contentItems
               (splice_remove (indexOf (List.last chain c) (contentItems it))
                              (contentItems it)) it)) /\
  (forall j, j ∉ chain -> j <> g -> items s' !! j = items s !! j).

(** [sample_layout] with the detached component 5 not yet initialised. *)
Definition sample_uninitialised : State :=
  with_items
    (<[5%positive :=
         with_isInitialised false
           (sample_item 15 "component" [] None false 25)]>
       (items sample_layout))
    sample_layout.

(** ** Checks on ids *)

(** What [hasId id] answers on item [j] of store [s]. *)
Definition has_id (id : string) (s : State) (j : iref) : bool :=
  match id_of s j with
  | Some v => hasId_of v id
  | None => false
  end.

(** No id is listed twice. *)
Definition distinct_ids (v : IdVal) : Prop :=
  match v with
  | IdArr l => NoDup l
  | _ => True
  end.

(** [sample_layout] with the ids a and b on component 4. *)
Definition sample_ab : State := sample_with_id (IdArr ["a"; "b"]).

(** ** Checks on events *)

(** An event emitted at [i] meets, within [n] steps on its way up, an item
    that is not initialised. *)
Fixpoint dropped (n : nat) (s : State) (i : iref) : bool :=
  match n with
  | 0 => false
  | S n' =>
      match items s !! i with
      | None => false
      | Some it =>
          if isInitialised it then
            match (if isRoot it then None else parent it) with
            | Some p => dropped n' s p
            | None => false
            end
          else true
      end
  end.

(** One window of batching seen from item [i]: stateChanged is emitted
    [S n] times, then the animation frame runs. *)
Definition window (fuel : nat) (i : iref) (n : nat) : M unit :=
  emit_all fuel i (replicate (S n) "stateChanged") ;;; runAnimationFrame.

(** The element of item [c], as [_$init] hands it to the DOM. *)
Definition element_of (s : State) (c : iref) : option Element :=
  match items s !! c with
  | Some ch => element ch
  | None => None
  end.

(** [sample_layout] with the stack 3 not yet initialised. *)
Definition sample_stack_uninitialised : State :=
  with_items
    (<[3%positive :=
         with_isInitialised false
           (sample_item 13 "stack" [4%positive] (Some 2%positive) false 23)]>
       (items sample_layout))
    sample_layout.

(** ** What a call leaves alone *)

(** The fields of an item that make up the tree. *)
Definition shape (it : Item) :=
  (config it, type it, contentItems it, parent it, isMaximised it,
   isRoot it, instanceofRoot it, element it).

(** The same, without the children. *)
Definition links (it : Item) :=
  (config it, type it, parent it, isMaximised it, isRoot it,
   instanceofRoot it, element it).

(** [s'] has the configuration objects of [s] and the items of [s] with
    the same shape: they can differ in the initialised marks, the pending
    deliveries, the recorded effects and the queued frames only. *)
Definition same_structure (s s' : State) : Prop :=
  configs s' = configs s /\
  forall j, shape <$> items s' !! j = shape <$> items s !! j.

(** [s'] has the items of [s], each with the links it had. *)
Definition same_links (s s' : State) : Prop :=
  forall j, links <$> items s' !! j = links <$> items s !! j.

Definition same_configs (s s' : State) : Prop := configs s' = configs s.

(** However [m] ends, the store it leaves is related to the one it
    started from. *)
Definition keeps (R : State -> State -> Prop) {A} (m : M A) : Prop :=
  forall s, R s (snd (m s)).

(** A relation between stores that is kept by every step that keeps the
    structure. *)
Record Framing (R : State -> State -> Prop) : Prop := mkFraming {
  rel_refl : forall s, R s s;
  rel_trans : forall s1 s2 s3, R s1 s2 -> R s2 s3 -> R s1 s3;
  rel_structure : forall s s', same_structure s s' -> R s s'
}.

(** ** More of the mutation engine *)

(** [undisplayChild]; [k] bounds the calls up the tree. *)
Fixpoint undisplayChild_rec (k : nat) (this contentItem : iref) : M unit :=
  match k with
  | 0 => stuck
  | S k' =>
      it <- get_item this ;;
      let index := indexOf contentItem (contentItems it) in
      if (index =? -1)%Z then
        throw (Error "Can't remove child item. Unknown content item")
      else if instanceofRoot it then ret tt
      else
        c <- this_config this ;;
        if ItemConfig.isClosable c then
          match parent it with
          | None => throw TypeError
          | Some p => undisplayChild_rec k' p this
          end
        else ret tt
  end.

Definition undisplayChild (fuel : nat) := undisplayChild_rec fuel.

(** [_$onDrop] *)
Definition _onDrop (fuel : nat) (this contentItem : iref) : M unit :=
  addChild fuel this contentItem None.

(** The way [undisplayChild] takes from the parent of [c]: [chain] lists
    the items it passes, each closable, not the root, listing the node below
    it and pointing at the next; [g], where it stops, lists the node below it
    and is the root or not closable. *)
Fixpoint listed_up (s : State) (c : iref) (chain : list iref) (g : iref)
    : Prop :=
  match chain with
  | [] =>
      exists it,
        items s !! g = Some it /\ c ∈ contentItems it /\
        (instanceofRoot it = true \/
         exists cf, configs s !! config it = Some cf /\
                    ItemConfig.isClosable cf = false)
  | p :: rest =>
      exists it cf,
        items s !! p = Some it /\ c ∈ contentItems it /\
        configs s !! config it = Some cf /\
        instanceofRoot it = false /\ ItemConfig.isClosable cf = true /\
        parent it = Some (hd g rest) /\
        listed_up s p rest g
  end.

(** root 1 with the two stacks 2 and 3, each holding one component. *)
Definition sample_two_stacks : State :=
  mkState
    (list_to_map
       [(1%positive, sample_item 11 "root" [2; 3]%positive None true 21);
        (2%positive, sample_item 12 "stack" [4%positive] (Some 1%positive) false 22);
        (3%positive, sample_item 13 "stack" [5%positive] (Some 1%positive) false 23);
        (4%positive, sample_item 14 "component" [] (Some 2%positive) false 24);
        (5%positive, sample_item 15 "component" [] (Some 3%positive) false 25)])
    (list_to_map
       [(11%positive, sample_config [12; 13]%positive true);
        (12%positive, sample_config [14%positive] true);
        (13%positive, sample_config [15%positive] true);
        (14%positive, sample_config [] true);
        (15%positive, sample_config [] true)])
    [] [].

(** ** More of [UserConfig.ts]: item configurations *)

(** The loop of [UserItemConfig.resolveContentDefaults]. *)
Fixpoint resolve_each (l : list UserItemConfig.t)
    : Exn + list UserItemConfig.resolved :=
  match l with
  | [] => inr []
  | x :: rest =>
      match UserItemConfig.resolveDefaults x with
      | inl e => inl e
      | inr r =>
          match resolve_each rest with
          | inl e => inl e
          | inr rs => inr (r :: rs)
          end
      end
  end.

(** [UserItemConfig.resolveContentDefaults] *)
Definition resolveContentDefaults (content : option (list UserItemConfig.t))
    : Exn + list UserItemConfig.resolved :=
  match content with
  | None => inr []
  | Some l => resolve_each l
  end.

(** Every component in [u], at any depth, names its component. *)
Fixpoint named (u : UserItemConfig.t) : bool :=
  match u with
  | UserItemConfig.mk ty content _ _ _ _ _ _ _ cname =>
      match ty with
      | UserItemConfig.component | UserItemConfig.react_component =>
          match cname with Some _ => true | None => false end
      | _ => true
      end
      && match content with
         | None => true
         | Some l => forallb named l
         end
  end.

(** A resolved configuration read as a user configuration: every field of
    the user interface is a field of the resolved one, so the object is the
    same and all its fields are set. *)
Fixpoint as_user (r : UserItemConfig.resolved) : UserItemConfig.t :=
  match r with
  | UserItemConfig.mkResolved ty content w h i closable reorder ti active
                              cname =>
      UserItemConfig.mk ty (Some (map as_user content)) (Some w) (Some h)
                        (Some i) (Some closable) (Some ti) (Some reorder)
                        (Some active) cname
  end.

(** The item types of a configuration tree. *)
#[local] Unset Elimination Schemes.
Inductive ktree := KNode (k : UserItemConfig.Kind) (ch : list ktree).
#[local] Set Elimination Schemes.

Fixpoint user_shape (u : UserItemConfig.t) : ktree :=
  match u with
  | UserItemConfig.mk ty content _ _ _ _ _ _ _ _ =>
      KNode ty match content with
               | None => []
               | Some l => map user_shape l
               end
  end.

Fixpoint resolved_shape (r : UserItemConfig.resolved) : ktree :=
  match r with
  | UserItemConfig.mkResolved ty content _ _ _ _ _ _ _ _ =>
      KNode ty (map resolved_shape content)
  end.

(** A row holding a stack of two components; little is spelled out. *)
Definition sample_user : UserItemConfig.t :=
  UserItemConfig.mk UserItemConfig.row
    (Some
       [UserItemConfig.mk UserItemConfig.stack
          (Some
             [UserItemConfig.mk UserItemConfig.component None None None
                (Some (IdStr "left")) None None None None (Some "editor");
              UserItemConfig.mk UserItemConfig.react_component None
                (Some 30%Z) None None (Some false) (Some "Preview") None None
                (Some "preview")])
          None None None None None None (Some 1%Z) None])
    None None None None None None None None.

(** The same with the name of the first component left out. *)
Definition sample_user_unnamed : UserItemConfig.t :=
  UserItemConfig.mk UserItemConfig.row
    (Some
       [UserItemConfig.mk UserItemConfig.stack
          (Some
             [UserItemConfig.mk UserItemConfig.component None None None
                (Some (IdStr "left")) None None None None None])
          None None None None None None (Some 1%Z) None])
    None None None None None None None None.

(** ** Default resolution of layout configurations ([UserConfig.ts])

    The resolved records are those of [config/config.ts], which is not among
    the sources; their fields are the ones the resolvers fill.  The
    enumeration [ManagerConfig.Settings.ResponsiveMode] is declared there as
    well: the definitions take its type and its member [onload] as
    parameters. *)

Module ManagerConfig.

Module Settings.
Record t (Mode : Type) := mk {
  hasHeaders : bool;
  constrainDragToContainer : bool;
  reorderEnabled : bool;
  selectionEnabled : bool;
  popoutWholeStack : bool;
  blockedPopoutsThrowError : bool;
  closePopoutsOnUnload : bool;
  showPopoutIcon : bool;
  showMaximiseIcon : bool;
  showCloseIcon : bool;
  responsiveMode : Mode;
  tabOverlapAllowance : Z;
  reorderOnTabMenuClick : bool;
  tabControlOffset : Z
}.
Arguments mk {Mode}.
Arguments hasHeaders {Mode}.
Arguments constrainDragToContainer {Mode}.
Arguments reorderEnabled {Mode}.
Arguments selectionEnabled {Mode}.
Arguments popoutWholeStack {Mode}.
Arguments blockedPopoutsThrowError {Mode}.
Arguments closePopoutsOnUnload {Mode}.
Arguments showPopoutIcon {Mode}.
Arguments showMaximiseIcon {Mode}.
Arguments showCloseIcon {Mode}.
Arguments responsiveMode {Mode}.
Arguments tabOverlapAllowance {Mode}.
Arguments reorderOnTabMenuClick {Mode}.
Arguments tabControlOffset {Mode}.
End Settings.

Module Dimensions.
Record t := mk {
  borderWidth : Z;
  borderGrabWidth : Z;
  minItemHeight : Z;
  minItemWidth : Z;
  headerHeight : Z;
  dragProxyWidth : Z;
  dragProxyHeight : Z
}.
End Dimensions.

Module Labels.
Record t := mk {
  close : string;
  maximise : string;
  minimise : string;
  popout : string;
  popin : string;
  tabDropdown : string
}.
End Labels.

End ManagerConfig.

Module PopoutManagerConfig.

Module Dimensions.
(** [width], [height], [left] and [top] are [number | null]. *)
Record t := mk {
  borderWidth : Z;
  borderGrabWidth : Z;
  minItemHeight : Z;
  minItemWidth : Z;
  headerHeight : Z;
  dragProxyWidth : Z;
  dragProxyHeight : Z;
  width : option Z;
  height : option Z;
  left : option Z;
  top : option Z
}.
End Dimensions.

#[local] Unset Elimination Schemes.
Inductive t (Mode : Type) := mk {
  content : list UserItemConfig.resolved;
  parentId : string;
  indexInParent : Z;
  openPopouts : list (t Mode);
  settings : ManagerConfig.Settings.t Mode;
  labels : ManagerConfig.Labels.t;
  dimensions : Dimensions.t;
  maximisedItemId : option string
}.
#[local] Set Elimination Schemes.
Arguments mk {Mode}.
Arguments content {Mode}.
Arguments openPopouts {Mode}.

End PopoutManagerConfig.

Module Config.
Record t (Mode : Type) := mk {
  defaultsResolved : bool;
  content : list UserItemConfig.resolved;
  openPopouts : list (PopoutManagerConfig.t Mode);
  dimensions : ManagerConfig.Dimensions.t;
  settings : ManagerConfig.Settings.t Mode;
  labels : ManagerConfig.Labels.t;
  maximisedItemId : option string
}.
Arguments mk {Mode}.
Arguments defaultsResolved {Mode}.
Arguments content {Mode}.
Arguments openPopouts {Mode}.
Arguments dimensions {Mode}.
Arguments settings {Mode}.
Arguments labels {Mode}.
Arguments maximisedItemId {Mode}.
End Config.

Module UserManagerConfig.

Module Settings.
Record t (Mode : Type) := mk {
  hasHeaders : option bool;
  constrainDragToContainer : option bool;
  reorderEnabled : option bool;
  selectionEnabled : option bool;
  popoutWholeStack : option bool;
  blockedPopoutsThrowError : option bool;
  closePopoutsOnUnload : option bool;
  showPopoutIcon : option bool;
  showMaximiseIcon : option bool;
  showCloseIcon : option bool;
  responsiveMode : option Mode;
  tabOverlapAllowance : option Z;
  reorderOnTabMenuClick : option bool;
  tabControlOffset : option Z
}.
Arguments mk {Mode}.
Arguments hasHeaders {Mode}.
Arguments constrainDragToContainer {Mode}.
Arguments reorderEnabled {Mode}.
Arguments selectionEnabled {Mode}.
Arguments popoutWholeStack {Mode}.
Arguments blockedPopoutsThrowError {Mode}.
Arguments closePopoutsOnUnload {Mode}.
Arguments showPopoutIcon {Mode}.
Arguments showMaximiseIcon {Mode}.
Arguments showCloseIcon {Mode}.
Arguments responsiveMode {Mode}.
Arguments tabOverlapAllowance {Mode}.
Arguments reorderOnTabMenuClick {Mode}.
Arguments tabControlOffset {Mode}.

Definition defaults {Mode} (onload : Mode) : ManagerConfig.Settings.t Mode :=
  ManagerConfig.Settings.mk true true true false false true true true true
                            true onload 0 true 10.

Definition resolveDefaults {Mode} (onload : Mode) (user : option (t Mode))
    : ManagerConfig.Settings.t Mode :=
  let d := defaults onload in
  ManagerConfig.Settings.mk
    (default (ManagerConfig.Settings.hasHeaders d) (user ≫= hasHeaders))
    (default (ManagerConfig.Settings.constrainDragToContainer d)
             (user ≫= constrainDragToContainer))
    (default (ManagerConfig.Settings.reorderEnabled d)
             (user ≫= reorderEnabled))
    (default (ManagerConfig.Settings.selectionEnabled d)
             (user ≫= selectionEnabled))
    (default (ManagerConfig.Settings.popoutWholeStack d)
             (user ≫= popoutWholeStack))
    (default (ManagerConfig.Settings.blockedPopoutsThrowError d)
             (user ≫= blockedPopoutsThrowError))
    (default (ManagerConfig.Settings.closePopoutsOnUnload d)
             (user ≫= closePopoutsOnUnload))
    (default (ManagerConfig.Settings.showPopoutIcon d)
             (user ≫= showPopoutIcon))
    (default (ManagerConfig.Settings.showMaximiseIcon d)
             (user ≫= showMaximiseIcon))
    (default (ManagerConfig.Settings.showCloseIcon d)
             (user ≫= showCloseIcon))
    (default (ManagerConfig.Settings.responsiveMode d)
             (user ≫= responsiveMode))
    (default (ManagerConfig.Settings.tabOverlapAllowance d)
             (user ≫= tabOverlapAllowance))
    (default (ManagerConfig.Settings.reorderOnTabMenuClick d)
             (user ≫= reorderOnTabMenuClick))
    (default (ManagerConfig.Settings.tabControlOffset d)
             (user ≫= tabControlOffset)).
End Settings.

Module Dimensions.
Record t := mk {
  borderWidth : option Z;
  borderGrabWidth : option Z;
  minItemHeight : option Z;
  minItemWidth : option Z;
  headerHeight : option Z;
  dragProxyWidth : option Z;
  dragProxyHeight : option Z
}.

Definition defaults : ManagerConfig.Dimensions.t :=
  ManagerConfig.Dimensions.mk 5 15 10 10 20 300 200.

Definition resolveDefaults (user : option t) : ManagerConfig.Dimensions.t :=
  ManagerConfig.Dimensions.mk
    (default (ManagerConfig.Dimensions.borderWidth defaults)
             (user ≫= borderWidth))
    (default (ManagerConfig.Dimensions.borderGrabWidth defaults)
             (user ≫= borderGrabWidth))
    (default (ManagerConfig.Dimensions.minItemHeight defaults)
             (user ≫= minItemHeight))
    (default (ManagerConfig.Dimensions.minItemWidth defaults)
             (user ≫= minItemWidth))
    (default (ManagerConfig.Dimensions.headerHeight defaults)
             (user ≫= headerHeight))
    (default (ManagerConfig.Dimensions.dragProxyWidth defaults)
             (user ≫= dragProxyWidth))
    (default (ManagerConfig.Dimensions.dragProxyHeight defaults)
             (user ≫= dragProxyHeight)).
End Dimensions.

Module Labels.
Record t := mk {
  close : option string;
  maximise : option string;
  minimise : option string;
  popin : option string;
  popout : option string;
  tabDropdown : option string
}.

Definition defaults : ManagerConfig.Labels.t :=
  ManagerConfig.Labels.mk "close" "maximise" "minimise" "open in new window"
                          "pop in" "additional tabs".

Definition resolveDefaults (user : option t) : ManagerConfig.Labels.t :=
  ManagerConfig.Labels.mk
    (default (ManagerConfig.Labels.close defaults) (user ≫= close))
    (default (ManagerConfig.Labels.maximise defaults) (user ≫= maximise))
    (default (ManagerConfig.Labels.minimise defaults) (user ≫= minimise))
    (default (ManagerConfig.Labels.popout defaults) (user ≫= popout))
    (default (ManagerConfig.Labels.popin defaults) (user ≫= popin))
    (default (ManagerConfig.Labels.tabDropdown defaults)
             (user ≫= tabDropdown)).
End Labels.

End UserManagerConfig.

Module UserPopoutManagerConfig.

Module Dimensions.
Record t := mk {
  borderWidth : option Z;
  borderGrabWidth : option Z;
  minItemHeight : option Z;
  minItemWidth : option Z;
  headerHeight : option Z;
  dragProxyWidth : option Z;
  dragProxyHeight : option Z;
  width : option Z;
  height : option Z;
  left : option Z;
  top : option Z
}.

Definition defaults : PopoutManagerConfig.Dimensions.t :=
  PopoutManagerConfig.Dimensions.mk 5 15 10 10 20 300 200 None None None None.

(** For the four fields that may be null, [??] with a null default gives
    the field back. *)
Definition resolveDefaults (user : option t)
    : PopoutManagerConfig.Dimensions.t :=
  PopoutManagerConfig.Dimensions.mk
    (default (PopoutManagerConfig.Dimensions.borderWidth defaults)
             (user ≫= borderWidth))
    (default (PopoutManagerConfig.Dimensions.borderGrabWidth defaults)
             (user ≫= borderGrabWidth))
    (default (PopoutManagerConfig.Dimensions.minItemHeight defaults)
             (user ≫= minItemHeight))
    (default (PopoutManagerConfig.Dimensions.minItemWidth defaults)
             (user ≫= minItemWidth))
    (default (PopoutManagerConfig.Dimensions.headerHeight defaults)
             (user ≫= headerHeight))
    (default (PopoutManagerConfig.Dimensions.dragProxyWidth defaults)
             (user ≫= dragProxyWidth))
    (default (PopoutManagerConfig.Dimensions.dragProxyHeight defaults)
             (user ≫= dragProxyHeight))
    (match user ≫= width with
     | Some w => Some w
     | None => PopoutManagerConfig.Dimensions.width defaults
     end)
    (match user ≫= height with
     | Some h => Some h
     | None => PopoutManagerConfig.Dimensions.height defaults
     end)
    (match user ≫= left with
     | Some x => Some x
     | None => PopoutManagerConfig.Dimensions.left defaults
     end)
    (match user ≫= top with
     | Some y => Some y
     | None => PopoutManagerConfig.Dimensions.top defaults
     end).
End Dimensions.

#[local] Unset Elimination Schemes.
(** [maximisedItemId] may be left out, or be null, or be a string. *)
Inductive t (Mode : Type) := mk {
  content : option (list UserItemConfig.t);
  openPopouts : option (list (t Mode));
  dimensions : Dimensions.t;
  settings : option (UserManagerConfig.Settings.t Mode);
  labels : option UserManagerConfig.Labels.t;
  maximisedItemId : option (option string);
  parentId : string;
  indexInParent : Z
}.
#[local] Set Elimination Schemes.
Arguments mk {Mode}.
Arguments content {Mode}.
Arguments openPopouts {Mode}.

(** The fields of the result are computed in the order in which the
    object literal lists them: the content before the open popouts.  The
    inner loop is that of [UserManagerConfig.resolveOpenPopouts]. *)
Fixpoint resolveDefaults {Mode} (onload : Mode) (user : t Mode)
    : Exn + PopoutManagerConfig.t Mode :=
  match user with
  | mk content openPopouts dimensions settings labels maximisedItemId
       parentId indexInParent =>
      match resolveContentDefaults content with
      | inl e => inl e
      | inr rc =>
          match
            match openPopouts with
            | None => inr []
            | Some l =>
                (fix go (l : list (t Mode))
                   : Exn + list (PopoutManagerConfig.t Mode) :=
                   match l with
                   | [] => inr []
                   | x :: rest =>
                       match resolveDefaults onload x with
                       | inl e => inl e
                       | inr r =>
                           match go rest with
                           | inl e => inl e
                           | inr rs => inr (r :: rs)
                           end
                       end
                   end) l
            end
          with
          | inl e => inl e
          | inr rp =>
              inr (PopoutManagerConfig.mk rc parentId indexInParent rp
                     (UserManagerConfig.Settings.resolveDefaults onload
                        settings)
                     (UserManagerConfig.Labels.resolveDefaults labels)
                     (Dimensions.resolveDefaults (Some dimensions))
                     (default None maximisedItemId))
          end
      end
  end.

End UserPopoutManagerConfig.

Section ResolveOpenPopouts.

Context {Mode : Type} (onload : Mode).

(** The loop of [UserManagerConfig.resolveOpenPopouts]. *)
Fixpoint resolve_each_popout (l : list (UserPopoutManagerConfig.t Mode))
    : Exn + list (PopoutManagerConfig.t Mode) :=
  match l with
  | [] => inr []
  | x :: rest =>
      match UserPopoutManagerConfig.resolveDefaults onload x with
      | inl e => inl e
      | inr r =>
          match resolve_each_popout rest with
          | inl e => inl e
          | inr rs => inr (r :: rs)
          end
      end
  end.

End ResolveOpenPopouts.

(** [UserManagerConfig.resolveOpenPopouts] *)
Definition resolveOpenPopouts {Mode} (onload : Mode)
    (userPopoutConfigs : option (list (UserPopoutManagerConfig.t Mode)))
    : Exn + list (PopoutManagerConfig.t Mode) :=
  match userPopoutConfigs with
  | None => inr []
  | Some l => resolve_each_popout onload l
  end.

Module UserConfig.

Record t (Mode : Type) := mk {
  content : option (list UserItemConfig.t);
  openPopouts : option (list (UserPopoutManagerConfig.t Mode));
  dimensions : option UserManagerConfig.Dimensions.t;
  settings : option (UserManagerConfig.Settings.t Mode);
  labels : option UserManagerConfig.Labels.t;
  maximisedItemId : option (option string)
}.
Arguments mk {Mode}.
Arguments content {Mode}.
Arguments openPopouts {Mode}.
Arguments dimensions {Mode}.
Arguments settings {Mode}.
Arguments labels {Mode}.
Arguments maximisedItemId {Mode}.

Definition resolveDefaults {Mode} (onload : Mode) (user : t Mode)
    : Exn + Config.t Mode :=
  match resolveContentDefaults (content user) with
  | inl e => inl e
  | inr rc =>
      match resolveOpenPopouts onload (openPopouts user) with
      | inl e => inl e
      | inr rp =>
          inr (Config.mk true rc rp
                 (UserManagerConfig.Dimensions.resolveDefaults
                    (dimensions user))
                 (UserManagerConfig.Settings.resolveDefaults onload
                    (settings user))
                 (UserManagerConfig.Labels.resolveDefaults (labels user))
                 (default None (maximisedItemId user)))
      end
  end.

Definition defaultConfig {Mode} (onload : Mode) : Config.t Mode :=
  Config.mk true [] []
            UserManagerConfig.Dimensions.defaults
            (UserManagerConfig.Settings.defaults onload)
            UserManagerConfig.Labels.defaults
            None.

(** The argument is a resolved configuration or a user configuration; a
    user configuration has no [defaultsResolved] field. *)
Definition isUserConfig {Mode} (configOrUserConfig : Config.t Mode + t Mode)
    : bool :=
  match configOrUserConfig with
  | inl config => negb (Config.defaultsResolved config)
  | inr _ => true
  end.

End UserConfig.

(** ** Checks on layout configurations *)

(** Every component of every item configuration of the popout, and of the
    popouts it opens, names its component. *)
Fixpoint popout_named {Mode} (u : UserPopoutManagerConfig.t Mode) : bool :=
  match u with
  | UserPopoutManagerConfig.mk content openPopouts _ _ _ _ _ _ =>
      forallb named (default [] content)
      && match openPopouts with
         | None => true
         | Some l => forallb popout_named l
         end
  end.

Definition layout_named {Mode} (u : UserConfig.t Mode) : bool :=
  forallb named (default [] (UserConfig.content u))
  && forallb popout_named (default [] (UserConfig.openPopouts u)).

(** Resolved records read as user records: all fields are set. *)
Definition settings_as_user {Mode} (r : ManagerConfig.Settings.t Mode)
    : UserManagerConfig.Settings.t Mode :=
  UserManagerConfig.Settings.mk
    (Some (ManagerConfig.Settings.hasHeaders r))
    (Some (ManagerConfig.Settings.constrainDragToContainer r))
    (Some (ManagerConfig.Settings.reorderEnabled r))
    (Some (ManagerConfig.Settings.selectionEnabled r))
    (Some (ManagerConfig.Settings.popoutWholeStack r))
    (Some (ManagerConfig.Settings.blockedPopoutsThrowError r))
    (Some (ManagerConfig.Settings.closePopoutsOnUnload r))
    (Some (ManagerConfig.Settings.showPopoutIcon r))
    (Some (ManagerConfig.Settings.showMaximiseIcon r))
    (Some (ManagerConfig.Settings.showCloseIcon r))
    (Some (ManagerConfig.Settings.responsiveMode r))
    (Some (ManagerConfig.Settings.tabOverlapAllowance r))
    (Some (ManagerConfig.Settings.reorderOnTabMenuClick r))
    (Some (ManagerConfig.Settings.tabControlOffset r)).

Definition dimensions_as_user (r : ManagerConfig.Dimensions.t)
    : UserManagerConfig.Dimensions.t :=
  UserManagerConfig.Dimensions.mk
    (Some (ManagerConfig.Dimensions.borderWidth r))
    (Some (ManagerConfig.Dimensions.borderGrabWidth r))
    (Some (ManagerConfig.Dimensions.minItemHeight r))
    (Some (ManagerConfig.Dimensions.minItemWidth r))
    (Some (ManagerConfig.Dimensions.headerHeight r))
    (Some (ManagerConfig.Dimensions.dragProxyWidth r))
    (Some (ManagerConfig.Dimensions.dragProxyHeight r)).

Definition labels_as_user (r : ManagerConfig.Labels.t)
    : UserManagerConfig.Labels.t :=
  UserManagerConfig.Labels.mk
    (Some (ManagerConfig.Labels.close r))
    (Some (ManagerConfig.Labels.maximise r))
    (Some (ManagerConfig.Labels.minimise r))
    (Some (ManagerConfig.Labels.popin r))
    (Some (ManagerConfig.Labels.popout r))
    (Some (ManagerConfig.Labels.tabDropdown r)).

Definition popout_dimensions_as_user (r : PopoutManagerConfig.Dimensions.t)
    : UserPopoutManagerConfig.Dimensions.t :=
  UserPopoutManagerConfig.Dimensions.mk
    (Some (PopoutManagerConfig.Dimensions.borderWidth r))
    (Some (PopoutManagerConfig.Dimensions.borderGrabWidth r))
    (Some (PopoutManagerConfig.Dimensions.minItemHeight r))
    (Some (PopoutManagerConfig.Dimensions.minItemWidth r))
    (Some (PopoutManagerConfig.Dimensions.headerHeight r))
    (Some (PopoutManagerConfig.Dimensions.dragProxyWidth r))
    (Some (PopoutManagerConfig.Dimensions.dragProxyHeight r))
    (PopoutManagerConfig.Dimensions.width r)
    (PopoutManagerConfig.Dimensions.height r)
    (PopoutManagerConfig.Dimensions.left r)
    (PopoutManagerConfig.Dimensions.top r).

Fixpoint popout_as_user {Mode} (r : PopoutManagerConfig.t Mode)
    : UserPopoutManagerConfig.t Mode :=
  match r with
  | PopoutManagerConfig.mk content parentId indexInParent openPopouts
                           settings labels dimensions maximisedItemId =>
      UserPopoutManagerConfig.mk
        (Some (map as_user content))
        (Some (map popout_as_user openPopouts))
        (popout_dimensions_as_user dimensions)
        (Some (settings_as_user settings))
        (Some (labels_as_user labels))
        (Some maximisedItemId)
        parentId indexInParent
  end.

Definition config_as_user {Mode} (c : Config.t Mode) : UserConfig.t Mode :=
  UserConfig.mk
    (Some (map as_user (Config.content c)))
    (Some (map popout_as_user (Config.openPopouts c)))
    (Some (dimensions_as_user (Config.dimensions c)))
    (Some (settings_as_user (Config.settings c)))
    (Some (labels_as_user (Config.labels c)))
    (Some (Config.maximisedItemId c)).

(** The seven dimensions a popout shares with the main window. *)
Definition shared_dimensions (r : PopoutManagerConfig.Dimensions.t)
    : ManagerConfig.Dimensions.t :=
  ManagerConfig.Dimensions.mk
    (PopoutManagerConfig.Dimensions.borderWidth r)
    (PopoutManagerConfig.Dimensions.borderGrabWidth r)
    (PopoutManagerConfig.Dimensions.minItemHeight r)
    (PopoutManagerConfig.Dimensions.minItemWidth r)
    (PopoutManagerConfig.Dimensions.headerHeight r)
    (PopoutManagerConfig.Dimensions.dragProxyWidth r)
    (PopoutManagerConfig.Dimensions.dragProxyHeight r).

Definition shared_user_dimensions (u : UserPopoutManagerConfig.Dimensions.t)
    : UserManagerConfig.Dimensions.t :=
  UserManagerConfig.Dimensions.mk
    (UserPopoutManagerConfig.Dimensions.borderWidth u)
    (UserPopoutManagerConfig.Dimensions.borderGrabWidth u)
    (UserPopoutManagerConfig.Dimensions.minItemHeight u)
    (UserPopoutManagerConfig.Dimensions.minItemWidth u)
    (UserPopoutManagerConfig.Dimensions.headerHeight u)
    (UserPopoutManagerConfig.Dimensions.dragProxyWidth u)
    (UserPopoutManagerConfig.Dimensions.dragProxyHeight u).

(** A layout with one popout that holds [sample_user]; the main window
    holds it as well.  Responsive modes are given by name. *)
Definition sample_user_layout : UserConfig.t string :=
  UserConfig.mk
    (Some [sample_user])
    (Some
       [UserPopoutManagerConfig.mk (Some [sample_user]) None
          (UserPopoutManagerConfig.Dimensions.mk None None None None
             (Some 30%Z) None None (Some 400%Z) (Some 300%Z) None None)
          None None None "left" 0%Z])
    None
    (Some (UserManagerConfig.Settings.mk (Some false) None None None None None
             None None None None None None None None))
    None None.

(** ** The record a destruction leaves *)



(** root 1 with the two stacks 2 and 3; stack 2 holds the components 4 and
    6, stack 3 holds component 5. *)
Definition sample_three_components : State :=
  mkState
    (list_to_map
       [(1%positive, sample_item 11 "root" [2; 3]%positive None true 21);
        (2%positive, sample_item 12 "stack" [4; 6]%positive (Some 1%positive) false 22);
        (3%positive, sample_item 13 "stack" [5%positive] (Some 1%positive) false 23);
        (4%positive, sample_item 14 "component" [] (Some 2%positive) false 24);
        (5%positive, sample_item 15 "component" [] (Some 3%positive) false 25);
        (6%positive, sample_item 16 "component" [] (Some 2%positive) false 26)])
    (list_to_map
       [(11%positive, sample_config [12; 13]%positive true);
        (12%positive, sample_config [14; 16]%positive true);
        (13%positive, sample_config [15%positive] true);
        (14%positive, sample_config [] true);
        (15%positive, sample_config [] true);
        (16%positive, sample_config [] true)])
    [] [].

(** ** Initialising the children *)

(** [initContentItems] *)
Definition initContentItems (fuel : nat) (this : iref) : M unit :=
  it <- get_item this ;;
  for_children (length (contentItems it)) this 0 (fun c => _init fuel c).

(** The deliveries that the initialisation of item [c] makes. *)
Definition created (s : State) (c : iref) : list (string * Payload) :=
  match items s !! c with
  | Some itc =>
      [("itemCreated", POrigin c); (type itc +:+ "Created", POrigin c)]
  | None => []
  end.

(** [sample_three_components] before the two components of stack 2 are
    initialised. *)
Definition sample_stack_to_fill : State :=
  with_items
    (<[4%positive :=
         with_isInitialised false
           (sample_item 14 "component" [] (Some 2%positive) false 24)]>
       (<[6%positive :=
            with_isInitialised false
              (sample_item 16 "component" [] (Some 2%positive) false 26)]>
          (items sample_three_components)))
    sample_three_components.

(** * Properties *)

(** ** Running computations *)

Lemma bind_run {A B} (m : M A) (k : A -> M B) s a s' :
  m s = (Normal a, s') -> bind m k s = k a s'.
Proof. intros H. unfold bind. now rewrite H. Qed.

Lemma get_item_run s i it :
  items s !! i = Some it -> get_item i s = (Normal it, s).
Proof. intros H. unfold get_item. now rewrite H. Qed.

Lemma get_config_run s c x :
  configs s !! c = Some x -> get_config c s = (Normal x, s).
Proof. intros H. unfold get_config. now rewrite H. Qed.

Lemma this_config_run s this it c :
  items s !! this = Some it -> configs s !! config it = Some c ->
  this_config this s = (Normal c, s).
Proof.
  intros Hi Hc. unfold this_config.
  rewrite (bind_run _ _ _ _ _ (get_item_run _ _ _ Hi)).
  now apply get_config_run.
Qed.

(** ** The id subsystem *)

Lemma id_of_inv s this v :
  id_of s this = Some v ->
  exists it c, items s !! this = Some it /\ configs s !! config it = Some c
               /\ ItemConfig.id c = v.
Proof.
  unfold id_of. destruct (items s !! this) as [it|]; [|discriminate].
  destruct (configs s !! config it) as [c|] eqn:Hc; [|discriminate].
  intros [= <-]. eauto.
Qed.

Lemma hasId_run s this v id :
  id_of s this = Some v -> hasId this id s = (Normal (hasId_of v id), s).
Proof.
  intros (it & c & Hi & Hc & <-)%id_of_inv. unfold hasId.
  now rewrite (bind_run _ _ _ _ _ (this_config_run _ _ _ _ Hi Hc)).
Qed.

Lemma set_id_run s this it c v :
  items s !! this = Some it -> configs s !! config it = Some c ->
  set_id this v s =
    (Normal tt,
     with_configs (<[config it := ItemConfig.with_id v c]> (configs s)) s).
Proof.
  intros Hi Hc. unfold set_id.
  rewrite (bind_run _ _ _ _ _ (get_item_run _ _ _ Hi)).
  now rewrite (bind_run _ _ _ _ _ (get_config_run _ _ _ Hc)).
Qed.

Lemma id_of_set s this it c v :
  items s !! this = Some it ->
  id_of (with_configs (<[config it := ItemConfig.with_id v c]> (configs s)) s)
        this = Some v.
Proof.
  intros Hi. unfold id_of. cbn. rewrite Hi. now rewrite lookup_insert_eq.
Qed.

(** What [addId] leaves in [config.id], branch by branch. *)
Lemma addId_run s this v id :
  id_of s this = Some v ->
  exists s',
    addId this id s = (Normal tt, s') /\ items s' = items s /\
    trace s' = trace s /\ frames s' = frames s /\
    id_of s' this =
      Some (if hasId_of v id then v
            else if falsy v then IdStr id
            else match v with
                 | IdStr x => IdArr [x; id]
                 | IdArr l => IdArr (l ++ [id])
                 | IdAbsent => v
                 end).
Proof.
  intros Hv. pose proof Hv as (it & c & Hi & Hc & <-)%id_of_inv.
  unfold addId. rewrite (bind_run _ _ _ _ _ (hasId_run _ _ _ id Hv)).
  destruct (hasId_of (ItemConfig.id c) id).
  { exists s. now repeat split. }
  rewrite (bind_run _ _ _ _ _ (this_config_run _ _ _ _ Hi Hc)).
  destruct (falsy (ItemConfig.id c)) eqn:Hf.
  { rewrite (set_id_run _ _ _ _ _ Hi Hc). eexists. repeat split.
    now apply id_of_set. }
  destruct (ItemConfig.id c) as [|x|l] eqn:Hid.
  - discriminate.
  - rewrite (set_id_run _ _ _ _ _ Hi Hc). eexists. repeat split.
    now apply id_of_set.
  - rewrite (set_id_run _ _ _ _ _ Hi Hc). eexists. repeat split.
    now apply id_of_set.
Qed.

(** What [removeId] does: it throws and changes nothing when the id is not
    there, and otherwise drops a scalar or splices the array. *)
Lemma removeId_run s this v id :
  id_of s this = Some v ->
  if hasId_of v id then
    exists s',
      removeId this id s = (Normal tt, s') /\ items s' = items s /\
      id_of s' this =
        Some (match v with
              | IdStr _ => IdAbsent
              | IdArr l => IdArr (splice_remove (indexOf id l) l)
              | IdAbsent => v
              end)
  else removeId this id s = (Throw (Error "Id not found"), s).
Proof.
  intros Hv. pose proof Hv as (it & c & Hi & Hc & <-)%id_of_inv.
  unfold removeId. rewrite (bind_run _ _ _ _ _ (hasId_run _ _ _ id Hv)).
  destruct (hasId_of (ItemConfig.id c) id) eqn:Hh; [|reflexivity].
  cbn [negb]. rewrite (bind_run _ _ _ _ _ (this_config_run _ _ _ _ Hi Hc)).
  destruct (ItemConfig.id c) as [|x|l] eqn:Hid.
  - discriminate.
  - rewrite (set_id_run _ _ _ _ _ Hi Hc). eexists. repeat split.
    now apply id_of_set.
  - rewrite (set_id_run _ _ _ _ _ Hi Hc). eexists. repeat split.
    now apply id_of_set.
Qed.

Lemma indexOf_range `{EqDecision A} (x : A) (l : list A) :
  indexOf x l = (-1)%Z \/ (0 <= indexOf x l < Z.of_nat (length l))%Z.
Proof.
  induction l as [|y l IH]; cbn; [now left|].
  destruct (decide (y = x)); [right; lia|].
  destruct (Z.eqb_spec (indexOf x l) (-1)); [now left|].
  right. lia.
Qed.

Lemma indexOf_absent `{EqDecision A} (x : A) (l : list A) :
  indexOf x l = (-1)%Z <-> x ∉ l.
Proof.
  induction l as [|y l IH]; cbn.
  - split; [intros _; apply not_elem_of_nil | reflexivity].
  - rewrite not_elem_of_cons.
    destruct (decide (y = x)) as [->|Hne].
    + split; [discriminate | intros [[] _]; reflexivity].
    + destruct (Z.eqb_spec (indexOf x l) (-1)) as [E|E].
      * split; [intros _; split; [congruence | now apply IH] | reflexivity].
      * split.
        -- pose proof (indexOf_range x l). lia.
        -- intros [_ H%IH]. contradiction.
Qed.

Lemma indexOf_lookup `{EqDecision A} (x : A) (l : list A) :
  indexOf x l <> (-1)%Z -> l !! Z.to_nat (indexOf x l) = Some x.
Proof.
  induction l as [|y l IH]; cbn; [congruence|].
  destruct (decide (y = x)) as [->|Hne]; [reflexivity|].
  destruct (Z.eqb_spec (indexOf x l) (-1)) as [E|E]; [congruence|].
  intros _. pose proof (indexOf_range x l) as [?|?]; [contradiction|].
  replace (Z.to_nat (1 + indexOf x l)) with (S (Z.to_nat (indexOf x l))) by lia.
  cbn. now apply IH.
Qed.

Lemma splice_start_index (len : nat) (i : Z) :
  (0 <= i < Z.of_nat len)%Z -> splice_start len i = Z.to_nat i.
Proof.
  intros H. unfold splice_start.
  destruct (Z.ltb_spec i 0); [lia|]. f_equal. lia.
Qed.

Lemma elem_of_delete_other {A} (l : list A) (k : nat) (a b : A) :
  l !! k = Some a -> a <> b -> (b ∈ delete k l <-> b ∈ l).
Proof.
  revert k. induction l as [|y l IH]; intros [|k]; cbn; try discriminate.
  - intros [= ->] Hab. rewrite elem_of_cons.
    split; [auto | intros [->|?]; [contradiction | assumption]].
  - intros Hk Hab. rewrite !elem_of_cons, (IH k Hk Hab). reflexivity.
Qed.

Lemma hasId_inv s this id b s' :
  hasId this id s = (Normal b, s') ->
  s' = s /\ exists v, id_of s this = Some v /\ b = hasId_of v id.
Proof.
  unfold hasId, this_config, bind, get_item, get_config, id_of, ret.
  destruct (items s !! this) as [it|]; [|discriminate].
  destruct (configs s !! config it) as [c|]; [|discriminate].
  intros [= <- <-]. eauto.
Qed.

(** C6. On a node whose id is still unset, [hasId a] is false; after
    [addId a] it is true; after [addId b] both ids are there; after
    [removeId a] only [b] is left.  [addId] changes nothing when the id is
    already there, and otherwise turns an unset id into the scalar, a scalar
    into a two-element array, and appends to an array.  Unset is what the
    code tests with [!this.config.id]: missing or the empty string. *)
Theorem id_scenario (s : State) (this : iref) (v : IdVal) (a b : string) :
  id_of s this = Some v -> falsy v = true -> a <> "" -> a <> b ->
  (hasId this a s = (Normal false, s) /\
   exists s1 s2 s3,
     addId this a s = (Normal tt, s1) /\
     hasId this a s1 = (Normal true, s1) /\
     addId this b s1 = (Normal tt, s2) /\
     hasId this a s2 = (Normal true, s2) /\
     hasId this b s2 = (Normal true, s2) /\
     removeId this a s2 = (Normal tt, s3) /\
     hasId this a s3 = (Normal false, s3) /\
     hasId this b s3 = (Normal true, s3)) /\
  (forall s' id,
     hasId this id s' = (Normal true, s') ->
     addId this id s' = (Normal tt, s')) /\
  (forall s' w id,
     id_of s' this = Some w -> hasId this id s' = (Normal false, s') ->
     exists s'',
       addId this id s' = (Normal tt, s'') /\
       id_of s'' this =
         Some (match w with
               | IdAbsent => IdStr id
               | IdStr x => if decide (x = "") then IdStr id else IdArr [x; id]
               | IdArr l => IdArr (l ++ [id])
               end)).
Proof.
  intros Hv Hf Ha Hab. split; [|split].
  - assert (Hh : forall x, hasId_of v x = false).
    { intros x. unfold hasId_of. now rewrite Hf. }
    split; [rewrite (hasId_run _ _ _ a Hv), Hh; reflexivity|].
    destruct (addId_run s this v a Hv) as (s1 & R1 & _ & _ & _ & I1).
    rewrite Hh, Hf in I1.
    assert (Ea : hasId_of (IdStr a) a = true).
    { unfold hasId_of. cbn. rewrite bool_decide_false by exact Ha.
      now apply bool_decide_true. }
    assert (Eb : hasId_of (IdStr a) b = false).
    { unfold hasId_of. cbn. rewrite bool_decide_false by exact Ha.
      now apply bool_decide_false. }
    destruct (addId_run s1 this _ b I1) as (s2 & R2 & _ & _ & _ & I2).
    rewrite Eb in I2. cbn [falsy] in I2.
    rewrite bool_decide_false in I2 by exact Ha.
    assert (Ia : indexOf a [a; b] = 0%Z).
    { cbn. now destruct (decide (a = a)). }
    assert (Ib : indexOf b [a; b] = 1%Z).
    { cbn. destruct (decide (a = b)); [contradiction|].
      now destruct (decide (b = b)). }
    pose proof (removeId_run s2 this _ a I2) as R3.
    assert (E2a : hasId_of (IdArr [a; b]) a = true).
    { unfold hasId_of. cbn [falsy]. now rewrite Ia. }
    assert (E2b : hasId_of (IdArr [a; b]) b = true).
    { unfold hasId_of. cbn [falsy]. now rewrite Ib. }
    rewrite E2a in R3. destruct R3 as (s3 & R3 & _ & I3).
    rewrite Ia in I3. change (splice_remove 0 [a; b]) with [b] in I3.
    exists s1, s2, s3. repeat split; try assumption.
    + now rewrite (hasId_run _ _ _ a I1), Ea.
    + now rewrite (hasId_run _ _ _ a I2), E2a.
    + now rewrite (hasId_run _ _ _ b I2), E2b.
    + rewrite (hasId_run _ _ _ a I3). unfold hasId_of. cbn.
      now destruct (decide (b = a)); [congruence|].
    + rewrite (hasId_run _ _ _ b I3). unfold hasId_of. cbn.
      now destruct (decide (b = b)).
  - intros s' x Hx. destruct (hasId_inv _ _ _ _ _ Hx) as (_ & w & Hw & E).
    unfold addId. rewrite (bind_run _ _ _ _ _ Hx). reflexivity.
  - intros s' w x Hw Hx.
    destruct (hasId_inv _ _ _ _ _ Hx) as (_ & w' & Hw' & E).
    assert (w' = w) as -> by congruence.
    destruct (addId_run s' this w x Hw) as (s'' & R & _ & _ & _ & I).
    rewrite <- E in I. exists s''. split; [exact R|]. rewrite I. f_equal.
    destruct w as [|y|l]; cbn; [reflexivity| |reflexivity].
    destruct (decide (y = "")) as [->|Hy].
    + now rewrite bool_decide_true.
    + now rewrite bool_decide_false.
Qed.

Lemma id_scenario_witness :
  (hasId 4 "a" sample_layout = (Normal false, sample_layout) /\
   exists s1 s2 s3,
     addId 4 "a" sample_layout = (Normal tt, s1) /\
     hasId 4 "a" s1 = (Normal true, s1) /\
     addId 4 "b" s1 = (Normal tt, s2) /\
     hasId 4 "a" s2 = (Normal true, s2) /\
     hasId 4 "b" s2 = (Normal true, s2) /\
     removeId 4 "a" s2 = (Normal tt, s3) /\
     hasId 4 "a" s3 = (Normal false, s3) /\
     hasId 4 "b" s3 = (Normal true, s3)) /\
  (forall s' id,
     hasId 4 id s' = (Normal true, s') ->
     addId 4 id s' = (Normal tt, s')) /\
  (forall s' w id,
     id_of s' 4 = Some w -> hasId 4 id s' = (Normal false, s') ->
     exists s'',
       addId 4 id s' = (Normal tt, s'') /\
       id_of s'' 4 =
         Some (match w with
               | IdAbsent => IdStr id
               | IdStr x => if decide (x = "") then IdStr id else IdArr [x; id]
               | IdArr l => IdArr (l ++ [id])
               end)).
Proof.
  apply (id_scenario sample_layout 4 (IdStr "") "a" "b");
    [reflexivity | reflexivity | discriminate | discriminate].
Defined.

(** C7, as the code has it.  [addId] keeps invariant I4.  [removeId] keeps
    it too, whether it removes or throws, unless the id is the one-element
    array that holds exactly the removed id: then the array is left empty. *)
Theorem id_ops_I4 (s : State) (this : iref) (v : IdVal) (id : string) :
  id_of s this = Some v -> I4 v ->
  (exists s' v',
     addId this id s = (Normal tt, s') /\ id_of s' this = Some v' /\ I4 v') /\
  (v <> IdArr [id] ->
   exists r s' v',
     removeId this id s = (r, s') /\ r <> Stuck /\
     id_of s' this = Some v' /\ I4 v') /\
  (v = IdArr [id] ->
   exists s',
     removeId this id s = (Normal tt, s') /\ id_of s' this = Some (IdArr [])).
Proof.
  intros Hv HI. split; [|split].
  - destruct (addId_run s this v id Hv) as (s' & R & _ & _ & _ & Hs').
    eexists _, _. split; [exact R|]. split; [exact Hs'|].
    destruct (hasId_of v id); [exact HI|].
    destruct (falsy v); [exact I|].
    destruct v as [|x|l]; cbn; try exact I. now destruct l.
  - intros Hne. pose proof (removeId_run s this v id Hv) as R.
    destruct (hasId_of v id) eqn:Hh.
    + destruct R as (s' & R & _ & Hs'). eexists _, s', _.
      split; [exact R|]. split; [discriminate|]. split; [exact Hs'|].
      destruct v as [|x|l]; cbn; try exact I.
      unfold hasId_of in Hh. cbn in Hh.
      apply negb_true_iff, Z.eqb_neq in Hh.
      pose proof (indexOf_range id l) as [?|Hr]; [contradiction|].
      pose proof (indexOf_lookup id l Hh) as Hl.
      unfold splice_remove. rewrite (splice_start_index _ _ Hr).
      destruct l as [|y [|z l]]; [exact HI| |].
      * assert (indexOf id [y] = 0%Z) as E by (simpl length in Hr; lia).
        rewrite E in Hl. injection Hl as ->. now contradiction Hne.
      * assert (length (delete (Z.to_nat (indexOf id (y :: z :: l)))
                          (y :: z :: l)) = S (length l)) as Hlen.
        { rewrite length_delete by (rewrite Hl; eauto). reflexivity. }
        now destruct (delete _ _).
    + eexists _, s, v. split; [exact R|]. now repeat split.
  - intros ->. pose proof (removeId_run s this _ id Hv) as R.
    assert (indexOf id [id] = 0%Z) as E.
    { cbn. now destruct (decide (id = id)). }
    unfold hasId_of in R. cbn [falsy] in R. rewrite E in R.
    destruct R as (s' & R & _ & Hs'). exists s'. split; [exact R|exact Hs'].
Qed.

Lemma id_ops_I4_witness :
  (exists s' v',
     addId 4 "b" (sample_with_id (IdArr ["a"])) = (Normal tt, s') /\
     id_of s' 4 = Some v' /\ I4 v') /\
  (IdArr ["a"] <> IdArr ["b"] ->
   exists r s' v',
     removeId 4 "b" (sample_with_id (IdArr ["a"])) = (r, s') /\ r <> Stuck /\
     id_of s' 4 = Some v' /\ I4 v') /\
  (IdArr ["a"] = IdArr ["b"] ->
   exists s',
     removeId 4 "b" (sample_with_id (IdArr ["a"])) = (Normal tt, s') /\
     id_of s' 4 = Some (IdArr [])).
Proof.
  apply (id_ops_I4 (sample_with_id (IdArr ["a"])) 4 (IdArr ["a"]) "b");
    [reflexivity | exact I].
Defined.

(** C7 as stated fails: starting from the default id, adding two ids and
    removing both leaves the empty array, which I4 excludes. *)
Lemma removeId_leaves_empty_sequence :
  exists s',
    (addId 4 "a" ;;; addId 4 "b" ;;; removeId 4 "a" ;;; removeId 4 "b")
      sample_layout = (Normal tt, s') /\
    id_of s' 4 = Some (IdArr []) /\ ~ I4 (IdArr []).
Proof.
  eexists. split; [vm_compute; reflexivity|].
  split; [reflexivity | intros []].
Qed.

(** ** Trees and traversals *)

Lemma tree_ind' (P : tree -> Prop) :
  (forall i ch, Forall P ch -> P (Node i ch)) -> forall t, P t.
Proof.
  intros H. fix IH 1. intros [i ch]. apply H.
  induction ch as [|c ch IHch]; constructor; [apply IH | exact IHch].
Qed.

Lemma height_subtrees (ch : list tree) :
  Forall (fun c => height c <= foldr Nat.max 0 (map height ch)) ch.
Proof.
  induction ch as [|c ch IH]; constructor; cbn; [lia|].
  eapply Forall_impl; [exact IH|]. cbn. intros; lia.
Qed.

Lemma represents_inv s i ch :
  represents s (Node i ch) ->
  exists it, items s !! i = Some it /\ contentItems it = map label_of ch /\
             Forall (represents s) ch.
Proof. inversion 1; subst; eauto. Qed.

(** ** Selectors *)

Lemma next_spec (t : tree) :
  forall fuel s filter acc,
    represents s t -> height t <= fuel ->
    next fuel filter (label_of t) acc s =
      (Normal (acc ++ List.filter (filter s) (descendants t)), s).
Proof.
  induction t as [i ch IH] using tree_ind'.
  intros fuel s f acc (it & Hi & Hc & Hch)%represents_inv Hh.
  destruct fuel as [|fuel]; [cbn in Hh; lia|].
  cbn [next label_of]. rewrite (bind_run _ _ _ _ _ (get_item_run _ _ _ Hi)).
  rewrite Hc. unfold descendants. cbn [subtrees_of].
  assert (Hhs : Forall (fun c => height c <= fuel) ch).
  { eapply Forall_impl; [apply height_subtrees|]. cbn in *. intros; lia. }
  clear Hh Hi Hc it. revert acc.
  induction ch as [|c ch IHch]; intros acc.
  - cbn. now rewrite app_nil_r.
  - apply Forall_cons in IH as [IHc IH].
    apply Forall_cons in Hch as [Hc Hch].
    apply Forall_cons in Hhs as [Hhc Hhs].
    cbn [map fold_each concat].
    unfold bind at 1. unfold get at 1. unfold bind at 1.
    rewrite (IHc fuel s f _ Hc Hhc).
    rewrite (IHch IH Hch Hhs). f_equal. f_equal.
    rewrite List.filter_app. destruct c as [j chj].
    cbn [preorder label_of List.filter descendants subtrees_of].
    destruct (f s j); cbn; now rewrite <- ?app_assoc.
Qed.

Lemma getItemsByFilter_preorder_aux (s : State) (t : tree) (fuel : nat)
    (filter : State -> iref -> bool) :
  represents s t -> height t <= fuel ->
  getItemsByFilter fuel (label_of t) filter s =
    (Normal (List.filter (filter s) (descendants t)), s).
Proof.
  intros Hr Hh. unfold getItemsByFilter.
  now rewrite (next_spec t fuel s filter [] Hr Hh).
Qed.

(** C9. On a store that holds the tree [t], [getItemsByFilter] returns the
    nodes below the receiver that satisfy the callback, parents before
    children and siblings in their order; the receiver is not among them. *)
Theorem getItemsByFilter_preorder (s : State) (t : tree) (fuel : nat)
    (filter : State -> iref -> bool) :
  represents s t -> height t <= fuel ->
  getItemsByFilter fuel (label_of t) filter s =
    (Normal (List.filter (filter s) (descendants t)), s) /\
  (NoDup (preorder t) ->
   label_of t ∉ List.filter (filter s) (descendants t)).
Proof.
  intros Hr Hh. split.
  - now apply getItemsByFilter_preorder_aux.
  - destruct t as [i ch]. cbn. unfold descendants. cbn.
    intros [Hn _]%NoDup_cons Hin. apply Hn.
    apply list_elem_of_In, List.filter_In in Hin as [Hin _].
    now apply list_elem_of_In.
Qed.

Lemma sample_layout_represents : represents sample_layout sample_tree.
Proof.
  unfold sample_tree.
  repeat (eapply represents_node;
          [reflexivity | reflexivity | repeat constructor]).
Qed.

Lemma getItemsByFilter_preorder_witness :
  getItemsByFilter 4 (label_of sample_tree) (fun _ i => Pos.leb 3 i)
                   sample_layout =
    (Normal (List.filter (fun i => Pos.leb 3 i) (descendants sample_tree)),
     sample_layout) /\
  (NoDup (preorder sample_tree) ->
   label_of sample_tree
     ∉ List.filter (fun i => Pos.leb 3 i) (descendants sample_tree)).
Proof.
  apply (getItemsByFilter_preorder sample_layout sample_tree 4
           (fun _ i => Pos.leb 3 i));
    [exact sample_layout_represents | cbn; lia].
Defined.

Lemma resolveDefaults_id_omitted (u : UserItemConfig.t) (r : UserItemConfig.resolved) :
  UserItemConfig.id u = None ->
  UserItemConfig.resolveDefaults u = inr r ->
  UserItemConfig.r_id r = IdStr "".
Proof.
  destruct u as [ty content w h i cl ti re ac cn]. cbn [UserItemConfig.id].
  intros ->. cbn [UserItemConfig.resolveDefaults].
  destruct ty, cn; try discriminate;
    match goal with
    | |- match ?x with _ => _ end = _ -> _ => destruct x; try discriminate
    end;
    now intros [= <-].
Qed.

(** C10. A node whose [config.id] is the empty string, which is what the
    defaults give a node whose id the user left out, answers false to
    [hasId] for every string, the empty one included; [getItemsById] with
    the empty string, called on a node above it, returns it all the same. *)
Theorem hasId_getItemsById_disagree (s : State) (t : tree) (fuel : nat)
    (n : iref) :
  represents s t -> height t <= fuel ->
  n ∈ descendants t -> id_of s n = Some (IdStr "") ->
  (forall x, hasId n x s = (Normal false, s)) /\
  (exists l, getItemsById fuel (label_of t) "" s = (Normal l, s) /\ n ∈ l) /\
  UserItemConfig.r_id UserItemConfig.defaults = IdStr "" /\
  (forall u r,
     UserItemConfig.id u = None ->
     UserItemConfig.resolveDefaults u = inr r ->
     UserItemConfig.r_id r = IdStr "").
Proof.
  intros Hr Hh Hn Hid. split; [|split; [|split]].
  - intros x. now rewrite (hasId_run _ _ _ x Hid).
  - eexists. split.
    + unfold getItemsById.
      apply (getItemsByFilter_preorder_aux s t fuel (id_filter "") Hr Hh).
    + apply list_elem_of_In, List.filter_In. split.
      * now apply list_elem_of_In.
      * apply id_of_inv in Hid as (it & c & Hi & Hc & E).
        unfold id_filter. now rewrite Hi, Hc, E.
  - reflexivity.
  - exact resolveDefaults_id_omitted.
Qed.

Lemma hasId_getItemsById_disagree_witness :
  (forall x, hasId 4 x sample_layout = (Normal false, sample_layout)) /\
  (exists l,
     getItemsById 4 (label_of sample_tree) "" sample_layout
       = (Normal l, sample_layout) /\ 4%positive ∈ l) /\
  UserItemConfig.r_id UserItemConfig.defaults = IdStr "" /\
  (forall u r,
     UserItemConfig.id u = None ->
     UserItemConfig.resolveDefaults u = inr r ->
     UserItemConfig.r_id r = IdStr "").
Proof.
  apply (hasId_getItemsById_disagree sample_layout sample_tree 4 4);
    [exact sample_layout_represents | cbn; lia | | reflexivity].
  apply list_elem_of_In. cbn. tauto.
Defined.

(** ** Geometry *)

(** C8, as the code has it.  [_$getArea] has no path that returns null:
    whatever the two helpers do with the element they are handed, a call that
    returns gives an area record.  When the element in use ([element_arg], or
    the node's own when that is left out) has offset (ox, oy) and size W by H,
    the record has the corners (ox, oy) and (ox + W, oy + H), the surface
    W * H and the node itself, where [+] and [*] are the operations of
    JavaScript numbers: the sums and the product are rounded to the nearest
    double. *)
Theorem getArea_record
    (getJQueryOffset : option Element -> Exn + Offset.t)
    (getJQueryWidthAndHeight : option Element -> Exn + WidthAndHeight.t)
    (s : State) (this : iref) (it : Item) (element_arg : option Element) :
  items s !! this = Some it ->
  fst (_getArea getJQueryOffset getJQueryWidthAndHeight this element_arg s)
    <> Normal None /\
  forall e ox oy W H,
    (element_arg = Some e \/ (element_arg = None /\ element it = Some e)) ->
    getJQueryOffset (Some e) = inr (Offset.mk ox oy) ->
    getJQueryWidthAndHeight (Some e) = inr (WidthAndHeight.mk W H) ->
    _getArea getJQueryOffset getJQueryWidthAndHeight this element_arg s =
      (Normal (Some (Area.mk ox oy (Number.add ox W) (Number.add oy H)
                             (Number.mul W H) this)), s).
Proof.
  intros Hi. split.
  - unfold _getArea. rewrite (bind_run _ _ _ _ _ (get_item_run _ _ _ Hi)).
    unfold bind, lift, ret, throw.
    destruct (getJQueryOffset _); cbn; [discriminate|].
    destruct (getJQueryWidthAndHeight _); cbn; discriminate.
  - intros e ox oy W H He Ho Hw. unfold _getArea.
    rewrite (bind_run _ _ _ _ _ (get_item_run _ _ _ Hi)).
    assert (match element_arg with Some e' => Some e' | None => element it end
            = Some e) as ->.
    { destruct He as [->|[-> ->]]; reflexivity. }
    unfold bind, lift, ret. now rewrite Ho, Hw.
Qed.

Lemma getArea_record_witness :
  fst (_getArea sample_getJQueryOffset sample_getJQueryWidthAndHeight 4 None
         sample_layout) <> Normal None /\
  forall e ox oy W H,
    (@None positive = Some e \/
     (@None positive = None /\ element (sample_item 14 "component" [] (Some 3%positive)
                                false 24) = Some e)) ->
    sample_getJQueryOffset (Some e) = inr (Offset.mk ox oy) ->
    sample_getJQueryWidthAndHeight (Some e) = inr (WidthAndHeight.mk W H) ->
    _getArea sample_getJQueryOffset sample_getJQueryWidthAndHeight 4 None
      sample_layout =
      (Normal (Some (Area.mk ox oy (Number.add ox W) (Number.add oy H)
                             (Number.mul W H) 4)),
       sample_layout).
Proof.
  apply (getArea_record sample_getJQueryOffset sample_getJQueryWidthAndHeight
           sample_layout 4 _ None).
  reflexivity.
Defined.

(** The area of component 4 in the sample DOM. *)
Example getArea_of_the_sample :
  _getArea sample_getJQueryOffset sample_getJQueryWidthAndHeight 4 None
    sample_layout
  = (Normal (Some (Area.mk 10%float 20%float 310%float 220%float
                           60000%float 4)),
     sample_layout).
Proof. reflexivity. Qed.

(** A box whose sides are not whole numbers of pixels, as a zoomed page
    gives them. *)
Example getArea_of_a_fractional_box :
  _getArea (fun _ => inr (Offset.mk 0.5%float 0.25%float))
           (fun _ => inr (WidthAndHeight.mk 100.5%float 50.25%float)) 4 None
           sample_layout
  = (Normal (Some (Area.mk 0.5%float 0.25%float 101%float 50.5%float
                           5050.125%float 4)),
     sample_layout).
Proof. reflexivity. Qed.

(** The surface is the rounded product: for a square of side 94906267 it
    is 9007199515875288, one less than the product of the integers. *)
Example getArea_rounds_the_surface :
  _getArea (fun _ => inr (Offset.mk 0%float 0%float))
           (fun _ => inr (WidthAndHeight.mk 94906267%float 94906267%float))
           4 None sample_layout
  = (Normal (Some (Area.mk 0%float 0%float 94906267%float 94906267%float
                           9007199515875288%float 4)),
     sample_layout) /\
  (94906267 * 94906267 = 9007199515875289)%Z.
Proof. split; reflexivity. Qed.

(** C8 as stated fails: on a node with no element attached the call does
    not return null; with helpers that fail on an undefined element it
    throws. *)
Lemma getArea_without_element_not_null :
  (exists it, items sample_bare !! 1%positive = Some it /\ element it = None) /\
  _getArea sample_getJQueryOffset sample_getJQueryWidthAndHeight 1 None
    sample_bare = (Throw TypeError, sample_bare) /\
  fst (_getArea sample_getJQueryOffset sample_getJQueryWidthAndHeight 1 None
         sample_bare) <> Normal None.
Proof.
  split; [eexists; split; reflexivity|].
  split; [reflexivity | discriminate].
Qed.

(** ** Validation errors *)

(** C5. When [removeChild] or [replaceChild] is handed a node that is not
    among the receiver's [contentItems], or [removeId] an id the node does
    not have, the call throws and the store is the one it started from: items,
    configurations, parent links and ids are untouched.  ([replaceChild] reads
    the old child's element before it checks the index, so on an old child
    without element the exception is a TypeError.) *)
Theorem validation_errors_leave_store (s : State) (fuel : nat) (this : iref)
    (it : Item) :
  items s !! this = Some it ->
  (forall c keepChild,
     c ∉ contentItems it ->
     removeChild (S fuel) this c keepChild s =
       (Throw (Error "Can't remove child item. Unknown content item"), s)) /\
  (forall oldChild newChild destroyOldChild old,
     oldChild ∉ contentItems it -> items s !! oldChild = Some old ->
     replaceChild fuel this oldChild newChild destroyOldChild s =
       (Throw (match element old with
               | Some _ =>
                   Error "Can't replace child. oldChild is not child of this"
               | None => TypeError
               end), s)) /\
  (forall id,
     hasId this id s = (Normal false, s) ->
     removeId this id s = (Throw (Error "Id not found"), s)).
Proof.
  intros Hi. split; [|split].
  - intros c keep Hc%indexOf_absent.
    unfold removeChild. cbn [removeChild_rec].
    rewrite (bind_run _ _ _ _ _ (get_item_run _ _ _ Hi)).
    now rewrite Hc.
  - intros old new destroy oit Hc%indexOf_absent Ho.
    unfold replaceChild, _normalizeContentItem.
    rewrite (bind_run _ _ s new s) by reflexivity.
    rewrite (bind_run _ _ _ _ _ (get_item_run _ _ _ Hi)).
    rewrite (bind_run _ _ _ _ _ (get_item_run _ _ _ Ho)).
    rewrite Hc. now destruct (element oit).
  - intros id Hh. unfold removeId.
    now rewrite (bind_run _ _ _ _ _ Hh).
Qed.

Lemma validation_errors_leave_store_witness :
  (forall c keepChild,
     c ∉ contentItems (sample_item 12 "row" [3%positive] (Some 1%positive)
                         false 22) ->
     removeChild 1 2 c keepChild sample_layout =
       (Throw (Error "Can't remove child item. Unknown content item"),
        sample_layout)) /\
  (forall oldChild newChild destroyOldChild old,
     oldChild ∉ contentItems (sample_item 12 "row" [3%positive]
                                (Some 1%positive) false 22) ->
     items sample_layout !! oldChild = Some old ->
     replaceChild 0 2 oldChild newChild destroyOldChild sample_layout =
       (Throw (match element old with
               | Some _ =>
                   Error "Can't replace child. oldChild is not child of this"
               | None => TypeError
               end), sample_layout)) /\
  (forall id,
     hasId 2 id sample_layout = (Normal false, sample_layout) ->
     removeId 2 id sample_layout = (Throw (Error "Id not found"),
                                    sample_layout)).
Proof.
  apply (validation_errors_leave_store sample_layout 0 2). reflexivity.
Defined.

(** ** Event bubbling and batching *)

Lemma not_throttled (name : string) :
  name <> "stateChanged" -> (indexOf name _throttledEvents =? -1)%Z = true.
Proof.
  intros H. unfold _throttledEvents. cbn.
  destruct (decide ("stateChanged" = name)); [congruence | reflexivity].
Qed.

(** An event that is not stopped travels from [i] to [top_of i], where it is
    scheduled. *)
Lemma propagateEvent_top (n : nat) :
  forall s i r name e,
    top_of n s i = Some r -> isPropagationStopped e = false ->
    propagateEvent n i name (Some e) s =
      scheduleEventPropagationToLayoutManager r name e s.
Proof.
  induction n as [|n IH]; intros s i r name e Ht He; [discriminate|].
  cbn in Ht |- *. unfold bind at 1, get_item at 1.
  destruct (items s !! i) as [it|]; [|discriminate].
  rewrite He. cbn [negb andb].
  destruct (isInitialised it); [|discriminate].
  destruct (if isRoot it then None else parent it) as [p|].
  - now apply IH.
  - now injection Ht as ->.
Qed.

Lemma top_of_ext (n : nat) :
  forall s s' i,
    (forall j, (fun it => (isInitialised it, isRoot it, parent it))
                 <$> items s' !! j
               = (fun it => (isInitialised it, isRoot it, parent it))
                   <$> items s !! j) ->
    top_of n s' i = top_of n s i.
Proof.
  induction n as [|n IH]; intros s s' i H; [reflexivity|].
  cbn. specialize (H i) as Hi.
  destruct (items s' !! i) as [it'|], (items s !! i) as [it|];
    try discriminate; [|reflexivity].
  injection Hi as -> -> ->. destruct (isInitialised it); [|reflexivity].
  destruct (if isRoot it then None else parent it); [|reflexivity].
  now apply IH.
Qed.

Lemma top_of_with_trace n s t i : top_of n (with_trace t s) i = top_of n s i.
Proof. now apply top_of_ext. Qed.

Lemma top_of_pending n s r itr m fr i :
  items s !! r = Some itr ->
  top_of n (with_frames fr
              (with_items (<[r := with_pending m itr]> (items s)) s)) i
  = top_of n s i.
Proof.
  intros Hr. apply top_of_ext. intros j. cbn.
  destruct (decide (r = j)) as [<-|Hne].
  - now rewrite lookup_insert_eq, Hr.
  - now rewrite lookup_insert_ne.
Qed.

Lemma emit_immediate s fuel i r name :
  top_of fuel s i = Some r -> name <> "stateChanged" ->
  emitBubblingEvent fuel i name s =
    (Normal tt, with_trace (trace s ++ [LmEmit name (POrigin i)]) s).
Proof.
  intros Ht Hn. unfold emitBubblingEvent, emit.
  rewrite (propagateEvent_top _ _ _ _ _ _ Ht) by reflexivity.
  unfold scheduleEventPropagationToLayoutManager.
  now rewrite (not_throttled _ Hn).
Qed.

Lemma emit_batched_first s fuel i r itr :
  top_of fuel s i = Some r -> items s !! r = Some itr ->
  _pendingEventPropagations itr !! "stateChanged" <> Some true ->
  emitBubblingEvent fuel i "stateChanged" s =
    (Normal tt,
     with_frames
       (frames s ++ [mkFrame r "stateChanged"
                             (mkEvent "stateChanged" i false)])
       (with_items
          (<[r := with_pending
                    (<["stateChanged" := true]>
                       (_pendingEventPropagations itr)) itr]> (items s)) s)).
Proof.
  intros Ht Hr Hp. unfold emitBubblingEvent, emit.
  rewrite (propagateEvent_top _ _ _ _ _ _ Ht) by reflexivity.
  unfold scheduleEventPropagationToLayoutManager.
  change (indexOf "stateChanged" _throttledEvents =? -1)%Z with false.
  cbv iota.
  rewrite (bind_run _ _ _ _ _ (get_item_run _ _ _ Hr)).
  now rewrite bool_decide_false.
Qed.

Lemma emit_batched_again s fuel i r itr :
  top_of fuel s i = Some r -> items s !! r = Some itr ->
  _pendingEventPropagations itr !! "stateChanged" = Some true ->
  emitBubblingEvent fuel i "stateChanged" s = (Normal tt, s).
Proof.
  intros Ht Hr Hp. unfold emitBubblingEvent, emit.
  rewrite (propagateEvent_top _ _ _ _ _ _ Ht) by reflexivity.
  unfold scheduleEventPropagationToLayoutManager.
  change (indexOf "stateChanged" _throttledEvents =? -1)%Z with false.
  cbv iota.
  rewrite (bind_run _ _ _ _ _ (get_item_run _ _ _ Hr)).
  now rewrite bool_decide_true.
Qed.


Lemma emit_all_batched_again fuel i r itr (n : nat) s :
  top_of fuel s i = Some r -> items s !! r = Some itr ->
  _pendingEventPropagations itr !! "stateChanged" = Some true ->
  emit_all fuel i (replicate n "stateChanged") s = (Normal tt, s).
Proof.
  intros Ht Hr Hp. unfold emit_all.
  induction n as [|n IH]; [reflexivity|]. cbn [replicate for_each].
  now rewrite (bind_run _ _ _ _ _ (emit_batched_again _ _ _ _ _ Ht Hr Hp)).
Qed.

Lemma deliveries_app l1 l2 :
  deliveries (l1 ++ l2) = deliveries l1 ++ deliveries l2.
Proof. unfold deliveries. apply omap_app. Qed.






(** ** The tree walker *)

Lemma trace_only_refl s : trace_only s s.
Proof. now repeat split. Qed.

Lemma trace_only_tell s0 s e :
  trace_only s0 s -> trace_only s0 (with_trace (trace s ++ [e]) s).
Proof. intros (? & ? & ?). now repeat split. Qed.

Lemma quiet_ret s0 : quiet s0 (ret tt).
Proof. intros s Hs. now exists s. Qed.

Lemma quiet_bind s0 (m k : M unit) :
  quiet s0 m -> quiet s0 k -> quiet s0 (m ;;; k).
Proof.
  intros Hm Hk s Hs. destruct (Hm s Hs) as (s1 & E1 & Hs1).
  rewrite (bind_run _ _ _ _ _ E1). now apply Hk.
Qed.

Lemma quiet_for_each {A} s0 (f : A -> M unit) (l : list A) :
  Forall (fun x => quiet s0 (f x)) l -> quiet s0 (for_each f l).
Proof.
  induction 1 as [|x l Hx _ IH]; cbn [for_each].
  - apply quiet_ret.
  - now apply quiet_bind.
Qed.

Lemma for_each_app {A} (f : A -> M unit) (l1 l2 : list A) s :
  for_each f (l1 ++ l2) s = (for_each f l1 ;;; for_each f l2) s.
Proof.
  revert s. induction l1 as [|x l1 IH]; intros s; [reflexivity|].
  cbn [app for_each]. unfold bind.
  destruct (f x s) as [[[]| |] s1]; [|reflexivity..].
  rewrite IH. reflexivity.
Qed.

(** The loop over [contentItems], when no round changes the items. *)
Lemma for_children_for_each s0 this it body :
  items s0 !! this = Some it ->
  forall rest pre n s,
    contentItems it = pre ++ rest -> length rest <= n -> trace_only s0 s ->
    Forall (fun c => quiet s0 (body c)) rest ->
    for_children n this (length pre) body s = for_each body rest s.
Proof.
  intros Hi. induction rest as [|c rest IH]; intros pre n s Hc Hn Hs Hq.
  - assert (for_children n this (length pre) body s
            = (it <- get_item this ;;
               match contentItems it !! length pre with
               | None => ret tt
               | Some c =>
                   match n with
                   | 0 => stuck
                   | S n' => body c ;;; for_children n' this (S (length pre)) body
                   end
               end) s) as -> by now destruct n.
    rewrite (bind_run _ _ _ _ _ (get_item_run s this it
                                   ltac:(destruct Hs as [-> _]; exact Hi))).
    rewrite Hc, app_nil_r, lookup_ge_None_2 by lia. reflexivity.
  - destruct n as [|n]; [cbn in Hn; lia|]. cbn [for_children for_each].
    rewrite (bind_run _ _ _ _ _ (get_item_run s this it
                                   ltac:(destruct Hs as [-> _]; exact Hi))).
    rewrite Hc, list_lookup_middle by reflexivity.
    apply Forall_cons in Hq as [Hqc Hq].
    destruct (Hqc s Hs) as (s1 & E1 & Hs1).
    rewrite !(bind_run _ _ _ _ _ E1).
    specialize (IH (pre ++ [c]) n s1).
    rewrite length_app, Nat.add_1_r in IH. apply IH; try assumption.
    + now rewrite <- app_assoc.
    + cbn in Hn. lia.
Qed.

Lemma elem_of_concat_map {A B} (f : A -> list B) (l : list A) (y : B) :
  y ∈ concat (map f l) <-> exists x, x ∈ l /\ y ∈ f x.
Proof.
  induction l as [|a l IH]; cbn.
  - split; [intros H; inversion H | intros (x & H & _); inversion H].
  - rewrite elem_of_app, IH. split.
    + intros [H|(x & Hx & H)]; [exists a | exists x];
        (split; [|exact H]); [left | now right].
    + intros (x & [->|Hx]%elem_of_cons & H); [now left | right; eauto].
Qed.

Lemma postorder_preorder t : forall j, j ∈ postorder t -> j ∈ preorder t.
Proof.
  induction t as [i ch IH] using tree_ind'. intros j. cbn.
  rewrite elem_of_app, list_elem_of_singleton, elem_of_cons.
  intros [H|H]; [right|now left].
  apply elem_of_concat_map in H as (c & Hc & Hj).
  apply elem_of_concat_map. exists c. split; [exact Hc|].
  rewrite Forall_forall in IH. now apply IH.
Qed.

Lemma preorder_twice_preorder t :
  forall j, j ∈ preorder_twice t -> j ∈ preorder t.
Proof.
  induction t as [i ch IH] using tree_ind'. intros j. cbn.
  rewrite !elem_of_cons. intros [H|[H|H]]; [now left..|right].
  apply elem_of_concat_map in H as (c & Hc & Hj).
  apply elem_of_concat_map. exists c. split; [exact Hc|].
  rewrite Forall_forall in IH. now apply IH.
Qed.

Lemma visit_order_preorder b skip t j :
  j ∈ visit_order b skip t -> j ∈ preorder t.
Proof.
  destruct t as [i ch], b, skip; cbn.
  - rewrite app_nil_r. intros H. apply (postorder_preorder (Node i ch)). cbn.
    apply elem_of_app. now left.
  - apply (postorder_preorder (Node i ch)).
  - intros H. apply (preorder_twice_preorder (Node i ch)). cbn.
    now do 2 right.
  - apply (preorder_twice_preorder (Node i ch)).
Qed.

Lemma visit_order_children b (ch : list tree) :
  map (visit_order b false) ch
  = map (if b then postorder else preorder_twice) ch.
Proof.
  apply List.map_ext. intros [j chj]. destruct b; cbn; reflexivity.
Qed.

Lemma for_each_concat {A} s0 (body inv : iref -> M unit)
    (order : A -> list iref) (lab : A -> iref) (ch : list A) :
  Forall (fun c =>
            (forall s, trace_only s0 s ->
                       body (lab c) s = for_each inv (order c) s) /\
            quiet s0 (for_each inv (order c))) ch ->
  forall s, trace_only s0 s ->
    for_each body (map lab ch) s = for_each inv (concat (map order ch)) s.
Proof.
  induction 1 as [|c ch [Hc Hq] _ IH]; intros s Hs; [reflexivity|].
  cbn [map concat for_each]. rewrite for_each_app. unfold bind.
  rewrite (Hc s Hs). destruct (Hq s Hs) as (s1 & -> & Hs1). now apply IH.
Qed.

(** On a store that holds the tree [t], and with a method that does nothing
    but record effects, [callDownwards] is the plain loop over
    [visit_order]. *)
Lemma callDownwards_rec_order fuel name fargs s0 (t : tree) :
  forall k b skip s,
    trace_only s0 s -> represents s0 t -> height t <= k ->
    (forall j, j ∈ preorder t ->
               quiet s0 (invoke fuel j name (default [] fargs))) ->
    callDownwards_rec fuel k (label_of t) name fargs b skip s =
      for_each (fun j => invoke fuel j name (default [] fargs))
               (visit_order b skip t) s.
Proof.
  induction t as [i ch IH] using tree_ind'.
  intros k b skip s Hs (it & Hi & Hc & Hch)%represents_inv Hh Hq.
  destruct k as [|k]; [cbn in Hh; lia|].
  set (inv := fun j => invoke fuel j name (default [] fargs)) in *.
  set (body := fun c => callDownwards_rec fuel k c name fargs b false).
  assert (Hhs : Forall (fun c => height c <= k) ch).
  { eapply Forall_impl; [apply height_subtrees|]. cbn in *. intros; lia. }
  assert (Hsub : Forall (fun c =>
            (forall s, trace_only s0 s ->
                       body (label_of c) s
                       = for_each inv (visit_order b false c) s) /\
            quiet s0 (for_each inv (visit_order b false c))) ch).
  { rewrite Forall_forall in IH, Hch, Hhs. apply Forall_forall.
    intros c Hin.
    assert (Hqc : forall j, j ∈ preorder c -> quiet s0 (inv j)).
    { intros j Hj. apply Hq. cbn. right. apply elem_of_concat_map. eauto. }
    split.
    - intros s' Hs'. apply IH; auto.
    - apply quiet_for_each, Forall_forall. intros j Hj.
      eapply Hqc, visit_order_preorder, Hj. }
  assert (Hmid : forall s, trace_only s0 s ->
            for_children (length (contentItems it)) i 0 body s
            = for_each inv (concat (map (visit_order b false) ch)) s).
  { intros s' Hs'.
    rewrite (for_children_for_each s0 i it body Hi (map label_of ch) [] _ s')
      by (try assumption; try (rewrite Hc; reflexivity);
          apply Forall_forall; intros c (tc & -> & Hin)%list_elem_of_fmap;
          rewrite Forall_forall in Hsub; destruct (Hsub tc Hin) as [E Q];
          intros s'' Hs''; rewrite (E s'' Hs''); now apply Q).
    now apply (for_each_concat s0 body inv). }
  assert (Hmidq : quiet s0
            (for_each inv (concat (map (visit_order b false) ch)))).
  { apply quiet_for_each, Forall_forall.
    intros j (c & Hin & Hj)%elem_of_concat_map.
    apply Hq. cbn. right. apply elem_of_concat_map. exists c.
    split; [exact Hin | eapply visit_order_preorder, Hj]. }
  assert (Hqi : quiet s0 (inv i)) by (apply Hq; cbn; now left).
  assert (Hi' : forall s, trace_only s0 s -> get_item i s = (Normal it, s)).
  { intros s' [E _]. apply get_item_run. now rewrite E. }
  rewrite visit_order_children in Hmid, Hmidq.
  cbn [callDownwards_rec label_of visit_order].
  clear Hsub IH. subst inv body. cbv beta in *.
  destruct b, skip; cbn [negb andb].
  - rewrite app_nil_r. unfold bind, ret at 1. rewrite (Hi' s Hs).
    cbv beta iota. rewrite (Hmid s Hs).
    destruct (Hmidq s Hs) as (s1 & -> & Hs1). reflexivity.
  - rewrite for_each_app. cbn [for_each]. unfold bind, ret at 1.
    rewrite (Hi' s Hs). cbv beta iota. rewrite (Hmid s Hs).
    destruct (Hmidq s Hs) as (s1 & -> & Hs1). cbv beta iota.
    destruct (Hqi s1 Hs1) as (s2 & -> & Hs2). reflexivity.
  - cbn [app]. unfold bind, ret at 1. rewrite (Hi' s Hs).
    cbv beta iota. rewrite (Hmid s Hs).
    destruct (Hmidq s Hs) as (s1 & -> & Hs1). reflexivity.
  - cbn [app for_each]. unfold bind.
    destruct (Hqi s Hs) as (s1 & -> & Hs1). cbv beta iota.
    destruct (Hqi s1 Hs1) as (s2 & -> & Hs2). cbv beta iota.
    rewrite (Hi' s2 Hs2). cbv beta iota. rewrite (Hmid s2 Hs2).
    destruct (Hmidq s2 Hs2) as (s3 & -> & Hs3). reflexivity.
Qed.

Lemma invoke_abstract fuel j args s :
  invoke fuel j "setSize" args s =
    (Normal tt, with_trace (trace s ++ [Call j "setSize" args]) s).
Proof. reflexivity. Qed.

Lemma for_each_abstract fuel args (l : list iref) :
  forall s,
    for_each (fun j => invoke fuel j "setSize" args) l s =
      (Normal tt,
       with_trace (trace s ++ map (fun j => Call j "setSize" args) l) s).
Proof.
  induction l as [|j l IH]; intros s.
  - cbn. unfold ret. destruct s; cbn. now rewrite app_nil_r.
  - cbn [for_each map].
    rewrite (bind_run _ _ _ _ _ (invoke_abstract fuel j args s)).
    rewrite IH. destruct s; cbn. now rewrite <- app_assoc.
Qed.

(** What [callDownwards] does with [setSize], on a store that holds the
    tree [t]: bottom-up it calls the method once on every node, children
    first; top-down it calls it twice in a row on every node, parents first.
    [skipSelf] leaves out the calls on the receiver. *)
Lemma callDownwards_abstract fuel fargs (s : State) (t : tree) b skip :
  represents s t -> height t <= fuel ->
  callDownwards fuel (label_of t) "setSize" fargs b skip s =
    (Normal tt,
     with_trace
       (trace s ++ map (fun j => Call j "setSize" (default [] fargs))
                       (visit_order b skip t)) s).
Proof.
  intros Hr Hh. unfold callDownwards.
  rewrite (callDownwards_rec_order fuel "setSize" fargs s t fuel b skip s
             (trace_only_refl s) Hr Hh).
  - now apply for_each_abstract.
  - intros j _ s' Hs'. rewrite invoke_abstract.
    eexists. split; [reflexivity|]. now apply trace_only_tell.
Qed.

Lemma calls_Call name args (l : list iref) :
  calls name (map (fun j => Call j name args) l) = l.
Proof.
  induction l as [|j l IH]; [reflexivity|]. cbn.
  destruct (decide (name = name)); [|contradiction]. cbn. now f_equal.
Qed.

(** C2 fails top-down.  On the sample layout, whose nodes in pre-order are
    1, 2, 3, 4, a top-down [callDownwards] of setSize from the root calls
    setSize twice on every node; the bottom-up walk calls it once on each. *)
Lemma callDownwards_top_down_calls_twice :
  preorder sample_tree = [1; 2; 3; 4]%positive /\
  (exists s',
     callDownwards 4 1 "setSize" None false false sample_layout
       = (Normal tt, s') /\
     calls "setSize" (trace s') = [1; 1; 2; 2; 3; 3; 4; 4]%positive) /\
  (exists s',
     callDownwards 4 1 "setSize" None true false sample_layout
       = (Normal tt, s') /\
     calls "setSize" (trace s') = [4; 3; 2; 1]%positive).
Proof.
  split; [reflexivity|].
  split; (eexists; split; [vm_compute; reflexivity | reflexivity]).
Qed.

(** ** The mutation engine *)

Lemma sample_layout_well_formed : well_formed sample_layout 1.
Proof.
  exists sample_tree. split; [reflexivity|]. split; [|split].
  - split; [exact sample_layout_represents|].
    apply (bool_decide_unpack _). vm_compute. exact I.
  - unfold I2, sample_tree.
    repeat (eapply hangs_node;
            [reflexivity | reflexivity | reflexivity | repeat constructor]).
  - intros i Hi. cbn in Hi.
    repeat (apply elem_of_cons in Hi as [->|Hi]);
      [| | | | inversion Hi];
      (eexists _, _, _; split; [reflexivity|]; split; [reflexivity|];
       split; reflexivity).
Qed.

(** C1 fails at [replaceChild].  On the sample layout, which satisfies I1 to
    I3, replacing the row 2 under the root by the component 5 puts 5 into
    [contentItems] and leaves [config.content] holding the configuration of
    the row: the two arrays no longer correspond (I3), for any shape of the
    tree. *)
Lemma replaceChild_leaves_config_content :
  well_formed sample_layout 1 /\
  exists s',
    replaceChild 4 1 2 5 false sample_layout = (Normal tt, s') /\
    contentItems <$> items s' !! 1%positive = Some [5%positive] /\
    config <$> items s' !! 5%positive = Some 15%positive /\
    ItemConfig.content <$> configs s' !! 11%positive
      = Some (Some [12%positive]) /\
    ~ parallel s' 1 /\
    ~ well_formed s' 1.
Proof.
  split; [exact sample_layout_well_formed|].
  eexists. split; [vm_compute; reflexivity|].
  split; [reflexivity|]. split; [reflexivity|]. split; [reflexivity|].
  match goal with |- ~ ?P /\ _ => assert (Hnp : ~ P) end.
  { intros (it & c & l & Hi & Hc & Hl & E).
    vm_compute in Hi. injection Hi as <-.
    vm_compute in Hc. injection Hc as <-.
    vm_compute in Hl. injection Hl as <-.
    vm_compute in E. discriminate. }
  split; [exact Hnp|].
  intros ([i ch] & Hl & _ & _ & H3). cbn in Hl. subst i.
  apply Hnp, H3. cbn. apply elem_of_cons. now left.
Qed.

Lemma with_contentItems_same it : with_contentItems (contentItems it) it = it.
Proof. now destruct it. Qed.

Lemma depthb_ext n :
  forall s s' j,
    (forall i, parent <$> items s' !! i = parent <$> items s !! i) ->
    depthb n s' j = depthb n s j.
Proof.
  induction n as [|n IH]; intros s s' j H; [reflexivity|]. cbn.
  specialize (H j) as Hj.
  destruct (items s' !! j) as [it'|], (items s !! j) as [it|];
    try discriminate; [|reflexivity].
  injection Hj as ->. destruct (parent it); [now apply IH | reflexivity].
Qed.

Lemma depthb_pruned n s s' j : pruned s s' -> depthb n s' j = depthb n s j.
Proof.
  intros Hp. apply depthb_ext. intros i. specialize (Hp i).
  destruct (items s !! i) as [it|].
  - destruct Hp as (l & -> & _). reflexivity.
  - now rewrite Hp.
Qed.

Lemma destroyable_pruned n s s' j :
  pruned s s' -> destroyable n s' j = destroyable n s j.
Proof.
  intros Hp. unfold destroyable. rewrite (depthb_pruned n s s' j Hp).
  specialize (Hp j). destruct (items s !! j) as [it|].
  - destruct Hp as (l & -> & _). reflexivity.
  - now rewrite Hp.
Qed.

Lemma allb_below_pruned (P Q : iref -> bool) n :
  forall s s' j,
    pruned s s' -> (forall i, P i = true -> Q i = true) ->
    allb_below P n s j = true -> allb_below Q n s' j = true.
Proof.
  induction n as [|n IH]; intros s s' j Hp HPQ; [discriminate|]. cbn.
  specialize (Hp j) as Hj. destruct (items s !! j) as [it|]; [|discriminate].
  destruct Hj as (l & -> & Hl). cbn.
  intros [HP Hall]%andb_true_iff. apply andb_true_iff. split; [now apply HPQ|].
  apply forallb_forall. intros x Hx%list_elem_of_In.
  rewrite forallb_forall in Hall. eapply IH; [exact Hp | exact HPQ|].
  apply Hall, list_elem_of_In, Hl, Hx.
Qed.

(** A bounded check that succeeds describes a tree. *)
Lemma allb_below_tree (P : iref -> bool) n :
  forall s i,
    allb_below P n s i = true ->
    exists t, label_of t = i /\ represents s t /\ height t <= n /\
              forall j, j ∈ preorder t -> P j = true.
Proof.
  induction n as [|n IH]; intros s i; [discriminate|]. cbn.
  destruct (items s !! i) as [it|] eqn:Hi; [|discriminate].
  intros [HP Hall]%andb_true_iff.
  assert (exists ch, map label_of ch = contentItems it /\
                     Forall (represents s) ch /\
                     Forall (fun c => height c <= n) ch /\
                     forall j, j ∈ concat (map preorder ch) -> P j = true)
    as (ch & Hm & Hr & Hh & Hq).
  { clear Hi. induction (contentItems it) as [|x l IHl].
    - exists []. repeat split; try constructor.
      intros j Hj. inversion Hj.
    - cbn in Hall. apply andb_true_iff in Hall as [Hx Hl].
      destruct (IHl Hl) as (ch & Hm & Hr & Hh & Hq).
      destruct (IH s x Hx) as (t & Ht & Hrt & Hht & Hqt).
      exists (t :: ch). cbn. rewrite Ht, Hm.
      repeat split; try (constructor; assumption).
      intros j [Hj|Hj]%elem_of_app; [now apply Hqt | now apply Hq]. }
  exists (Node i ch). split; [reflexivity|]. split; [|split].
  - now apply (represents_node s i it ch).
  - cbn. apply le_n_S. clear -Hh.
    induction Hh as [|c ch Hc _ IHh]; cbn; lia.
  - intros j [->|Hj]%elem_of_cons; [exact HP | now apply Hq].
Qed.

(** An event with a name that is not batched only leaves a record. *)
Lemma propagateEvent_quiet n name e :
  name <> "stateChanged" ->
  forall s0 j, depthb n s0 j = true -> quiet s0 (propagateEvent n j name e).
Proof.
  intros Hn. induction n as [|n IH]; intros s0 j Hd s Hs; [discriminate|].
  cbn in Hd |- *. pose proof Hs as (Ei & _).
  unfold bind at 1, get_item at 1. rewrite Ei.
  destruct (items s0 !! j) as [it|]; [|discriminate].
  destruct e as [e|]; [|now exists s].
  destruct (negb (isPropagationStopped e) && isInitialised it);
    [|now exists s].
  destruct (isRoot it).
  - unfold scheduleEventPropagationToLayoutManager.
    rewrite (not_throttled _ Hn). eexists. split; [reflexivity|].
    now apply trace_only_tell.
  - destruct (parent it) as [p|].
    + now apply IH.
    + unfold scheduleEventPropagationToLayoutManager.
      rewrite (not_throttled _ Hn). eexists. split; [reflexivity|].
      now apply trace_only_tell.
Qed.

Lemma destroy_quiet fuel s0 j :
  destroyable fuel s0 j = true -> quiet s0 (_destroy fuel j).
Proof.
  unfold destroyable. destruct (items s0 !! j) as [it|] eqn:Hi; [|discriminate].
  destruct (element it) as [e|] eqn:He; [|discriminate]. intros Hd s Hs.
  unfold _destroy, emitBubblingEvent, emit.
  destruct (propagateEvent_quiet fuel "beforeItemDestroyed"
              (Some (mkEvent "beforeItemDestroyed" j false))
              ltac:(discriminate) s0 j Hd s Hs) as (s1 & E1 & Hs1).
  rewrite (bind_run _ _ _ _ _ E1).
  rewrite (bind_run _ _ _ _ _ (get_item_run s1 j it
                                 ltac:(destruct Hs1 as [-> _]; exact Hi))).
  rewrite He.
  rewrite (bind_run _ _ s1 tt (with_trace (trace s1 ++ [DomRemove e]) s1))
    by reflexivity.
  apply (propagateEvent_quiet fuel "itemDestroyed" _ ltac:(discriminate)
           s0 j Hd).
  now apply trace_only_tell.
Qed.

Lemma callDownwards_destroy_quiet fuel s0 c skip :
  allb_below (destroyable fuel s0) fuel s0 c = true ->
  quiet s0 (callDownwards fuel c "_$destroy" (Some []) true skip).
Proof.
  intros (t & <- & Hr & Hh & Hq)%allb_below_tree s Hs.
  assert (Hinv : forall j, j ∈ preorder t ->
            quiet s0 (invoke fuel j "_$destroy" (default [] (Some [])))).
  { intros j Hj. apply (destroy_quiet fuel s0 j). now apply Hq. }
  unfold callDownwards.
  rewrite (callDownwards_rec_order fuel "_$destroy" (Some []) s0 t fuel true
             skip s Hs Hr Hh Hinv).
  apply quiet_for_each; [|exact Hs]. apply Forall_forall.
  intros j Hj. eapply Hinv, visit_order_preorder, Hj.
Qed.

Lemma allb_below_head P n s i :
  allb_below P n s i = true -> P i = true.
Proof.
  destruct n; [discriminate|]. cbn. destruct (items s !! i); [|discriminate].
  now intros [H _]%andb_true_iff.
Qed.

(** The first half of [removeChild], up to the test on what is left: the
    child is destroyed unless it is kept, which only leaves records, and the
    entry of the child goes from [contentItems] and from [config.content]. *)
Lemma removeChild_rec_unfold fuel k this c keepChild s it cf l :
  items s !! this = Some it -> c ∈ contentItems it ->
  configs s !! config it = Some cf -> ItemConfig.content cf = Some l ->
  allb_below (destroyable fuel s) fuel s c = true ->
  exists s1,
    trace_only s s1 /\
    let index := indexOf c (contentItems it) in
    let it' := with_contentItems (splice_remove index (contentItems it)) it in
    let cf' := ItemConfig.with_content (Some (splice_remove index l)) cf in
    let s2 := with_configs (<[config it := cf']> (configs s1))
                (with_items (<[this := it']> (items s1)) s1) in
    removeChild_rec fuel (S k) this c keepChild s =
      (if (0 <? length (contentItems it'))%nat then
         callDownwards fuel this "setSize" None false false
       else if negb (instanceofRoot it') && ItemConfig.isClosable cf' then
         match parent it' with
         | None => throw TypeError
         | Some p => removeChild_rec fuel k p this false
         end
       else ret tt) s2.
Proof.
  intros Hi Hc Hcf Hl Hd.
  assert (Hidx : indexOf c (contentItems it) <> (-1)%Z).
  { intros E%indexOf_absent. contradiction. }
  pose proof (indexOf_lookup c (contentItems it) Hidx) as Hlk.
  assert (Hphase : exists s1, trace_only s s1 /\
     (if negb keepChild then
        match contentItems it !! Z.to_nat (indexOf c (contentItems it)) with
        | None => throw TypeError
        | Some c0 =>
            _destroy fuel c0 ;;;
            it1 <- get_item this ;;
            match contentItems it1
                  !! Z.to_nat (indexOf c (contentItems it)) with
            | None => throw TypeError
            | Some c1 => callDownwards fuel c1 "_$destroy" (Some []) true true
            end
        end
      else ret tt) s = (Normal tt, s1)).
  { destruct keepChild; cbn [negb].
    - exists s. split; [apply trace_only_refl | reflexivity].
    - rewrite Hlk.
      destruct (destroy_quiet fuel s c (allb_below_head _ _ _ _ Hd) s
                  (trace_only_refl s)) as (sa & Ea & Hsa).
      rewrite (bind_run _ _ _ _ _ Ea).
      rewrite (bind_run _ _ _ _ _ (get_item_run sa this it
                 ltac:(destruct Hsa as [-> _]; exact Hi))).
      rewrite Hlk.
      destruct (callDownwards_destroy_quiet fuel s c true Hd sa Hsa)
        as (sb & Eb & Hsb).
      exists sb. split; [exact Hsb | exact Eb]. }
  destruct Hphase as (s1 & Hs1 & E1). exists s1. split; [exact Hs1|].
  cbv zeta. cbn [removeChild_rec].
  rewrite (bind_run _ _ _ _ _ (get_item_run _ _ _ Hi)).
  apply Z.eqb_neq in Hidx. rewrite Hidx.
  rewrite (bind_run _ _ _ _ _ E1).
  pose proof Hs1 as (Ei & Ec & _).
  rewrite (bind_run _ _ _ _ _ (get_item_run s1 this it
             ltac:(rewrite Ei; exact Hi))).
  set (it' := with_contentItems _ it).
  unfold put_item at 1, modify at 1. unfold bind at 1. cbv beta iota.
  set (sA := with_items (<[this := it']> (items s1)) s1).
  assert (HA : items sA !! this = Some it') by apply lookup_insert_eq.
  rewrite (bind_run _ _ _ _ _ (this_config_run sA this it' cf HA
             ltac:(cbn; rewrite Ec; exact Hcf))).
  rewrite Hl.
  rewrite (bind_run _ _ _ _ _ (get_item_run _ _ _ HA)).
  unfold put_config at 1, modify at 1. unfold bind at 1. cbv beta iota.
  set (cf' := ItemConfig.with_content _ cf).
  set (s2 := with_configs _ sA).
  assert (H2 : items s2 !! this = Some it') by exact HA.
  rewrite (bind_run _ _ _ _ _ (get_item_run _ _ _ H2)).
  destruct (0 <? length (contentItems it'))%nat; [reflexivity|].
  rewrite (bind_run _ _ _ _ _ (this_config_run s2 this it' cf' H2
             ltac:(cbn; apply lookup_insert_eq))).
  reflexivity.
Qed.

Lemma pruned_step s s1 this it l' cm :
  trace_only s s1 -> items s !! this = Some it -> l' ⊆ contentItems it ->
  pruned s (with_configs cm
              (with_items (<[this := with_contentItems l' it]> (items s1))
                          s1)).
Proof.
  intros (Ei & _) Hi Hl j. cbn. rewrite Ei.
  destruct (decide (this = j)) as [<-|Hne].
  - rewrite Hi, lookup_insert_eq. eauto.
  - rewrite lookup_insert_ne by exact Hne.
    destruct (items s !! j) as [itj|]; [|reflexivity].
    exists (contentItems itj). now rewrite with_contentItems_same.
Qed.

Lemma splice_remove_length {A} `{EqDecision A} (c : A) (l : list A) :
  c ∈ l -> S (length (splice_remove (indexOf c l) l)) = length l.
Proof.
  intros Hc. assert (Hidx : indexOf c l <> (-1)%Z).
  { intros E%indexOf_absent. contradiction. }
  pose proof (indexOf_range c l) as [?|Hr]; [contradiction|].
  unfold splice_remove. rewrite (splice_start_index _ _ Hr).
  rewrite length_delete by (rewrite (indexOf_lookup c l Hidx); eauto).
  lia.
Qed.

Lemma splice_remove_subseteq {A} (i : Z) (l : list A) : splice_remove i l ⊆ l.
Proof. apply list_subseteq_delete. Qed.

Lemma last_cons_default {A} (p c : A) (rest : list A) :
  List.last (p :: rest) c = List.last rest p.
Proof.
  destruct rest as [|q rest]; [reflexivity|].
  change (List.last (p :: q :: rest) c) with (List.last (q :: rest) c).
  revert q. induction rest as [|r rest IH]; intros q; [reflexivity|].
  change (List.last (q :: r :: rest) c) with (List.last (r :: rest) c).
  change (List.last (q :: r :: rest) p) with (List.last (r :: rest) p).
  apply IH.
Qed.

Lemma collapses_mono s s' (chain : list iref) (g : iref) :
  (forall j, j ∈ chain ++ [g] -> items s' !! j = items s !! j) ->
  (forall key x l,
     configs s !! key = Some x -> ItemConfig.content x = Some l ->
     exists x' l',
       configs s' !! key = Some x' /\ ItemConfig.content x' = Some l' /\
       ItemConfig.isClosable x' = ItemConfig.isClosable x) ->
  forall c, collapses s c chain g -> collapses s' c chain g.
Proof.
  intros Hit Hcf. induction chain as [|p rest IH]; intros c.
  - cbn. intros (it & cf & l & Hi & Hc & Hk & Hl & Hstop).
    destruct (Hcf _ _ _ Hk Hl) as (cf' & l' & Hk' & Hl' & Ecl).
    exists it, cf', l'. rewrite Ecl.
    rewrite Hit by (apply elem_of_cons; now left). auto.
  - cbn. intros (it & cf & l & Hi & Hc & Hk & Hl & Hroot & Hcl & Hpar & Hrest).
    destruct (Hcf _ _ _ Hk Hl) as (cf' & l' & Hk' & Hl' & Ecl).
    exists it, cf', l'. rewrite Ecl.
    rewrite Hit by (apply elem_of_cons; now left).
    repeat (split; [assumption|]). apply IH; [|exact Hrest].
    intros j Hj. apply Hit. cbn. now apply elem_of_cons; right.
Qed.

(** The cascade, by induction on the chain of containers that empty. *)
Lemma cascade fuel (chain : list iref) :
  forall s c keepChild k g,
    length chain < k ->
    collapses s c chain g ->
    NoDup (chain ++ [g]) ->
    Forall (fun p => destroyable fuel s p = true) chain ->
    allb_below (destroyable fuel s) fuel s c = true ->
    allb_below (fun _ => true) fuel s g = true ->
    exists s',
      removeChild_rec fuel k (hd g chain) c keepChild s = (Normal tt, s') /\
      cascade_result s s' c chain g.
Proof.
  induction chain as [|p rest IH]; intros s c keep k g Hk Hcol Hnd Hdes Hc Hg;
    (destruct k as [|k]; [cbn in Hk; lia|]).
  - cbn [hd]. destruct Hcol as (it & cf & l & Hi & Hin & Hcf & Hl & Hstop).
    destruct (removeChild_rec_unfold fuel k g c keep s it cf l Hi Hin Hcf Hl Hc)
      as (s1 & Hs1 & E).
    cbv zeta in E. rewrite E. clear E.
    set (it' := with_contentItems _ it).
    set (s2 := with_configs _ _).
    assert (Hres : forall tr, cascade_result s (with_trace tr s2) c [] g).
    { intros tr. split; [|split].
      - intros q Hq. inversion Hq.
      - exists it. split; [exact Hi|]. cbn. apply lookup_insert_eq.
      - intros j _ Hj. cbn. rewrite lookup_insert_ne by congruence.
        destruct Hs1 as (-> & _). reflexivity. }
    destruct (0 <? length (contentItems it'))%nat eqn:Hrem.
    + assert (Hp : pruned s s2).
      { apply (pruned_step s s1 g it _ _ Hs1 Hi), splice_remove_subseteq. }
      pose proof (allb_below_pruned _ (fun _ => true) fuel s s2 g Hp
                    (fun _ H => H) Hg) as Hg2.
      apply allb_below_tree in Hg2 as (t & <- & Hr & Hh & _).
      rewrite (callDownwards_abstract fuel None s2 t false false Hr Hh).
      eexists. split; [reflexivity | apply Hres].
    + assert (negb (instanceofRoot it')
              && ItemConfig.isClosable
                   (ItemConfig.with_content
                      (Some (splice_remove (indexOf c (contentItems it)) l))
                      cf) = false) as ->.
      { cbn. destruct Hstop as [Hlen|[->| ->]].
        - apply Nat.ltb_ge in Hrem. unfold it' in Hrem. cbn in Hrem.
          pose proof (splice_remove_length c (contentItems it) Hin). lia.
        - reflexivity.
        - apply andb_false_r. }
      exists s2. split; [reflexivity|].
      replace s2 with (with_trace (trace s2) s2) by now destruct s2.
      apply Hres.
  - cbn [hd].
    destruct Hcol as (it & cf & l & Hi & Hci & Hcf & Hl & Hroot & Hcl & Hpar
                      & Hrest).
    assert (Hin : c ∈ contentItems it).
    { rewrite Hci. apply elem_of_cons. now left. }
    destruct (removeChild_rec_unfold fuel k p c keep s it cf l Hi Hin Hcf Hl Hc)
      as (s1 & Hs1 & E).
    cbv zeta in E. rewrite E. clear E.
    assert (Eidx : indexOf c (contentItems it) = 0%Z).
    { rewrite Hci. cbn. now destruct (decide (c = c)). }
    rewrite Eidx, Hci. change (splice_remove 0 [c]) with (@nil positive).
    set (it' := with_contentItems [] it).
    set (cf' := ItemConfig.with_content _ cf).
    set (s2 := with_configs _ _).
    change (0 <? length (contentItems it'))%nat with false. cbv iota.
    change (instanceofRoot it') with (instanceofRoot it).
    change (ItemConfig.isClosable cf') with (ItemConfig.isClosable cf).
    change (parent it') with (parent it).
    rewrite Hroot, Hcl, Hpar. cbn [negb andb].
    apply NoDup_cons in Hnd as [Hp_notin Hnd].
    apply Forall_cons in Hdes as [Hdp Hdes].
    assert (Hp : pruned s s2).
    { apply (pruned_step s s1 p it [] _ Hs1 Hi), list_subseteq_nil. }
    assert (Hother : forall j, j <> p -> items s2 !! j = items s !! j).
    { intros j Hj. subst s2. cbn. rewrite lookup_insert_ne by congruence.
      destruct Hs1 as (-> & _). reflexivity. }
    assert (Hp2 : items s2 !! p = Some it') by apply lookup_insert_eq.
    destruct (IH s2 p false k g) as (s' & E' & R1 & R2 & R3).
    + cbn in Hk. lia.
    + apply (collapses_mono s s2 rest g); [| |exact Hrest].
      * intros j Hj. apply Hother. intros ->. contradiction.
      * intros key x lx Hx Hlx. subst s2. cbn.
        destruct Hs1 as (_ & -> & _).
        destruct (decide (config it = key)) as [<-|Hne].
        -- rewrite lookup_insert_eq. rewrite Hcf in Hx. injection Hx as <-.
           eexists _, _. split; [reflexivity|]. split; reflexivity.
        -- rewrite lookup_insert_ne by exact Hne. eauto.
    + exact Hnd.
    + eapply Forall_impl; [exact Hdes|]. cbn. intros j Hj.
      now rewrite (destroyable_pruned fuel s s2 j Hp).
    + destruct fuel as [|fuel];
        [unfold destroyable in Hdp; rewrite Hi in Hdp;
         now destruct (element it)|].
      cbn [allb_below]. rewrite Hp2. cbn.
      now rewrite (destroyable_pruned (S fuel) s s2 p Hp), Hdp.
    + exact (allb_below_pruned _ _ fuel s s2 g Hp (fun _ H => H) Hg).
    + exists s'. split; [exact E'|]. split; [|split].
      * intros q [->|Hq]%elem_of_cons.
        -- exists it. split; [exact Hi|].
           rewrite R3, Hp2; [reflexivity| |].
           ++ intros Hq. apply Hp_notin, elem_of_app. now left.
           ++ intros ->. apply Hp_notin, elem_of_app. right.
              apply elem_of_cons. now left.
        -- destruct (R1 q Hq) as (itq & Hq2 & Hq').
           exists itq. split; [|exact Hq'].
           rewrite <- Hother; [exact Hq2|]. intros ->.
           apply Hp_notin, elem_of_app. now left.
      * destruct R2 as (itg & Hg2 & Hg').
        exists itg. rewrite last_cons_default. split; [|exact Hg'].
        rewrite <- Hother; [exact Hg2|]. intros ->.
        apply Hp_notin, elem_of_app. right. apply elem_of_cons. now left.
      * intros j Hj Hjg. rewrite R3; [apply Hother| |exact Hjg].
        -- intros ->. apply Hj, elem_of_cons. now left.
        -- intros Hjr. apply Hj, elem_of_cons. now right.
Qed.

Lemma splice_remove_NoDup {A} `{EqDecision A} (x : A) (l : list A) :
  NoDup l -> x ∈ l -> x ∉ splice_remove (indexOf x l) l.
Proof.
  intros Hnd Hx. assert (Hidx : indexOf x l <> (-1)%Z).
  { intros E%indexOf_absent. contradiction. }
  pose proof (indexOf_range x l) as [?|Hr]; [contradiction|].
  unfold splice_remove. rewrite (splice_start_index _ _ Hr). clear Hr.
  induction Hnd as [|y l Hy Hnd IH]; [inversion Hx|]. cbn in *.
  destruct (decide (y = x)) as [->|Hne]; [exact Hy|].
  destruct (Z.eqb_spec (indexOf x l) (-1)) as [E|E]; [congruence|].
  pose proof (indexOf_range x l) as [?|?]; [contradiction|].
  replace (Z.to_nat (1 + indexOf x l)) with (S (Z.to_nat (indexOf x l)))
    by lia.
  cbn. apply not_elem_of_cons. split; [congruence|].
  apply IH; [|exact E].
  apply elem_of_cons in Hx as [->|Hx]; [contradiction | exact Hx].
Qed.

(** C3.  Let [chain] be the containers above [c], each closable, not the
    root, and holding nothing but the node below it, and let [g], the parent
    of the last, be the root, or not closable, or have other children.  Then
    removing [c] from its parent completes, every container of the chain ends
    up empty and out of its parent, [g] loses the entry of the last container
    (of [c] itself when the chain is empty) and nothing else, and no other
    item changes: the removals stop at [g], which stays where it is. *)
Theorem removeChild_cascade (s : State) (fuel : nat) (c : iref)
    (chain : list iref) (g : iref) (keepChild : bool) :
  collapses s c chain g ->
  NoDup (chain ++ [g]) ->
  Forall (fun p => destroyable fuel s p = true) chain ->
  allb_below (destroyable fuel s) fuel s c = true ->
  allb_below (fun _ => true) fuel s g = true ->
  length chain < fuel ->
  exists s',
    removeChild fuel (hd g chain) c keepChild s = (Normal tt, s') /\
    cascade_result s s' c chain g /\
    (forall it it',
       items s !! g = Some it -> items s' !! g = Some it' ->
       NoDup (contentItems it) ->
       (List.last chain c ∉ contentItems it') /\
       forall x, x ∈ contentItems it -> x <> List.last chain c ->
                 x ∈ contentItems it').
Proof.
  intros Hcol Hnd Hdes Hc Hg Hk.
  destruct (cascade fuel chain s c keepChild fuel g Hk Hcol Hnd Hdes Hc Hg)
    as (s' & E & R).
  exists s'. split; [exact E|]. split; [exact R|].
  intros it it' Hi Hi' Hn. destruct R as (_ & (itg & Hig & Hig') & _).
  assert (itg = it) as -> by congruence.
  rewrite Hig' in Hi'. injection Hi' as <-. cbn.
  assert (Hin : List.last chain c ∈ contentItems it).
  { clear -Hcol Hi. revert c Hcol.
    induction chain as [|p rest IH]; intros c.
    - cbn. intros (it0 & _ & _ & Hi0 & Hin & _). congruence.
    - intros (_ & _ & _ & _ & _ & _ & _ & _ & _ & _ & Hrest).
      rewrite last_cons_default. now apply IH. }
  split; [now apply splice_remove_NoDup|].
  intros x Hx Hne.
  assert (Hidx : indexOf (List.last chain c) (contentItems it) <> (-1)%Z).
  { intros E'%indexOf_absent. contradiction. }
  pose proof (indexOf_range (List.last chain c) (contentItems it))
    as [?|Hr]; [contradiction|].
  unfold splice_remove. rewrite (splice_start_index _ _ Hr).
  apply (elem_of_delete_other _ _ (List.last chain c) x);
    [now apply indexOf_lookup | congruence | exact Hx].
Qed.

Lemma removeChild_cascade_witness :
  exists s',
    removeChild 4 3 4 false sample_layout = (Normal tt, s') /\
    cascade_result sample_layout s' 4 [3; 2]%positive 1 /\
    (forall it it',
       items sample_layout !! 1%positive = Some it ->
       items s' !! 1%positive = Some it' ->
       NoDup (contentItems it) ->
       (List.last [3; 2]%positive 4%positive ∉ contentItems it') /\
       forall x, x ∈ contentItems it ->
                 x <> List.last [3; 2]%positive 4%positive ->
                 x ∈ contentItems it').
Proof.
  apply (removeChild_cascade sample_layout 4 4 [3; 2]%positive 1 false).
  - cbn. eexists _, _, _. repeat (split; [reflexivity|]).
    eexists _, _, _. repeat (split; [reflexivity|]).
    eexists _, _, _. split; [reflexivity|].
    split; [apply elem_of_cons; now left|].
    split; [reflexivity|]. split; [reflexivity|]. right. left. reflexivity.
  - apply (bool_decide_unpack _). vm_compute. exact I.
  - repeat constructor.
  - reflexivity.
  - reflexivity.
  - cbn. lia.
Defined.

(** ** Further properties and worked examples *)

(** X1.  On a store that holds the tree [t], [callDownwards] with
    [setSize], the method this class leaves to the concrete item classes,
    completes and records exactly the calls of [visit_order], each with the
    arguments it was given: bottom-up, once on every node with children
    before their parent; top-down, twice in a row on every node with parents
    first; with [skipSelf], without the calls on the receiver.  The walk
    itself changes no item, no configuration object and no queued frame. *)
Theorem callDownwards_visit_order (fuel : nat)
    (functionArguments : option (list string)) (s : State) (t : tree)
    (bottomUp skipSelf : bool) :
  represents s t -> height t <= fuel ->
  callDownwards fuel (label_of t) "setSize" functionArguments bottomUp
    skipSelf s
  = (Normal tt,
     mkState (items s) (configs s)
       (trace s
        ++ map (fun j => Call j "setSize" (default [] functionArguments))
               (visit_order bottomUp skipSelf t))
       (frames s)).
Proof.
  intros Hr Hh.
  exact (callDownwards_abstract fuel functionArguments s t bottomUp skipSelf
           Hr Hh).
Qed.

Lemma callDownwards_visit_order_witness :
  callDownwards 4 (label_of sample_tree) "setSize" (Some ["a"]) true true
    sample_layout
  = (Normal tt,
     mkState (items sample_layout) (configs sample_layout)
       (trace sample_layout
        ++ map (fun j => Call j "setSize" (default [] (Some ["a"])))
               (visit_order true true sample_tree))
       (frames sample_layout)).
Proof.
  apply (callDownwards_visit_order 4 (Some ["a"]) sample_layout sample_tree
           true true);
    [exact sample_layout_represents | cbn; lia].
Defined.

(** A walk with a method this class defines runs that method on every node:
    top-down from the root, [setTitle] rewrites the title of every
    configuration object of the sample layout, and [addId] gives every node
    the id. *)
Example callDownwards_setTitle_rewrites_every_title :
  exists s',
    callDownwards 4 1 "setTitle" (Some ["T"]) false false sample_layout
      = (Normal tt, s') /\
    map (fun c => ItemConfig.title <$> configs s' !! c)
        [11; 12; 13; 14]%positive
    = [Some "T"; Some "T"; Some "T"; Some "T"] /\
    ItemConfig.title <$> configs s' !! 15%positive
    = ItemConfig.title <$> configs sample_layout !! 15%positive /\
    calls "setTitle" (trace s') = [].
Proof. eexists. split; [vm_compute; reflexivity|]. repeat split. Qed.

Example callDownwards_addId_marks_every_node :
  exists s',
    callDownwards 4 1 "addId" (Some ["x"]) true false sample_layout
      = (Normal tt, s') /\
    map (has_id "x" s') [1; 2; 3; 4; 5]%positive
    = [true; true; true; true; false].
Proof. eexists. split; [vm_compute; reflexivity|]. reflexivity. Qed.

(** A name that denotes a field cannot be called: the walk throws at the
    first node it would call it on. *)
Example callDownwards_of_a_field_throws :
  callDownwards 4 1 "contentItems" None false false sample_layout
  = (Throw TypeError, sample_layout) /\
  callDownwards 4 1 "contentItems" None true false sample_layout
  = (Throw TypeError, sample_layout).
Proof. split; reflexivity. Qed.

(** [removeId] throws on the first node that does not carry the id, and the
    walk ends there. *)
Example callDownwards_removeId_throws :
  callDownwards 4 1 "removeId" (Some ["x"]) false false sample_layout
  = (Throw (Error "Id not found"), sample_layout).
Proof. reflexivity. Qed.

(** The example of the specification: removing the only component empties
    the stack and the row in turn and leaves an empty root. *)
Example cascade_of_the_sample_layout :
  exists s',
    removeChild 4 3 4 false sample_layout = (Normal tt, s') /\
    contentItems <$> items s' !! 1%positive = Some [] /\
    contentItems <$> items s' !! 2%positive = Some [] /\
    contentItems <$> items s' !! 3%positive = Some [] /\
    ItemConfig.content <$> configs s' !! 11%positive = Some (Some []) /\
    ItemConfig.content <$> configs s' !! 12%positive = Some (Some []) /\
    ItemConfig.content <$> configs s' !! 13%positive = Some (Some []) /\
    parent <$> items s' !! 1%positive = Some None.
Proof.
  eexists. split; [vm_compute; reflexivity|]. repeat split.
Qed.

Example removeChild_of_a_stranger :
  removeChild 4 2 4 false sample_layout =
    (Throw (Error "Can't remove child item. Unknown content item"),
     sample_layout).
Proof. reflexivity. Qed.

Example replaceChild_of_a_stranger :
  replaceChild 4 2 4 5 true sample_layout =
    (Throw (Error "Can't replace child. oldChild is not child of this"),
     sample_layout).
Proof. reflexivity. Qed.

Example removeId_of_a_missing_id :
  removeId 4 "x" sample_layout = (Throw (Error "Id not found"), sample_layout).
Proof. reflexivity. Qed.

(** [setTitle] emits stateChanged without a [BubblingEvent], so nothing of
    it reaches the layout manager. *)
Example setTitle_is_not_propagated :
  exists s',
    setTitle 4 4 "tab" sample_layout = (Normal tt, s') /\
    trace s' = [] /\ frames s' = [].
Proof. eexists. split; [vm_compute; reflexivity|]. now split. Qed.

Lemma splice_insert_front {A} (x : A) (l : list A) :
  splice_insert 0 x l = x :: l.
Proof.
  unfold splice_insert, splice_start. cbn.
  replace (Z.to_nat (Z.min 0 (Z.of_nat (length l)))) with 0%nat by lia.
  reflexivity.
Qed.

Lemma string_length_append (a b : string) :
  String.length (a +:+ b) = String.length a + String.length b.
Proof.
  induction a as [|x a IH]; [reflexivity|].
  change (S (String.length (a +:+ b)) = S (String.length a + String.length b)).
  now f_equal.
Qed.

Lemma append_Created_not_stateChanged (ty : string) :
  ty +:+ "Created" <> "stateChanged".
Proof.
  intros E. assert (String.length ty = 5) as Hlen.
  { apply (f_equal String.length) in E.
    rewrite string_length_append in E. cbn in E. lia. }
  destruct ty as [|a1 [|a2 [|a3 [|a4 [|a5 [|a6 ty]]]]]]; try discriminate.
Qed.

Lemma append_DomAppend_quiet s0 this (l : list iref) :
  Forall (fun c => is_Some (items s0 !! c)) l ->
  quiet s0 (for_each (fun c => ch <- get_item c ;;
                               tell (DomAppend this (element ch))) l).
Proof.
  intros H. apply quiet_for_each. eapply Forall_impl; [exact H|].
  intros c [ch Hc] s Hs.
  rewrite (bind_run _ _ _ _ _ (get_item_run s c ch
             ltac:(destruct Hs as [-> _]; exact Hc))).
  eexists. split; [reflexivity|]. now apply trace_only_tell.
Qed.

(** [_$init] on an item whose children are in the store and whose events
    find their way up: it completes, marks the item initialised and otherwise
    only leaves records. *)
Lemma init_run fuel s n nit :
  items s !! n = Some nit ->
  Forall (fun c => is_Some (items s !! c)) (contentItems nit) ->
  depthb fuel s n = true ->
  exists s',
    _init fuel n s = (Normal tt, s') /\
    items s' = <[n := with_isInitialised true nit]> (items s) /\
    configs s' = configs s /\ frames s' = frames s.
Proof.
  intros Hn Hch Hd. unfold _init.
  rewrite (bind_run _ _ s tt (with_trace (trace s ++ [Call n "setSize" []]) s))
    by reflexivity.
  set (s1 := with_trace _ s).
  assert (Hs1 : trace_only s s1) by (now apply trace_only_tell, trace_only_refl).
  rewrite (bind_run _ _ _ _ _ (get_item_run s1 n nit Hn)).
  destruct (append_DomAppend_quiet s n (contentItems nit) Hch s1 Hs1)
    as (s2 & E2 & Hs2).
  rewrite (bind_run _ _ _ _ _ E2).
  pose proof Hs2 as (Ei & Ec & Ef).
  rewrite (bind_run _ _ _ _ _ (get_item_run s2 n nit
             ltac:(rewrite Ei; exact Hn))).
  unfold put_item at 1, modify at 1. unfold bind at 1. cbv beta iota.
  set (s3 := with_items _ s2).
  assert (Hd3 : depthb fuel s3 n = true).
  { rewrite <- Hd. apply depthb_ext. intros j. subst s3. cbn. rewrite Ei.
    destruct (decide (n = j)) as [<-|Hne].
    - now rewrite Hn, lookup_insert_eq.
    - now rewrite lookup_insert_ne. }
  unfold emitBubblingEvent, emit.
  destruct (propagateEvent_quiet fuel "itemCreated"
              (Some (mkEvent "itemCreated" n false)) ltac:(discriminate)
              s3 n Hd3 s3 (trace_only_refl s3)) as (s4 & E4 & Hs4).
  rewrite (bind_run _ _ _ _ _ E4).
  destruct (propagateEvent_quiet fuel (type nit +:+ "Created")
              (Some (mkEvent (type nit +:+ "Created") n false))
              (append_Created_not_stateChanged _)
              s3 n Hd3 s4 Hs4) as (s5 & E5 & (Ei5 & Ec5 & Ef5)).
  exists s5. split; [exact E5|]. rewrite Ei5, Ec5, Ef5. subst s3. cbn.
  now rewrite Ei, Ec, Ef.
Qed.

(** [addChild], step by step: where the child and its configuration land,
    and what becomes of the child. *)
Lemma addChild_run (s : State) (fuel : nat) (this n : iref)
    (index : option Z) (it nit : Item) (c : ItemConfig.t) :
  items s !! this = Some it -> items s !! n = Some nit -> n <> this ->
  configs s !! config it = Some c ->
  (isInitialised it = true -> isInitialised nit = false ->
   Forall (fun ch => is_Some (items s !! ch)) (contentItems nit) /\
   depthb fuel
     (with_items (<[n := with_parent (Some this) nit]> (items s)) s) n
   = true) ->
  exists s' nit',
    addChild fuel this n index s = (Normal tt, s') /\
    items s' !! this =
      Some (with_contentItems
              (splice_insert
                 (default (Z.of_nat (length (contentItems it))) index) n
                 (contentItems it)) it) /\
    configs s' !! config it =
      Some (ItemConfig.with_content
              (Some (splice_insert
                       (default (Z.of_nat (length (contentItems it))) index)
                       (config nit) (default [] (ItemConfig.content c)))) c) /\
    items s' !! n = Some nit' /\ parent nit' = Some this /\
    contentItems nit' = contentItems nit /\ config nit' = config nit /\
    (forall j, j <> this -> j <> n -> items s' !! j = items s !! j) /\
    (index = Some 0%Z ->
     splice_insert (default (Z.of_nat (length (contentItems it))) index) n
                   (contentItems it) = n :: contentItems it /\
     splice_insert (default (Z.of_nat (length (contentItems it))) index)
                   (config nit) (default [] (ItemConfig.content c))
     = config nit :: default [] (ItemConfig.content c)).
Proof.
  intros Hi Hn Hne Hc Hinit.
  set (i := default (Z.of_nat (length (contentItems it))) index).
  set (it1 := with_contentItems (splice_insert i n (contentItems it)) it).
  set (l1 := default [] (ItemConfig.content c)).
  set (c2 := ItemConfig.with_content
               (Some (splice_insert i (config nit) l1)) c).
  set (nit1 := with_parent (Some this) nit).
  unfold addChild. rewrite (bind_run _ _ _ _ _ (get_item_run _ _ _ Hi)).
  fold i. fold it1.
  unfold put_item at 1, modify at 1. unfold bind at 1. cbv beta iota.
  set (sA := with_items (<[this := it1]> (items s)) s).
  assert (HA : items sA !! this = Some it1) by apply lookup_insert_eq.
  assert (HAn : items sA !! n = Some nit).
  { subst sA. cbn. now rewrite lookup_insert_ne by congruence. }
  rewrite (bind_run _ _ _ _ _ (this_config_run sA this it1 c HA Hc)).
  (* [config.content] is defined from here on *)
  assert (exists sB c1,
            (match ItemConfig.content c with
             | None => put_config (config it)
                         (ItemConfig.with_content (Some []) c)
             | Some _ => ret tt
             end) sA = (Normal tt, sB) /\
            items sB = items sA /\ trace sB = trace sA /\
            frames sB = frames sA /\
            configs sB !! config it = Some c1 /\
            ItemConfig.content c1 = Some l1 /\
            ItemConfig.with_content
              (Some (splice_insert i (config nit) l1)) c1 = c2 /\
            (<[config it := c2]> (configs sB)
             = <[config it := c2]> (configs s)))
    as (sB & c1 & EB & EiB & _ & _ & HcB & Hl1 & Ec2 & Ecfg).
  { subst l1 c2. destruct (ItemConfig.content c) as [l|] eqn:Hl.
    - exists sA, c. split; [reflexivity|]. do 3 (split; [reflexivity|]).
      split; [exact Hc|]. split; [exact Hl|]. split; reflexivity.
    - eexists _, _. split; [reflexivity|]. do 3 (split; [reflexivity|]).
      split; [apply lookup_insert_eq|]. split; [reflexivity|].
      split; [reflexivity|]. cbn. apply insert_insert_eq. }
  rewrite (bind_run _ _ _ _ _ EB).
  rewrite (bind_run _ _ _ _ _ (this_config_run sB this it1 c1
             ltac:(rewrite EiB; exact HA) HcB)).
  rewrite (bind_run _ _ _ _ _ (get_item_run sB n nit
             ltac:(rewrite EiB; exact HAn))).
  rewrite Hl1, Ec2.
  unfold put_config at 1, modify at 1. unfold bind at 1. cbv beta iota.
  set (sC := with_configs _ sB).
  assert (HCn : items sC !! n = Some nit) by (cbn; rewrite EiB; exact HAn).
  rewrite (bind_run _ _ _ _ _ (get_item_run sC n nit HCn)).
  unfold put_item at 1, modify at 1. unfold bind at 1. cbv beta iota.
  fold nit1. set (sD := with_items _ sC).
  assert (HDn : items sD !! n = Some nit1) by apply lookup_insert_eq.
  assert (HDt : items sD !! this = Some it1).
  { subst sD. cbn. rewrite lookup_insert_ne by congruence.
    rewrite EiB. exact HA. }
  rewrite (bind_run _ _ _ _ _ (get_item_run sD n nit1 HDn)).
  cbn [parent nit1 with_parent].
  rewrite (bind_run _ _ _ _ _ (get_item_run sD this it1 HDt)).
  change (isInitialised it1) with (isInitialised it).
  change (isInitialised nit1) with (isInitialised nit).
  assert (HitemsD : items sD = <[n := nit1]> (<[this := it1]> (items s))).
  { subst sD sC. cbn. now rewrite EiB. }
  assert (HcfgD : configs sD = <[config it := c2]> (configs s)).
  { subst sD sC. cbn. exact Ecfg. }
  assert (Hfront : index = Some 0%Z ->
            splice_insert i n (contentItems it) = n :: contentItems it /\
            splice_insert i (config nit) l1 = config nit :: l1).
  { intros ->. subst i.
    change (default (Z.of_nat (length (contentItems it))) (Some 0%Z))
      with 0%Z.
    now rewrite !splice_insert_front. }
  destruct (isInitialised it && negb (isInitialised nit)) eqn:Hb.
  - apply andb_true_iff in Hb as [Hb1 Hb2%negb_true_iff].
    destruct (Hinit Hb1 Hb2) as [Hch Hd].
    destruct (init_run fuel sD n nit1 HDn) as (s' & E' & Ei' & Ec' & _).
    + eapply Forall_impl; [exact Hch|]. intros ch [x Hx]. rewrite HitemsD.
      destruct (decide (n = ch)) as [<-|?];
        [rewrite lookup_insert_eq; eauto|].
      rewrite lookup_insert_ne by assumption.
      destruct (decide (this = ch)) as [<-|?];
        [rewrite lookup_insert_eq; eauto|].
      rewrite lookup_insert_ne by assumption. eauto.
    + rewrite <- Hd. apply depthb_ext. intros j. rewrite HitemsD. cbn.
      destruct (decide (n = j)) as [<-|?];
        [now rewrite !lookup_insert_eq|].
      rewrite 2!(lookup_insert_ne _ n j) by assumption.
      destruct (decide (this = j)) as [<-|?];
        [now rewrite lookup_insert_eq, Hi|].
      now rewrite lookup_insert_ne.
    + exists s', (with_isInitialised true nit1). split; [exact E'|].
      rewrite Ei', Ec', HitemsD, HcfgD.
      rewrite lookup_insert_ne, lookup_insert_ne, !lookup_insert_eq
        by congruence.
      repeat (split; [reflexivity|]). split; [|exact Hfront].
      intros j H1 H2. now rewrite !lookup_insert_ne by congruence.
  - exists sD, nit1. split; [reflexivity|].
    rewrite HitemsD, HcfgD.
    rewrite lookup_insert_ne, !lookup_insert_eq by congruence.
    repeat (split; [reflexivity|]). split; [|exact Hfront].
    intros j H1 H2. now rewrite !lookup_insert_ne by congruence.
Qed.

(** The child lands in front, in both arrays, and is initialised on the way. *)
Example addChild_at_index_0 :
  exists s',
    addChild 4 1 5 (Some 0%Z) sample_uninitialised = (Normal tt, s') /\
    contentItems <$> items s' !! 1%positive = Some [5; 2]%positive /\
    ItemConfig.content <$> configs s' !! 11%positive
      = Some (Some [15; 12]%positive) /\
    parent <$> items s' !! 5%positive = Some (Some 1%positive) /\
    isInitialised <$> items s' !! 5%positive = Some true /\
    deliveries (trace s') =
      [("itemCreated", POrigin 5); ("componentCreated", POrigin 5)].
Proof. eexists. split; [vm_compute; reflexivity|]. repeat split. Qed.

(** ** The two arrays of the receiver *)

Lemma configs_of_Some s (l : list iref) (cl : list cref) :
  configs_of s l = Some cl <->
  Forall2 (fun i c => config <$> items s !! i = Some c) l cl.
Proof.
  revert cl. induction l as [|i l IH]; intros cl; cbn.
  - split; [intros [= <-]; constructor | now inversion 1].
  - destruct (items s !! i) as [it|] eqn:Hi; cbn.
    + destruct (configs_of s l) as [cs|].
      * split.
        -- intros [= <-]. constructor; [now rewrite Hi | now apply IH].
        -- inversion 1 as [|? c ? cl' Hc Hcl]; subst.
           apply IH in Hcl. rewrite Hi in Hc. injection Hc as <-.
           congruence.
      * split; [discriminate|].
        inversion 1 as [|? c ? cl' Hc Hcl]; subst.
        apply IH in Hcl. discriminate.
    + split; [discriminate|].
      inversion 1 as [|? c ? cl' Hc Hcl]; subst.
      rewrite Hi in Hc. discriminate.
Qed.

Lemma configs_of_ext s s' (l : list iref) :
  (forall j, config <$> items s' !! j = config <$> items s !! j) ->
  configs_of s' l = configs_of s l.
Proof.
  intros H. induction l as [|i l IH]; [reflexivity|]. cbn. rewrite IH.
  specialize (H i).
  destruct (items s' !! i) as [it'|], (items s !! i) as [it|];
    try discriminate; [|reflexivity].
  now injection H as ->.
Qed.

Lemma configs_of_delete s (l : list iref) cl k :
  configs_of s l = Some cl -> configs_of s (delete k l) = Some (delete k cl).
Proof.
  rewrite !configs_of_Some. intros H. revert k.
  induction H as [|i c l cl Hc Hl IH]; intros [|k]; cbn.
  - constructor.
  - constructor.
  - exact Hl.
  - constructor; [exact Hc | apply IH].
Qed.

Lemma configs_of_splice_insert s (l : list iref) cl n nit i :
  configs_of s l = Some cl -> items s !! n = Some nit ->
  configs_of s (splice_insert i n l) = Some (splice_insert i (config nit) cl).
Proof.
  rewrite !configs_of_Some. intros H Hn. unfold splice_insert.
  rewrite <- (Forall2_length _ _ _ H).
  apply Forall2_app; [now apply Forall2_take|].
  constructor; [now rewrite Hn | now apply Forall2_drop].
Qed.

(** X3.  Under the conditions of X2, a receiver whose two arrays are
    parallel before [addChild] has them parallel after it. *)
Theorem addChild_keeps_parallel (s : State) (fuel : nat) (this n : iref)
    (index : option Z) (it nit : Item) :
  items s !! this = Some it -> items s !! n = Some nit -> n <> this ->
  (isInitialised it = true -> isInitialised nit = false ->
   Forall (fun ch => is_Some (items s !! ch)) (contentItems nit) /\
   depthb fuel
     (with_items (<[n := with_parent (Some this) nit]> (items s)) s) n
   = true) ->
  parallel s this ->
  exists s', addChild fuel this n index s = (Normal tt, s') /\
             parallel s' this.
Proof.
  intros Hi Hn Hne Hinit (it0 & c & l & Hi0 & Hc & Hl & Hpar).
  assert (it0 = it) as -> by congruence.
  destruct (addChild_run s fuel this n index it nit c Hi Hn Hne Hc Hinit)
    as (s' & nit' & E & Hi' & Hc' & Hn' & _ & _ & Hcfg & Hother & _).
  exists s'. split; [exact E|].
  eexists _, _, _. split; [exact Hi'|]. split; [exact Hc'|].
  split; [reflexivity|]. cbn. rewrite Hl. cbn.
  rewrite (configs_of_ext s s').
  - now apply configs_of_splice_insert.
  - intros j. destruct (decide (j = this)) as [->|H1].
    { now rewrite Hi', Hi. }
    destruct (decide (j = n)) as [->|H2].
    { rewrite Hn', Hn. cbn. now rewrite Hcfg. }
    now rewrite Hother.
Qed.

Lemma addChild_keeps_parallel_witness :
  exists s', addChild 4 1 5 (Some 0%Z) sample_uninitialised = (Normal tt, s') /\
             parallel s' 1.
Proof.
  apply (addChild_keeps_parallel sample_uninitialised 4 1 5 (Some 0%Z)
           (sample_item 11 "root" [2%positive] None true 21)
           (with_isInitialised false
              (sample_item 15 "component" [] None false 25)));
    [reflexivity | reflexivity | discriminate | |].
  - intros _ _. split; [constructor | reflexivity].
  - eexists _, _, _. split; [reflexivity|]. split; [reflexivity|].
    split; reflexivity.
Defined.

(** X4.  [removeChild] on a receiver that is the root, or is not closable,
    or keeps other children completes and takes the entry of the child out
    of [contentItems] and out of [config.content] at the same index: a
    receiver whose two arrays are parallel before has them parallel after. *)
Theorem removeChild_keeps_parallel (s : State) (fuel : nat) (g c : iref)
    (keepChild : bool) :
  collapses s c [] g ->
  allb_below (destroyable fuel s) fuel s c = true ->
  allb_below (fun _ => true) fuel s g = true ->
  parallel s g ->
  exists s' it it' cf cf' l,
    removeChild fuel g c keepChild s = (Normal tt, s') /\
    items s !! g = Some it /\ items s' !! g = Some it' /\
    configs s !! config it = Some cf /\ configs s' !! config it = Some cf' /\
    ItemConfig.content cf = Some l /\
    contentItems it' =
      splice_remove (indexOf c (contentItems it)) (contentItems it) /\
    ItemConfig.content cf' =
      Some (splice_remove (indexOf c (contentItems it)) l) /\
    parallel s' g.
Proof.
  intros (it & cf & l & Hi & Hin & Hcf & Hl & Hstop) Hc Hg
         (it0 & cf0 & l0 & Hi0 & Hcf0 & Hl0 & Hpar).
  assert (it0 = it) as -> by congruence.
  assert (cf0 = cf) as -> by congruence.
  assert (l0 = l) as -> by congruence.
  destruct fuel as [|k]; [discriminate|].
  destruct (removeChild_rec_unfold (S k) k g c keepChild s it cf l
              Hi Hin Hcf Hl Hc) as (s1 & Hs1 & E).
  cbv zeta in E. unfold removeChild. rewrite E. clear E.
  set (it' := with_contentItems _ it).
  set (cf' := ItemConfig.with_content _ cf).
  set (s2 := with_configs _ _).
  assert (Hpar2 : forall tr, parallel (with_trace tr s2) g).
  { intros tr. exists it', cf', (splice_remove (indexOf c (contentItems it)) l).
    split; [apply lookup_insert_eq|]. split; [apply lookup_insert_eq|].
    split; [reflexivity|]. cbn [contentItems it' with_contentItems].
    rewrite (configs_of_ext s (with_trace tr s2)).
    - unfold splice_remove.
      apply configs_of_Some in Hpar as Hlen. apply Forall2_length in Hlen.
      rewrite <- Hlen. now apply configs_of_delete.
    - intros j. cbn. destruct Hs1 as (-> & _).
      destruct (decide (g = j)) as [<-|Hne].
      + now rewrite lookup_insert_eq, Hi.
      + now rewrite lookup_insert_ne. }
  assert (Hfin : forall tr,
            items (with_trace tr s2) !! g = Some it' /\
            configs (with_trace tr s2) !! config it = Some cf').
  { intros tr. split; apply lookup_insert_eq. }
  destruct (0 <? length (contentItems it'))%nat eqn:Hrem.
  - assert (Hp : pruned s s2).
    { apply (pruned_step s s1 g it _ _ Hs1 Hi), splice_remove_subseteq. }
    pose proof (allb_below_pruned _ (fun _ => true) (S k) s s2 g Hp
                  (fun _ H => H) Hg) as Hg2.
    apply allb_below_tree in Hg2 as (t & <- & Hr & Hh & _).
    rewrite (callDownwards_abstract (S k) None s2 t false false Hr Hh).
    eexists _, it, it', cf, cf', l. split; [reflexivity|].
    destruct (Hfin (trace s2 ++ map (fun j => Call j "setSize" (default [] None))
                                  (visit_order false false t))) as [F1 F2].
    repeat (split; [first [assumption | reflexivity]|]). apply Hpar2.
  - assert (negb (instanceofRoot it') && ItemConfig.isClosable cf' = false)
      as ->.
    { cbn. destruct Hstop as [Hlen|[->| ->]].
      - apply Nat.ltb_ge in Hrem. unfold it' in Hrem. cbn in Hrem.
        pose proof (splice_remove_length c (contentItems it) Hin). lia.
      - reflexivity.
      - apply andb_false_r. }
    exists s2, it, it', cf, cf', l. split; [reflexivity|].
    destruct (Hfin (trace s2)) as [F1 F2].
    replace (with_trace (trace s2) s2) with s2 in F1, F2 by now destruct s2.
    repeat (split; [first [assumption | reflexivity]|]).
    replace s2 with (with_trace (trace s2) s2) by now destruct s2.
    apply Hpar2.
Qed.

Lemma removeChild_keeps_parallel_witness :
  exists s' it it' cf cf' l,
    removeChild 4 1 2 false sample_layout = (Normal tt, s') /\
    items sample_layout !! 1%positive = Some it /\
    items s' !! 1%positive = Some it' /\
    configs sample_layout !! config it = Some cf /\
    configs s' !! config it = Some cf' /\
    ItemConfig.content cf = Some l /\
    contentItems it' =
      splice_remove (indexOf 2%positive (contentItems it)) (contentItems it) /\
    ItemConfig.content cf' =
      Some (splice_remove (indexOf 2%positive (contentItems it)) l) /\
    parallel s' 1.
Proof.
  apply (removeChild_keeps_parallel sample_layout 4 1 2 false).
  - cbn. eexists _, _, _. split; [reflexivity|].
    split; [apply elem_of_cons; now left|].
    split; [reflexivity|]. split; [reflexivity|]. right. left. reflexivity.
  - reflexivity.
  - reflexivity.
  - eexists _, _, _. split; [reflexivity|]. split; [reflexivity|].
    split; reflexivity.
Defined.

(** ** More on ids *)

Lemma hasId_of_arr (l : list string) (y : string) :
  hasId_of (IdArr l) y = bool_decide (y ∈ l).
Proof.
  unfold hasId_of. cbn [falsy].
  destruct (Z.eqb_spec (indexOf y l) (-1)) as [E|E]; cbn [negb].
  - symmetry. apply bool_decide_eq_false. now apply indexOf_absent.
  - symmetry. apply bool_decide_eq_true.
    destruct (decide (y ∈ l)) as [H|H]; [exact H|].
    now apply indexOf_absent in H.
Qed.

Lemma hasId_of_str (x y : string) :
  x <> "" -> hasId_of (IdStr x) y = bool_decide (x = y).
Proof.
  intros H. unfold hasId_of. cbn [falsy]. now rewrite bool_decide_false.
Qed.

Lemma hasId_of_falsy (v : IdVal) (y : string) :
  falsy v = true -> hasId_of v y = false.
Proof. intros H. unfold hasId_of. now rewrite H. Qed.

Lemma falsy_str (x : string) : falsy (IdStr x) = false -> x <> "".
Proof. cbn. now intros H%bool_decide_eq_false. Qed.

(** The callback of [getItemsById] and [hasId] part ways on the empty
    string only. *)
Lemma id_filter_has_id (id : string) (s : State) (j : iref) :
  id <> "" -> id_filter id s j = has_id id s j.
Proof.
  intros Hid. unfold id_filter, has_id, id_of.
  destruct (items s !! j) as [it|]; [|reflexivity].
  destruct (configs s !! config it) as [c|]; [|reflexivity].
  destruct (ItemConfig.id c) as [|x|l].
  - reflexivity.
  - unfold hasId_of. cbn [falsy].
    destruct (decide (x = "")) as [->|Hx].
    + rewrite (bool_decide_true ("" = "")) by reflexivity.
      apply bool_decide_eq_false. congruence.
    + now rewrite (bool_decide_false (x = "")).
  - reflexivity.
Qed.

Lemma has_id_true (id : string) (s : State) (j : iref) :
  has_id id s j = true <-> hasId j id s = (Normal true, s).
Proof.
  unfold has_id. split.
  - destruct (id_of s j) as [v|] eqn:Hv; [|discriminate].
    intros H. now rewrite (hasId_run _ _ _ id Hv), H.
  - intros (_ & v & -> & E)%hasId_inv. now symmetry.
Qed.

(** X5. For an id that is not the empty string, [getItemsById] returns
    exactly the nodes below the receiver on which [hasId] is true, parents
    before children and siblings in their order. *)
Theorem getItemsById_agrees_with_hasId (s : State) (t : tree) (fuel : nat)
    (id : string) :
  represents s t -> height t <= fuel -> id <> "" ->
  exists l,
    getItemsById fuel (label_of t) id s = (Normal l, s) /\
    l = List.filter (has_id id s) (descendants t) /\
    forall j, j ∈ l <->
              j ∈ descendants t /\ hasId j id s = (Normal true, s).
Proof.
  intros Hr Hh Hid. eexists. split; [|split; [reflexivity|]].
  - unfold getItemsById.
    rewrite (getItemsByFilter_preorder_aux s t fuel (id_filter id) Hr Hh).
    do 2 f_equal. apply List.filter_ext. intros j.
    now apply id_filter_has_id.
  - intros j. rewrite list_elem_of_In, List.filter_In, <- list_elem_of_In.
    now rewrite has_id_true.
Qed.

Lemma getItemsById_agrees_with_hasId_witness :
  exists l,
    getItemsById 4 (label_of sample_tree) "b" sample_ab
      = (Normal l, sample_ab) /\
    l = List.filter (has_id "b" sample_ab) (descendants sample_tree) /\
    forall j, j ∈ l <->
              j ∈ descendants sample_tree /\
              hasId j "b" sample_ab = (Normal true, sample_ab).
Proof.
  apply (getItemsById_agrees_with_hasId sample_ab sample_tree 4 "b");
    [| cbn; lia | discriminate].
  unfold sample_tree.
  repeat (eapply represents_node;
          [reflexivity | reflexivity | repeat constructor]).
Defined.

(** What [addId] leaves in [config.id] answers [hasId] for the new id and
    for the ids that were there. *)
Lemma hasId_of_added (v : IdVal) (id y : string) :
  id <> "" \/ falsy v = false ->
  hasId_of (if hasId_of v id then v
            else if falsy v then IdStr id
            else match v with
                 | IdStr x => IdArr [x; id]
                 | IdArr l => IdArr (l ++ [id])
                 | IdAbsent => v
                 end) y
  = hasId_of v y || bool_decide (y = id).
Proof.
  intros Hc. destruct (hasId_of v id) eqn:Hh.
  - destruct (decide (y = id)) as [->|Hne].
    + now rewrite Hh.
    + now rewrite (bool_decide_false (y = id)), orb_false_r.
  - destruct (falsy v) eqn:Hf.
    + destruct Hc as [Hne|?]; [|congruence].
      rewrite (hasId_of_falsy v y Hf), (hasId_of_str _ _ Hne). cbn [orb].
      apply bool_decide_ext. split; congruence.
    + destruct v as [|x|l]; [discriminate| |].
      * rewrite hasId_of_arr, (hasId_of_str _ _ (falsy_str _ Hf)).
        rewrite <- bool_decide_or. apply bool_decide_ext.
        rewrite elem_of_cons, list_elem_of_singleton.
        split; (intros [?|?]; [left|right]; congruence).
      * rewrite !hasId_of_arr, <- bool_decide_or. apply bool_decide_ext.
        now rewrite elem_of_app, list_elem_of_singleton.
Qed.

Lemma distinct_ids_added (v : IdVal) (id : string) :
  distinct_ids v ->
  distinct_ids (if hasId_of v id then v
                else if falsy v then IdStr id
                else match v with
                     | IdStr x => IdArr [x; id]
                     | IdArr l => IdArr (l ++ [id])
                     | IdAbsent => v
                     end).
Proof.
  intros Hd. destruct (hasId_of v id) eqn:Hh; [exact Hd|].
  destruct (falsy v) eqn:Hf; [exact I|].
  destruct v as [|x|l]; [exact I| |].
  - rewrite (hasId_of_str _ _ (falsy_str _ Hf)) in Hh.
    apply bool_decide_eq_false in Hh. cbn.
    apply NoDup_cons. split; [|apply NoDup_singleton].
    now rewrite list_elem_of_singleton.
  - rewrite hasId_of_arr in Hh. apply bool_decide_eq_false in Hh. cbn in *.
    apply NoDup_app. split; [exact Hd|]. split; [|apply NoDup_singleton].
    intros x Hx ->%list_elem_of_singleton. contradiction.
Qed.

(** X6. After [addId id], [hasId] is true of [id] and answers for every
    other string what it answered before; ids that were pairwise distinct
    stay so.  The one exception, excluded here, is the empty string added to
    a node without an id. *)
Theorem addId_then_hasId (s : State) (this : iref) (v : IdVal)
    (id : string) :
  id_of s this = Some v -> id <> "" \/ falsy v = false ->
  exists s' v',
    addId this id s = (Normal tt, s') /\
    id_of s' this = Some v' /\
    (forall y, hasId this y s' =
               (Normal (hasId_of v y || bool_decide (y = id)), s')) /\
    (distinct_ids v -> distinct_ids v').
Proof.
  intros Hv Hc.
  destruct (addId_run s this v id Hv) as (s' & E & _ & _ & _ & Hid).
  exists s'. eexists. split; [exact E|]. split; [exact Hid|]. split.
  - intros y. rewrite (hasId_run _ _ _ y Hid).
    now rewrite (hasId_of_added v id y Hc).
  - apply distinct_ids_added.
Qed.

Lemma addId_then_hasId_witness :
  exists s' v',
    addId 4 "c" sample_ab = (Normal tt, s') /\
    id_of s' 4 = Some v' /\
    (forall y, hasId 4 y s' =
               (Normal (hasId_of (IdArr ["a"; "b"]) y
                        || bool_decide (y = "c")), s')) /\
    (distinct_ids (IdArr ["a"; "b"]) -> distinct_ids v').
Proof.
  apply (addId_then_hasId sample_ab 4 (IdArr ["a"; "b"]) "c");
    [reflexivity | left; discriminate].
Defined.

(** X7. The empty string cannot be given as an id to a node that has none:
    [addId] stores it, but a scalar empty string counts as no id, so [hasId]
    still answers false and [removeId] throws. *)
Theorem addId_empty_string_is_lost (s : State) (this : iref) (v : IdVal) :
  id_of s this = Some v -> falsy v = true ->
  exists s',
    addId this "" s = (Normal tt, s') /\
    id_of s' this = Some (IdStr "") /\
    hasId this "" s' = (Normal false, s') /\
    removeId this "" s' = (Throw (Error "Id not found"), s').
Proof.
  intros Hv Hf.
  destruct (addId_run s this v "" Hv) as (s' & E & _ & _ & _ & Hid).
  rewrite (hasId_of_falsy v "" Hf), Hf in Hid.
  exists s'. split; [exact E|]. split; [exact Hid|]. split.
  - now rewrite (hasId_run _ _ _ "" Hid).
  - exact (removeId_run s' this (IdStr "") "" Hid).
Qed.

Lemma addId_empty_string_is_lost_witness :
  exists s',
    addId 4 "" sample_layout = (Normal tt, s') /\
    id_of s' 4 = Some (IdStr "") /\
    hasId 4 "" s' = (Normal false, s') /\
    removeId 4 "" s' = (Throw (Error "Id not found"), s').
Proof.
  apply (addId_empty_string_is_lost sample_layout 4 (IdStr ""));
    reflexivity.
Defined.

Lemma elem_of_delete_NoDup {A} (l : list A) (k : nat) (a b : A) :
  NoDup l -> l !! k = Some a -> (b ∈ delete k l <-> b ∈ l /\ b <> a).
Proof.
  intros Hnd. revert k.
  induction Hnd as [|y l Hy Hnd IH]; intros [|k]; cbn; try discriminate.
  - intros [= ->]. rewrite elem_of_cons. split.
    + intros Hb. split; [now right|]. intros ->. contradiction.
    + intros [[->|Hb] Hne]; [contradiction | exact Hb].
  - intros Hk. rewrite !elem_of_cons, (IH k Hk). split.
    + intros [->|[Hb Hne]]; [|now split; [right|]].
      split; [now left|]. intros ->. apply Hy.
      eapply list_elem_of_lookup_2, Hk.
    + intros [[->|Hb] Hne]; [now left | now right].
Qed.

Lemma splice_remove_indexOf {A} `{EqDecision A} (x : A) (l : list A) :
  x ∈ l ->
  splice_remove (indexOf x l) l = delete (Z.to_nat (indexOf x l)) l /\
  l !! Z.to_nat (indexOf x l) = Some x.
Proof.
  intros Hx. assert (Hidx : indexOf x l <> (-1)%Z).
  { intros E%indexOf_absent. contradiction. }
  pose proof (indexOf_range x l) as [?|Hr]; [contradiction|].
  unfold splice_remove. rewrite (splice_start_index _ _ Hr).
  split; [reflexivity | now apply indexOf_lookup].
Qed.

Lemma hasId_of_removed (v : IdVal) (id y : string) :
  hasId_of v id = true -> distinct_ids v ->
  hasId_of (match v with
            | IdStr _ => IdAbsent
            | IdArr l => IdArr (splice_remove (indexOf id l) l)
            | IdAbsent => v
            end) y
  = hasId_of v y && negb (bool_decide (y = id)).
Proof.
  intros Hh Hd. destruct v as [|x|l]; [discriminate| |].
  - destruct (falsy (IdStr x)) eqn:Hf.
    { now rewrite (hasId_of_falsy _ _ Hf) in Hh. }
    apply falsy_str in Hf. rewrite (hasId_of_str x id Hf) in Hh.
    rewrite (hasId_of_str x y Hf).
    apply bool_decide_eq_true in Hh as ->. cbn.
    destruct (decide (id = y)) as [->|Hne].
    + now rewrite !bool_decide_true.
    + now rewrite (bool_decide_false (id = y)).
  - rewrite hasId_of_arr in Hh. apply bool_decide_eq_true in Hh.
    destruct (splice_remove_indexOf id l Hh) as [-> Hk].
    rewrite !hasId_of_arr, <- bool_decide_not, <- bool_decide_and.
    apply bool_decide_ext. now apply elem_of_delete_NoDup.
Qed.

(** X8. When the ids of a node are pairwise distinct, a successful
    [removeId id] makes [hasId id] false and leaves the answer for every
    other string as it was; the ids that remain are still distinct. *)
Theorem removeId_then_hasId (s : State) (this : iref) (v : IdVal)
    (id : string) :
  id_of s this = Some v -> hasId_of v id = true -> distinct_ids v ->
  exists s' v',
    removeId this id s = (Normal tt, s') /\
    id_of s' this = Some v' /\ distinct_ids v' /\
    forall y, hasId this y s' =
              (Normal (hasId_of v y && negb (bool_decide (y = id))), s').
Proof.
  intros Hv Hh Hd. pose proof (removeId_run s this v id Hv) as H.
  rewrite Hh in H. destruct H as (s' & E & _ & Hid).
  exists s'. eexists. split; [exact E|]. split; [exact Hid|]. split.
  - destruct v as [|x|l]; try exact I. cbn [distinct_ids] in *.
    rewrite hasId_of_arr in Hh. apply bool_decide_eq_true in Hh.
    destruct (splice_remove_indexOf id l Hh) as [-> _].
    eapply sublist_NoDup; [exact Hd | apply sublist_delete].
  - intros y. rewrite (hasId_run _ _ _ y Hid).
    now rewrite (hasId_of_removed v id y Hh Hd).
Qed.

Lemma removeId_then_hasId_witness :
  exists s' v',
    removeId 4 "a" sample_ab = (Normal tt, s') /\
    id_of s' 4 = Some v' /\ distinct_ids v' /\
    forall y, hasId 4 y s' =
              (Normal (hasId_of (IdArr ["a"; "b"]) y
                       && negb (bool_decide (y = "a"))), s').
Proof.
  apply (removeId_then_hasId sample_ab 4 (IdArr ["a"; "b"]) "a");
    [reflexivity | reflexivity |].
  cbn. apply (bool_decide_unpack _). reflexivity.
Defined.

Lemma delete_appended {A} `{EqDecision A} (x : A) (l : list A) :
  x ∉ l -> splice_remove (indexOf x (l ++ [x])) (l ++ [x]) = l.
Proof.
  intros Hx.
  assert (Hin : x ∈ l ++ [x]).
  { apply elem_of_app. right. now apply list_elem_of_singleton. }
  destruct (splice_remove_indexOf x (l ++ [x]) Hin) as [-> Hk].
  assert (Z.to_nat (indexOf x (l ++ [x])) = length l) as ->.
  { destruct (Nat.lt_ge_cases (Z.to_nat (indexOf x (l ++ [x]))) (length l))
      as [Hlt|Hge].
    - rewrite lookup_app_l in Hk by exact Hlt.
      apply list_elem_of_lookup_2 in Hk. contradiction.
    - apply lookup_lt_Some in Hk. rewrite length_app in Hk.
      simpl length in Hk. lia. }
  clear Hk Hin Hx.
  induction l as [|y l IH]; [reflexivity|]. cbn. now f_equal.
Qed.

(** X9. [addId id] followed by [removeId id], for an id that was not there,
    gives back every answer of [hasId], provided [id] is not the empty
    string or the item has a non-empty id already: the empty string added to
    an item without an id is lost.  An array of ids comes back as it was; a
    scalar id comes back as a one-element array, and an empty-string id as a
    missing one. *)
Theorem addId_removeId_round_trip (s : State) (this : iref) (v : IdVal)
    (id : string) :
  id_of s this = Some v -> hasId_of v id = false ->
  id <> "" \/ falsy v = false ->
  exists s1 s2,
    addId this id s = (Normal tt, s1) /\
    removeId this id s1 = (Normal tt, s2) /\
    (forall y, hasId this y s2 = (Normal (hasId_of v y), s2)) /\
    id_of s2 this =
      Some (if falsy v then IdAbsent
            else match v with
                 | IdStr x => IdArr [x]
                 | _ => v
                 end).
Proof.
  intros Hv Hh Hc.
  destruct (addId_run s this v id Hv) as (s1 & E1 & _ & _ & _ & Hid1).
  rewrite Hh in Hid1.
  set (v1 := if falsy v then IdStr id else _) in Hid1.
  assert (Hh1 : hasId_of v1 id = true).
  { pose proof (hasId_of_added v id id Hc) as H. rewrite Hh in H.
    fold v1 in H. rewrite H, bool_decide_true by reflexivity.
    apply orb_true_r. }
  pose proof (removeId_run s1 this v1 id Hid1) as H. rewrite Hh1 in H.
  destruct H as (s2 & E2 & _ & Hid2).
  assert (Hv2 : match v1 with
                | IdStr _ => IdAbsent
                | IdArr l => IdArr (splice_remove (indexOf id l) l)
                | IdAbsent => v1
                end
                = if falsy v then IdAbsent
                  else match v with IdStr x => IdArr [x] | _ => v end).
  { subst v1. destruct (falsy v) eqn:Hf; [reflexivity|].
    destruct v as [|x|l]; [discriminate| |].
    - f_equal. apply (delete_appended id [x]).
      rewrite (hasId_of_str _ _ (falsy_str _ Hf)) in Hh.
      apply bool_decide_eq_false in Hh.
      now rewrite list_elem_of_singleton.
    - f_equal. apply delete_appended.
      rewrite hasId_of_arr in Hh. now apply bool_decide_eq_false in Hh. }
  rewrite Hv2 in Hid2.
  exists s1, s2. split; [exact E1|]. split; [exact E2|]. split.
  - intros y. rewrite (hasId_run _ _ _ y Hid2). do 2 f_equal.
    destruct (falsy v) eqn:Hf; [now rewrite (hasId_of_falsy v y Hf)|].
    destruct v as [|x|l]; [discriminate| |reflexivity].
    rewrite hasId_of_arr, (hasId_of_str _ _ (falsy_str _ Hf)).
    apply bool_decide_ext. rewrite list_elem_of_singleton.
    split; congruence.
  - exact Hid2.
Qed.

Lemma addId_removeId_round_trip_witness :
  exists s1 s2,
    addId 4 "c" sample_ab = (Normal tt, s1) /\
    removeId 4 "c" s1 = (Normal tt, s2) /\
    (forall y, hasId 4 y s2 = (Normal (hasId_of (IdArr ["a"; "b"]) y), s2)) /\
    id_of s2 4 =
      Some (if falsy (IdArr ["a"; "b"]) then IdAbsent
            else match IdArr ["a"; "b"] with
                 | IdStr x => IdArr [x]
                 | _ => IdArr ["a"; "b"]
                 end).
Proof.
  apply (addId_removeId_round_trip sample_ab 4 (IdArr ["a"; "b"]) "c");
    [reflexivity | reflexivity | left; discriminate].
Defined.

(** ** More on events *)

Lemma propagateEvent_dropped (n : nat) :
  forall s i name e,
    dropped n s i = true ->
    propagateEvent n i name (Some e) s = (Normal tt, s).
Proof.
  induction n as [|n IH]; intros s i name e Hd; [discriminate|].
  cbn in Hd |- *. unfold bind at 1, get_item at 1.
  destruct (items s !! i) as [it|]; [|discriminate].
  destruct (isPropagationStopped e); [reflexivity|]. cbn [negb andb].
  destruct (isInitialised it); [|reflexivity].
  destruct (if isRoot it then None else parent it) as [p|]; [|discriminate].
  now apply IH.
Qed.

Lemma dropped_with_trace n s t i :
  dropped n (with_trace t s) i = dropped n s i.
Proof.
  revert i. induction n as [|n IH]; intros i; [reflexivity|]. cbn.
  destruct (items s !! i) as [it|]; [|reflexivity].
  destruct (isInitialised it); [|reflexivity].
  destruct (if isRoot it then None else parent it); [apply IH | reflexivity].
Qed.

(** X10. A bubbling event is dropped at the first item on its way up that
    is not initialised: emitting at a node below such an item (or at the item
    itself) delivers nothing to the layout manager and queues nothing,
    whatever the name.  Destroying such a node therefore only detaches its
    element. *)
Theorem events_dropped_below_uninitialised (s : State) (fuel : nat)
    (i : iref) :
  dropped fuel s i = true ->
  (forall name, emitBubblingEvent fuel i name s = (Normal tt, s)) /\
  (forall it e,
     items s !! i = Some it -> element it = Some e ->
     _destroy fuel i s = (Normal tt, with_trace (trace s ++ [DomRemove e]) s)).
Proof.
  intros Hd.
  assert (He : forall name s1, dropped fuel s1 i = true ->
                 emitBubblingEvent fuel i name s1 = (Normal tt, s1)).
  { intros name s1 H. unfold emitBubblingEvent, emit.
    now apply propagateEvent_dropped. }
  split; [intros name; now apply He|].
  intros it e Hi Hel. unfold _destroy.
  rewrite (bind_run _ _ _ _ _ (He "beforeItemDestroyed" s Hd)).
  rewrite (bind_run _ _ _ _ _ (get_item_run _ _ _ Hi)). rewrite Hel.
  rewrite (bind_run _ _ s tt (with_trace (trace s ++ [DomRemove e]) s))
    by reflexivity.
  apply He. now rewrite dropped_with_trace.
Qed.

Lemma events_dropped_below_uninitialised_witness :
  (forall name,
     emitBubblingEvent 4 4 name sample_stack_uninitialised
     = (Normal tt, sample_stack_uninitialised)) /\
  (forall it e,
     items sample_stack_uninitialised !! 4%positive = Some it ->
     element it = Some e ->
     _destroy 4 4 sample_stack_uninitialised
     = (Normal tt,
        with_trace (trace sample_stack_uninitialised ++ [DomRemove e])
                   sample_stack_uninitialised)).
Proof.
  apply (events_dropped_below_uninitialised sample_stack_uninitialised 4 4).
  reflexivity.
Defined.

(** One window, run from its start. *)
Lemma window_run s fuel i r itr (n : nat) :
  top_of fuel s i = Some r -> items s !! r = Some itr ->
  _pendingEventPropagations itr !! "stateChanged" <> Some true ->
  frames s = [] ->
  window fuel i n s =
    (Normal tt,
     mkState
       (<[r := with_pending
                 (<["stateChanged" := false]>
                    (<["stateChanged" := true]>
                       (_pendingEventPropagations itr))) itr]> (items s))
       (configs s)
       (trace s ++ [LmEmit "stateChanged"
                           (PEvent (mkEvent "stateChanged" i false))])
       []).
Proof.
  intros Ht Hr Hp Hf. unfold window.
  pose proof (emit_batched_first _ _ _ _ _ Ht Hr Hp) as E1.
  set (it1 := with_pending _ itr) in E1.
  set (s1 := with_frames _ _) in E1.
  assert (Ht1 : top_of fuel s1 i = Some r).
  { unfold s1, it1. now rewrite (top_of_pending _ _ _ _ _ _ _ Hr). }
  assert (Hr1 : items s1 !! r = Some it1).
  { unfold s1. cbn. apply lookup_insert_eq. }
  assert (Hp1 : _pendingEventPropagations it1 !! "stateChanged" = Some true).
  { unfold it1. cbn. apply lookup_insert_eq. }
  assert (E : emit_all fuel i (replicate (S n) "stateChanged") s
              = (Normal tt, s1)).
  { unfold emit_all. cbn [replicate for_each].
    rewrite (bind_run _ _ _ _ _ E1).
    exact (emit_all_batched_again _ _ _ _ n _ Ht1 Hr1 Hp1). }
  rewrite (bind_run _ _ _ _ _ E).
  unfold runAnimationFrame, bind, get, modify. cbn [frames s1 with_frames].
  rewrite Hf. cbn [app for_each fr_this fr_name fr_event].
  unfold bind, propagateEventToLayoutManager, bind, get_item.
  cbn [items with_frames with_items]. rewrite Hr1.
  unfold put_item, tell, modify, ret. subst s1 it1. cbn.
  now rewrite insert_insert_eq.
Qed.

(** X11. Batching starts afresh after every animation frame: the delivery
    resets the pending mark, so each window in which stateChanged is emitted,
    however often, ends with exactly one delivery, and a run of windows
    delivers one event per window. *)
Theorem stateChanged_once_per_window (s : State) (fuel : nat) (i r : iref)
    (itr : Item) (ns : list nat) :
  top_of fuel s i = Some r -> items s !! r = Some itr ->
  _pendingEventPropagations itr !! "stateChanged" <> Some true ->
  frames s = [] ->
  exists s',
    for_each (window fuel i) ns s = (Normal tt, s') /\
    deliveries (trace s') =
      deliveries (trace s)
      ++ replicate (length ns)
           ("stateChanged", PEvent (mkEvent "stateChanged" i false)) /\
    frames s' = [].
Proof.
  revert s itr. induction ns as [|n ns IH]; intros s itr Ht Hr Hp Hf.
  - exists s. split; [reflexivity|]. cbn. now rewrite app_nil_r.
  - cbn [for_each].
    rewrite (bind_run _ _ _ _ _ (window_run s fuel i r itr n Ht Hr Hp Hf)).
    set (it1 := with_pending _ itr). set (s1 := mkState _ _ _ _).
    destruct (IH s1 it1) as (s' & E & Hd & Hf').
    + subst s1 it1. rewrite <- Ht. apply top_of_ext. intros j. cbn.
      destruct (decide (r = j)) as [<-|Hne].
      * now rewrite lookup_insert_eq, Hr.
      * now rewrite lookup_insert_ne.
    + apply lookup_insert_eq.
    + subst it1. cbn. rewrite lookup_insert_eq. discriminate.
    + reflexivity.
    + exists s'. split; [exact E|]. split; [|exact Hf'].
      rewrite Hd. subst s1. cbn [trace length replicate].
      rewrite deliveries_app, <- app_assoc. reflexivity.
Qed.

Lemma stateChanged_once_per_window_witness :
  exists s',
    for_each (window 4 4) [2; 0; 5] sample_layout = (Normal tt, s') /\
    deliveries (trace s') =
      deliveries (trace sample_layout)
      ++ replicate (length [2; 0; 5])
           ("stateChanged", PEvent (mkEvent "stateChanged" 4 false)) /\
    frames s' = [].
Proof.
  apply (stateChanged_once_per_window sample_layout 4 4 1
           (sample_item 11 "root" [2%positive] None true 21) [2; 0; 5]);
    [reflexivity | reflexivity | | reflexivity].
  cbn. rewrite lookup_empty. discriminate.
Defined.

(** ** More on the life cycle *)

(** X12. [_$destroy] on a node whose events reach the layout manager does
    three things in this order: it delivers beforeItemDestroyed, detaches the
    element, and delivers itemDestroyed, both with the node as payload; it
    changes nothing else.  On a node that has no element it throws after the
    first delivery has been made. *)
Theorem destroy_effects (s : State) (fuel : nat) (i r : iref) (it : Item) :
  top_of fuel s i = Some r -> items s !! i = Some it ->
  _destroy fuel i s =
    match element it with
    | Some e =>
        (Normal tt,
         with_trace (trace s ++ [LmEmit "beforeItemDestroyed" (POrigin i);
                                 DomRemove e;
                                 LmEmit "itemDestroyed" (POrigin i)]) s)
    | None =>
        (Throw TypeError,
         with_trace (trace s ++ [LmEmit "beforeItemDestroyed" (POrigin i)]) s)
    end.
Proof.
  intros Ht Hi. unfold _destroy.
  rewrite (bind_run _ _ _ _ _
             (emit_immediate s fuel i r "beforeItemDestroyed" Ht
                ltac:(discriminate))).
  set (s1 := with_trace _ s).
  rewrite (bind_run _ _ _ _ _ (get_item_run s1 i it Hi)).
  destruct (element it) as [e|]; [|reflexivity].
  rewrite (bind_run _ _ s1 tt (with_trace (trace s1 ++ [DomRemove e]) s1))
    by reflexivity.
  rewrite (emit_immediate _ fuel i r "itemDestroyed");
    [|subst s1; now rewrite !top_of_with_trace|discriminate].
  subst s1. destruct s. cbn. now rewrite <- !app_assoc.
Qed.

Lemma destroy_effects_witness :
  _destroy 4 4 sample_layout =
    match element (sample_item 14 "component" [] (Some 3%positive) false 24)
    with
    | Some e =>
        (Normal tt,
         with_trace (trace sample_layout
                     ++ [LmEmit "beforeItemDestroyed" (POrigin 4);
                         DomRemove e;
                         LmEmit "itemDestroyed" (POrigin 4)]) sample_layout)
    | None =>
        (Throw TypeError,
         with_trace (trace sample_layout
                     ++ [LmEmit "beforeItemDestroyed" (POrigin 4)])
                    sample_layout)
    end.
Proof.
  apply (destroy_effects sample_layout 4 4 1
           (sample_item 14 "component" [] (Some 3%positive) false 24));
    reflexivity.
Defined.

Lemma append_DomAppend_run s this (l : list iref) :
  Forall (fun c => is_Some (items s !! c)) l ->
  forall s1, items s1 = items s ->
    for_each (fun c => ch <- get_item c ;; tell (DomAppend this (element ch)))
             l s1
    = (Normal tt,
       with_trace (trace s1 ++ map (fun c => DomAppend this (element_of s c)) l)
                  s1).
Proof.
  induction 1 as [|c l [ch Hc] _ IH]; intros s1 E.
  - cbn. unfold ret. destruct s1; cbn. now rewrite app_nil_r.
  - cbn [for_each map].
    rewrite (bind_run _ _ s1 tt
               (with_trace (trace s1 ++ [DomAppend this (element ch)]) s1)).
    + rewrite IH by exact E. unfold element_of at 2. rewrite Hc.
      destruct s1; cbn. now rewrite <- app_assoc.
    + now rewrite (bind_run _ _ _ _ _ (get_item_run s1 c ch
                     ltac:(rewrite E; exact Hc))).
Qed.

(** [_$init], to the last field. *)
Lemma init_exact (s : State) (fuel : nat) (n r : iref) (nit : Item) :
  items s !! n = Some nit ->
  Forall (fun c => is_Some (items s !! c)) (contentItems nit) ->
  top_of fuel
    (with_items (<[n := with_isInitialised true nit]> (items s)) s) n
  = Some r ->
  _init fuel n s =
    (Normal tt,
     mkState
       (<[n := with_isInitialised true nit]> (items s))
       (configs s)
       (trace s
        ++ Call n "setSize" []
           :: map (fun c => DomAppend n (element_of s c)) (contentItems nit)
        ++ [LmEmit "itemCreated" (POrigin n);
            LmEmit (type nit +:+ "Created") (POrigin n)])
       (frames s)).
Proof.
  intros Hn Hch Ht. unfold _init.
  rewrite (bind_run _ _ s tt (with_trace (trace s ++ [Call n "setSize" []]) s))
    by reflexivity.
  set (s1 := with_trace _ s).
  rewrite (bind_run _ _ _ _ _ (get_item_run s1 n nit Hn)).
  rewrite (bind_run _ _ _ _ _
             (append_DomAppend_run s n (contentItems nit) Hch s1 eq_refl)).
  set (s2 := with_trace _ s1).
  rewrite (bind_run _ _ _ _ _ (get_item_run s2 n nit Hn)).
  unfold put_item at 1, modify at 1. unfold bind at 1. cbv beta iota.
  set (s3 := with_items _ s2).
  assert (Ht3 : forall t, top_of fuel (with_trace t s3) n = Some r).
  { intros t. rewrite <- Ht. now apply top_of_ext. }
  rewrite (bind_run _ _ _ _ _
             (emit_immediate s3 fuel n r "itemCreated"
                ltac:(rewrite <- (Ht3 (trace s3)); now apply top_of_ext)
                ltac:(discriminate))).
  rewrite (emit_immediate _ fuel n r (type nit +:+ "Created") (Ht3 _)
             (append_Created_not_stateChanged _)).
  subst s3 s2 s1. destruct s. cbn. f_equal. f_equal.
  rewrite <- !app_assoc. reflexivity.
Qed.

(** X13. [_$init] sizes the node, appends the element of each child in
    order, marks the node initialised, and then delivers itemCreated and
    <type>Created with the node as payload.  Because the mark is set before
    the events are emitted, they are delivered although the node was not
    initialised when the call started; what is needed is that the way up from
    the node is initialised. *)
Theorem init_effects (s : State) (fuel : nat) (n r : iref) (nit : Item) :
  items s !! n = Some nit ->
  Forall (fun c => is_Some (items s !! c)) (contentItems nit) ->
  top_of fuel
    (with_items (<[n := with_isInitialised true nit]> (items s)) s) n
  = Some r ->
  _init fuel n s =
    (Normal tt,
     mkState
       (<[n := with_isInitialised true nit]> (items s))
       (configs s)
       (trace s
        ++ Call n "setSize" []
           :: map (fun c => DomAppend n (element_of s c)) (contentItems nit)
        ++ [LmEmit "itemCreated" (POrigin n);
            LmEmit (type nit +:+ "Created") (POrigin n)])
       (frames s)).
Proof. exact (init_exact s fuel n r nit). Qed.

Lemma init_effects_witness :
  _init 4 3 sample_stack_uninitialised =
    (Normal tt,
     mkState
       (<[3%positive :=
            with_isInitialised true
              (with_isInitialised false
                 (sample_item 13 "stack" [4%positive] (Some 2%positive)
                    false 23))]>
          (items sample_stack_uninitialised))
       (configs sample_stack_uninitialised)
       (trace sample_stack_uninitialised
        ++ Call 3 "setSize" []
           :: map (fun c => DomAppend 3
                              (element_of sample_stack_uninitialised c))
                  [4%positive]
        ++ [LmEmit "itemCreated" (POrigin 3);
            LmEmit ("stack" +:+ "Created") (POrigin 3)])
       (frames sample_stack_uninitialised)).
Proof.
  apply (init_effects sample_stack_uninitialised 4 3 1
           (with_isInitialised false
              (sample_item 13 "stack" [4%positive] (Some 2%positive)
                 false 23)));
    [reflexivity | | reflexivity].
  repeat constructor. now exists (sample_item 14 "component" []
                                    (Some 3%positive) false 24).
Defined.

(** ** What a call leaves alone *)

Section Frame.

Variable R : State -> State -> Prop.
Hypothesis HR : Framing R.

Lemma keeps_ret {A} (a : A) : keeps R (ret a).
Proof. intros s. apply (rel_refl R HR). Qed.

Lemma keeps_throw {A} (e : Exn) : keeps R (@throw A e).
Proof. intros s. apply (rel_refl R HR). Qed.

Lemma keeps_stuck {A} : keeps R (@stuck A).
Proof. intros s. apply (rel_refl R HR). Qed.

Lemma keeps_bind {A B} (m : M A) (k : A -> M B) :
  keeps R m -> (forall a, keeps R (k a)) -> keeps R (bind m k).
Proof.
  intros Hm Hk s. unfold bind. specialize (Hm s).
  destruct (m s) as [[a|e|] s1]; cbn in *; [|assumption..].
  eapply (rel_trans R HR); [exact Hm | apply Hk].
Qed.

Lemma keeps_get_item (i : iref) : keeps R (get_item i).
Proof.
  intros s. unfold get_item.
  destruct (items s !! i); apply (rel_refl R HR).
Qed.

Lemma keeps_get_config (c : cref) : keeps R (get_config c).
Proof.
  intros s. unfold get_config.
  destruct (configs s !! c); apply (rel_refl R HR).
Qed.

Lemma keeps_this_config (i : iref) : keeps R (this_config i).
Proof.
  apply keeps_bind; [apply keeps_get_item|].
  intros it. apply keeps_get_config.
Qed.

Lemma keeps_tell (e : Effect) : keeps R (tell e).
Proof. intros s. apply (rel_structure R HR). now split. Qed.

Lemma keeps_animFrame (f : Frame) : keeps R (animFrame f).
Proof. intros s. apply (rel_structure R HR). now split. Qed.

(** What follows a read may rely on what was read. *)
Lemma keeps_read {B} (i : iref) (k : Item -> M B) :
  (forall it s, items s !! i = Some it -> R s (snd (k it s))) ->
  keeps R (bind (get_item i) k).
Proof.
  intros H s. unfold bind, get_item.
  destruct (items s !! i) as [it|] eqn:Hi; [now apply H|].
  apply (rel_refl R HR).
Qed.

Lemma keeps_write {B} (i : iref) (it' : Item) (k : M B) (s : State) :
  R s (with_items (<[i := it']> (items s)) s) -> keeps R k ->
  R s (snd ((put_item i it' ;;; k) s)).
Proof. intros H Hk. eapply (rel_trans R HR); [exact H | apply Hk]. Qed.

Lemma keeps_write_config {B} (c : cref) (x : ItemConfig.t) (k : M B)
    (s : State) :
  R s (with_configs (<[c := x]> (configs s)) s) -> keeps R k ->
  R s (snd ((put_config c x ;;; k) s)).
Proof. intros H Hk. eapply (rel_trans R HR); [exact H | apply Hk]. Qed.

(** Writing an item back with the shape it had. *)
Lemma keeps_mark (i : iref) (it it' : Item) (s : State) :
  items s !! i = Some it -> shape it' = shape it ->
  R s (with_items (<[i := it']> (items s)) s).
Proof.
  intros Hi Hs. apply (rel_structure R HR). split; [reflexivity|].
  intros j. cbn. destruct (decide (i = j)) as [<-|Hne].
  - rewrite lookup_insert_eq, Hi. cbn. now f_equal.
  - now rewrite lookup_insert_ne.
Qed.

Lemma keeps_for_each {A} (body : A -> M unit) (l : list A) :
  (forall x, keeps R (body x)) -> keeps R (for_each body l).
Proof.
  intros H. induction l as [|x l IH]; cbn [for_each].
  - apply keeps_ret.
  - apply keeps_bind; [apply H | intros _; exact IH].
Qed.

Lemma keeps_for_children (n : nat) (this : iref) (body : iref -> M unit) :
  (forall c, keeps R (body c)) ->
  forall i, keeps R (for_children n this i body).
Proof.
  intros H. induction n as [|n IH]; intros i; cbn [for_children];
    (apply keeps_bind; [apply keeps_get_item | intros it]);
    (destruct (contentItems it !! i); [|apply keeps_ret]).
  - apply keeps_stuck.
  - apply keeps_bind; [apply H | intros _; apply IH].
Qed.

Lemma keeps_propagateEventToLayoutManager this name e :
  keeps R (propagateEventToLayoutManager this name e).
Proof.
  unfold propagateEventToLayoutManager. apply keeps_read. intros it s Hi.
  apply keeps_write; [|apply keeps_tell].
  now apply (keeps_mark this it).
Qed.

Lemma keeps_schedule this name e :
  keeps R (scheduleEventPropagationToLayoutManager this name e).
Proof.
  unfold scheduleEventPropagationToLayoutManager.
  destruct (indexOf name _throttledEvents =? -1)%Z; [apply keeps_tell|].
  apply keeps_read. intros it s Hi.
  destruct (bool_decide _); [apply (rel_refl R HR)|].
  apply keeps_write; [|apply keeps_animFrame].
  now apply (keeps_mark this it).
Qed.

Lemma keeps_propagateEvent (n : nat) :
  forall this name e, keeps R (propagateEvent n this name e).
Proof.
  induction n as [|n IH]; intros this name e; cbn [propagateEvent].
  - apply keeps_stuck.
  - apply keeps_bind; [apply keeps_get_item | intros it].
    destruct e as [e|]; [|apply keeps_ret].
    destruct (negb (isPropagationStopped e) && isInitialised it);
      [|apply keeps_ret].
    destruct (if isRoot it then None else parent it) as [p|].
    + apply IH.
    + apply keeps_schedule.
Qed.

Lemma keeps_emitBubblingEvent fuel this name :
  keeps R (emitBubblingEvent fuel this name).
Proof. apply keeps_propagateEvent. Qed.

Lemma keeps_runAnimationFrame : keeps R runAnimationFrame.
Proof.
  unfold runAnimationFrame. intros s. unfold bind at 1, get at 1.
  unfold bind, modify. eapply (rel_trans R HR).
  - apply (rel_structure R HR s (with_frames [] s)). now split.
  - apply keeps_for_each. intros f.
    apply keeps_propagateEventToLayoutManager.
Qed.

Lemma keeps_destroy fuel this : keeps R (_destroy fuel this).
Proof.
  unfold _destroy.
  apply keeps_bind; [apply keeps_emitBubblingEvent | intros _].
  apply keeps_bind; [apply keeps_get_item | intros it].
  destruct (element it) as [e|]; [|apply keeps_throw].
  apply keeps_bind; [apply keeps_tell | intros _].
  apply keeps_emitBubblingEvent.
Qed.

Lemma keeps_init fuel this : keeps R (_init fuel this).
Proof.
  unfold _init.
  apply keeps_bind; [apply keeps_tell | intros _].
  apply keeps_bind; [apply keeps_get_item | intros it].
  apply keeps_bind.
  { apply keeps_for_each. intros c.
    apply keeps_bind; [apply keeps_get_item | intros ch; apply keeps_tell]. }
  intros _. apply keeps_read. intros it1 s Hi.
  apply keeps_write; [now apply (keeps_mark this it1)|].
  apply keeps_bind; [apply keeps_emitBubblingEvent | intros _].
  apply keeps_emitBubblingEvent.
Qed.

(** The dynamic call of [setSize] or of a life-cycle method.  The methods
    that write to a configuration object, such as [setTitle] and [addId],
    are not among them. *)
Lemma keeps_invoke fuel this name args :
  name = "setSize" \/ name = "_$destroy" \/ name = "_$init" ->
  keeps R (invoke fuel this name args).
Proof.
  intros Hn. unfold invoke. destruct (decide _); [apply keeps_destroy|].
  destruct (decide _); [apply keeps_init|].
  destruct (decide _); [apply keeps_tell|].
  exfalso. destruct Hn as [?|[?|?]]; contradiction.
Qed.

Lemma keeps_callDownwards_rec fuel (k : nat) name :
  name = "setSize" \/ name = "_$destroy" \/ name = "_$init" ->
  forall this args b skip,
    keeps R (callDownwards_rec fuel k this name args b skip).
Proof.
  intros Hn.
  induction k as [|k IH]; intros this args b skip;
    cbn [callDownwards_rec]; [apply keeps_stuck|].
  apply keeps_bind.
  { destruct (negb b && negb skip); [|apply keeps_ret].
    apply keeps_bind;
      [now apply keeps_invoke | intros _; now apply keeps_invoke]. }
  intros _. apply keeps_bind; [apply keeps_get_item | intros it].
  apply keeps_bind.
  { apply keeps_for_children. intros c. apply IH. }
  intros _.
  destruct (b && negb skip); [now apply keeps_invoke | apply keeps_ret].
Qed.

Lemma keeps_callDownwards fuel this name args b skip :
  name = "setSize" \/ name = "_$destroy" \/ name = "_$init" ->
  keeps R (callDownwards fuel this name args b skip).
Proof. intros Hn. now apply keeps_callDownwards_rec. Qed.

Lemma keeps_callDownwards_setSize fuel this args b skip :
  keeps R (callDownwards fuel this "setSize" args b skip).
Proof. apply keeps_callDownwards. now left. Qed.

Lemma keeps_callDownwards_destroy fuel this args b skip :
  keeps R (callDownwards fuel this "_$destroy" args b skip).
Proof. apply keeps_callDownwards. right. now left. Qed.

End Frame.

Lemma same_structure_framing : Framing same_structure.
Proof.
  split.
  - intros s. now split.
  - intros s1 s2 s3 [E1 H1] [E2 H2]. split; [congruence|].
    intros j. now rewrite H2, H1.
  - auto.
Qed.

Lemma same_links_framing : Framing same_links.
Proof.
  split.
  - intros s j. reflexivity.
  - intros s1 s2 s3 H1 H2 j. now rewrite H2, H1.
  - intros s s' [_ H] j. specialize (H j).
    destruct (items s' !! j) as [a|], (items s !! j) as [b|];
      try discriminate; [|reflexivity].
    cbn in *. unfold shape in H. unfold links. congruence.
Qed.

Lemma same_configs_framing : Framing same_configs.
Proof.
  split.
  - intros s. reflexivity.
  - intros s1 s2 s3 H1 H2. unfold same_configs in *. congruence.
  - intros s s' [H _]. exact H.
Qed.

(** X14. However it ends, a walk of [callDownwards] with [setSize], with
    [_$destroy] or with [_$init], the bodies of the two life-cycle methods
    and the events they emit included, re-arranges nothing: every
    configuration object and, of every item, the children, the parent, the
    configuration, the element and the type are what they were.  The same
    holds of [_$destroy], of [_$init], of [emitBubblingEvent] and of the
    animation frame on their own.  Walks with other method names are not
    covered: [setTitle], [addId] and [removeId] write to the configuration
    objects they visit, as [callDownwards_setTitle_rewrites_every_title]
    shows. *)
Theorem callDownwards_keeps_structure (fuel : nat) (this : iref)
    (name : string) (args : option (list string)) (bottomUp skipSelf : bool)
    (s : State) :
  same_structure s
    (snd (callDownwards fuel this "setSize" args bottomUp skipSelf s)) /\
  same_structure s
    (snd (callDownwards fuel this "_$destroy" args bottomUp skipSelf s)) /\
  same_structure s
    (snd (callDownwards fuel this "_$init" args bottomUp skipSelf s)) /\
  same_structure s (snd (_destroy fuel this s)) /\
  same_structure s (snd (_init fuel this s)) /\
  same_structure s (snd (emitBubblingEvent fuel this name s)) /\
  same_structure s (snd (runAnimationFrame s)).
Proof.
  pose proof same_structure_framing as HR.
  split; [apply (keeps_callDownwards _ HR); now left|].
  split; [apply (keeps_callDownwards _ HR); right; now left|].
  split; [apply (keeps_callDownwards _ HR); right; now right|].
  split; [apply (keeps_destroy _ HR)|].
  split; [apply (keeps_init _ HR)|].
  split; [apply (keeps_emitBubblingEvent _ HR)|].
  apply (keeps_runAnimationFrame _ HR).
Qed.

Lemma keeps_configs_put_item {B} (i : iref) (it' : Item) (k : M B) :
  keeps same_configs k -> keeps same_configs (put_item i it' ;;; k).
Proof.
  intros Hk s. apply (keeps_write _ same_configs_framing); [reflexivity|].
  exact Hk.
Qed.

(** X15. [replaceChild] never writes to a configuration object: however it
    ends, every configuration, and so the [config.content] of the receiver,
    is what it was before the call. *)
Theorem replaceChild_never_touches_configs (fuel : nat)
    (this oldChild newChild : iref) (destroyOldChild : bool) (s : State) :
  configs (snd (replaceChild fuel this oldChild newChild destroyOldChild s))
  = configs s.
Proof.
  pose proof same_configs_framing as HR.
  revert s.
  change (keeps same_configs
            (replaceChild fuel this oldChild newChild destroyOldChild)).
  unfold replaceChild, _normalizeContentItem, processChildReplaced.
  apply (keeps_bind _ HR); [apply (keeps_ret _ HR) | intros new].
  apply (keeps_bind _ HR); [apply (keeps_get_item _ HR) | intros it].
  apply (keeps_bind _ HR); [apply (keeps_get_item _ HR) | intros old].
  destruct (element old) as [oldEl|]; [|apply (keeps_throw _ HR)].
  destruct (indexOf oldChild (contentItems it) =? -1)%Z;
    [apply (keeps_throw _ HR)|].
  apply (keeps_bind _ HR); [apply (keeps_get_item _ HR) | intros nw].
  destruct (element nw) as [newEl|]; [|apply (keeps_throw _ HR)].
  apply (keeps_bind _ HR); [apply (keeps_tell _ HR) | intros _].
  apply (keeps_bind _ HR).
  { destruct destroyOldChild; [|apply (keeps_ret _ HR)].
    apply (keeps_bind _ HR); [apply (keeps_get_item _ HR) | intros old1].
    apply keeps_configs_put_item. apply (keeps_destroy _ HR). }
  intros _.
  apply (keeps_bind _ HR); [apply (keeps_get_item _ HR) | intros it1].
  apply keeps_configs_put_item.
  apply (keeps_bind _ HR); [apply (keeps_get_item _ HR) | intros new1].
  apply keeps_configs_put_item.
  apply (keeps_bind _ HR); [apply (keeps_ret _ HR) | intros _].
  apply (keeps_bind _ HR); [apply (keeps_get_item _ HR) | intros new2].
  destruct (parent new2) as [p|]; [|apply (keeps_throw _ HR)].
  apply (keeps_bind _ HR); [apply (keeps_get_item _ HR) | intros pit].
  apply (keeps_bind _ HR).
  { destruct (isInitialised pit && negb (isInitialised new2));
      [apply (keeps_init _ HR) | apply (keeps_ret _ HR)]. }
  intros _. apply (keeps_callDownwards_setSize _ HR).
Qed.

Lemma keeps_links_put_config {B} (c : cref) (x : ItemConfig.t) (k : M B) :
  keeps same_links k -> keeps same_links (put_config c x ;;; k).
Proof.
  intros Hk s. apply (keeps_write_config _ same_links_framing); [|exact Hk].
  intros j. reflexivity.
Qed.

Lemma same_links_put (i : iref) (it it' : Item) (s : State) :
  items s !! i = Some it -> links it' = links it ->
  same_links s (with_items (<[i := it']> (items s)) s).
Proof.
  intros Hi Hl j. cbn. destruct (decide (i = j)) as [<-|Hne].
  - rewrite lookup_insert_eq, Hi. cbn. now f_equal.
  - now rewrite lookup_insert_ne.
Qed.

Lemma keeps_links_removeChild_rec fuel (k : nat) :
  forall this c keepChild,
    keeps same_links (removeChild_rec fuel k this c keepChild).
Proof.
  pose proof same_links_framing as HR.
  induction k as [|k IH]; intros this c keepChild; cbn [removeChild_rec];
    [apply (keeps_stuck _ HR)|].
  apply (keeps_bind _ HR); [apply (keeps_get_item _ HR) | intros it].
  destruct (indexOf c (contentItems it) =? -1)%Z;
    [apply (keeps_throw _ HR)|].
  apply (keeps_bind _ HR).
  { destruct (negb keepChild); [|apply (keeps_ret _ HR)].
    destruct (contentItems it !! _) as [c0|]; [|apply (keeps_throw _ HR)].
    apply (keeps_bind _ HR); [apply (keeps_destroy _ HR) | intros _].
    apply (keeps_bind _ HR); [apply (keeps_get_item _ HR) | intros it1].
    destruct (contentItems it1 !! _) as [c1|]; [|apply (keeps_throw _ HR)].
    apply (keeps_callDownwards_destroy _ HR). }
  intros _. apply (keeps_read _ HR). intros it2 s Hi.
  apply (keeps_write _ HR); [now apply (same_links_put this it2)|].
  apply (keeps_bind _ HR); [apply (keeps_this_config _ HR) | intros cf].
  destruct (ItemConfig.content cf) as [l|]; [|apply (keeps_throw _ HR)].
  apply (keeps_bind _ HR); [apply (keeps_get_item _ HR) | intros it3].
  apply keeps_links_put_config.
  apply (keeps_bind _ HR); [apply (keeps_get_item _ HR) | intros it4].
  destruct (0 <? length (contentItems it4))%nat;
    [apply (keeps_callDownwards_setSize _ HR)|].
  apply (keeps_bind _ HR); [apply (keeps_this_config _ HR) | intros c4].
  destruct (negb (instanceofRoot it4) && ItemConfig.isClosable c4);
    [|apply (keeps_ret _ HR)].
  destruct (parent it4) as [p|]; [apply IH | apply (keeps_throw _ HR)].
Qed.

(** X16. [removeChild] takes entries out of [contentItems] and
    [config.content] and nothing more: however it ends, every item is still
    in the store with the parent, the configuration, the element and the type
    it had.  In particular the node that was removed, and every container
    that the cascade emptied, still names its former parent. *)
Theorem removeChild_never_unlinks (fuel : nat) (this c : iref)
    (keepChild : bool) (s : State) :
  same_links s (snd (removeChild fuel this c keepChild s)) /\
  forall j it,
    items s !! j = Some it ->
    exists it',
      items (snd (removeChild fuel this c keepChild s)) !! j = Some it' /\
      parent it' = parent it /\ config it' = config it /\
      element it' = element it.
Proof.
  assert (H : same_links s (snd (removeChild fuel this c keepChild s))).
  { apply keeps_links_removeChild_rec. }
  split; [exact H|]. intros j it Hj. specialize (H j). rewrite Hj in H.
  destruct (items _ !! j) as [it'|]; [|discriminate].
  exists it'. split; [reflexivity|]. cbn in H. unfold links in H.
  injection H as -> _ -> _ _ _ ->. auto.
Qed.

(** ** More of the mutation engine *)

Lemma undisplayChild_rec_store (k : nat) :
  forall this c s, snd (undisplayChild_rec k this c s) = s.
Proof.
  induction k as [|k IH]; intros this c s; [reflexivity|].
  cbn [undisplayChild_rec]. unfold bind at 1, get_item at 1.
  destruct (items s !! this) as [it|] eqn:Hi; [|reflexivity].
  destruct (indexOf c (contentItems it) =? -1)%Z; [reflexivity|].
  destruct (instanceofRoot it); [reflexivity|].
  unfold bind, this_config, bind, get_item, get_config. rewrite Hi.
  destruct (configs s !! config it) as [cf|]; [|reflexivity].
  destruct (ItemConfig.isClosable cf); [|reflexivity].
  destruct (parent it) as [p|]; [apply IH | reflexivity].
Qed.

Lemma undisplayChild_rec_listed (chain : list iref) :
  forall s c g k,
    listed_up s c chain g -> length chain < k ->
    undisplayChild_rec k (hd g chain) c s = (Normal tt, s).
Proof.
  induction chain as [|p rest IH]; intros s c g k Hl Hk;
    (destruct k as [|k]; [cbn in Hk; lia|]); cbn [hd undisplayChild_rec].
  - destruct Hl as (it & Hi & Hc & Hstop).
    rewrite (bind_run _ _ _ _ _ (get_item_run _ _ _ Hi)).
    assert (Hidx : indexOf c (contentItems it) <> (-1)%Z).
    { intros E%indexOf_absent. contradiction. }
    apply Z.eqb_neq in Hidx. rewrite Hidx.
    destruct (instanceofRoot it) eqn:Hroot; [reflexivity|].
    destruct Hstop as [?|(cf & Hcf & Hcl)]; [discriminate|].
    rewrite (bind_run _ _ _ _ _ (this_config_run _ _ _ _ Hi Hcf)).
    now rewrite Hcl.
  - destruct Hl as (it & cf & Hi & Hc & Hcf & Hroot & Hcl & Hpar & Hrest).
    rewrite (bind_run _ _ _ _ _ (get_item_run _ _ _ Hi)).
    assert (Hidx : indexOf c (contentItems it) <> (-1)%Z).
    { intros E%indexOf_absent. contradiction. }
    apply Z.eqb_neq in Hidx. rewrite Hidx, Hroot.
    rewrite (bind_run _ _ _ _ _ (this_config_run _ _ _ _ Hi Hcf)).
    rewrite Hcl, Hpar. apply IH; [exact Hrest | cbn in Hk; lia].
Qed.

(** X17. [undisplayChild] changes nothing: however it ends, the store, the
    recorded effects included, is what it was.  It throws the error of
    [removeChild] when the argument is not a child of the receiver, and
    otherwise walks up through the parents that are closable and not the root,
    checking at each that it lists the node below, and returns. *)
Theorem undisplayChild_changes_nothing (s : State) (fuel : nat)
    (this c : iref) :
  snd (undisplayChild fuel this c s) = s /\
  (forall it,
     items s !! this = Some it -> c ∉ contentItems it ->
     undisplayChild (S fuel) this c s =
       (Throw (Error "Can't remove child item. Unknown content item"), s)) /\
  (forall chain g,
     listed_up s c chain g -> hd g chain = this -> length chain < fuel ->
     undisplayChild fuel this c s = (Normal tt, s)).
Proof.
  split; [apply undisplayChild_rec_store|]. split.
  - intros it Hi Hc. unfold undisplayChild. cbn [undisplayChild_rec].
    rewrite (bind_run _ _ _ _ _ (get_item_run _ _ _ Hi)).
    apply indexOf_absent in Hc. now rewrite Hc.
  - intros chain g Hl <- Hk. now apply undisplayChild_rec_listed.
Qed.

Example undisplayChild_of_the_sample_layout :
  undisplayChild 4 3 4 sample_layout = (Normal tt, sample_layout) /\
  listed_up sample_layout 4 [3; 2]%positive 1.
Proof.
  split; [reflexivity|]. cbn.
  eexists _, _. split; [reflexivity|].
  split; [apply list_elem_of_singleton; reflexivity|].
  do 4 (split; [reflexivity|]).
  eexists _, _. split; [reflexivity|].
  split; [apply list_elem_of_singleton; reflexivity|].
  do 4 (split; [reflexivity|]).
  eexists. split; [reflexivity|].
  split; [apply list_elem_of_singleton; reflexivity|]. now left.
Qed.

(** [addChild] of a child that needs no initialising, to the last field. *)
Lemma addChild_exact (s : State) (fuel : nat) (this n : iref)
    (index : option Z) (it nit : Item) (c : ItemConfig.t) :
  items s !! this = Some it -> items s !! n = Some nit -> n <> this ->
  configs s !! config it = Some c ->
  isInitialised it && negb (isInitialised nit) = false ->
  addChild fuel this n index s =
    (Normal tt,
     mkState
       (<[n := with_parent (Some this) nit]>
          (<[this := with_contentItems
                       (splice_insert
                          (default (Z.of_nat (length (contentItems it))) index)
                          n (contentItems it)) it]> (items s)))
       (<[config it :=
            ItemConfig.with_content
              (Some (splice_insert
                       (default (Z.of_nat (length (contentItems it))) index)
                       (config nit) (default [] (ItemConfig.content c)))) c]>
          (configs s))
       (trace s) (frames s)).
Proof.
  intros Hi Hn Hne Hc Hb.
  set (i := default (Z.of_nat (length (contentItems it))) index).
  set (it1 := with_contentItems (splice_insert i n (contentItems it)) it).
  set (l1 := default [] (ItemConfig.content c)).
  set (c2 := ItemConfig.with_content
               (Some (splice_insert i (config nit) l1)) c).
  set (nit1 := with_parent (Some this) nit).
  unfold addChild. rewrite (bind_run _ _ _ _ _ (get_item_run _ _ _ Hi)).
  fold i. fold it1.
  unfold put_item at 1, modify at 1. unfold bind at 1. cbv beta iota.
  set (sA := with_items (<[this := it1]> (items s)) s).
  assert (HA : items sA !! this = Some it1) by apply lookup_insert_eq.
  assert (HAn : items sA !! n = Some nit).
  { subst sA. cbn. now rewrite lookup_insert_ne by congruence. }
  rewrite (bind_run _ _ _ _ _ (this_config_run sA this it1 c HA Hc)).
  assert (exists sB c1,
            (match ItemConfig.content c with
             | None => put_config (config it)
                         (ItemConfig.with_content (Some []) c)
             | Some _ => ret tt
             end) sA = (Normal tt, sB) /\
            items sB = items sA /\ trace sB = trace s /\
            frames sB = frames s /\
            configs sB !! config it = Some c1 /\
            ItemConfig.content c1 = Some l1 /\
            ItemConfig.with_content
              (Some (splice_insert i (config nit) l1)) c1 = c2 /\
            (<[config it := c2]> (configs sB)
             = <[config it := c2]> (configs s)))
    as (sB & c1 & EB & EiB & EtB & EfB & HcB & Hl1 & Ec2 & Ecfg).
  { subst l1 c2. destruct (ItemConfig.content c) as [l|] eqn:Hl.
    - exists sA, c. split; [reflexivity|]. do 3 (split; [reflexivity|]).
      split; [exact Hc|]. split; [exact Hl|]. split; reflexivity.
    - eexists _, _. split; [reflexivity|]. do 3 (split; [reflexivity|]).
      split; [apply lookup_insert_eq|]. split; [reflexivity|].
      split; [reflexivity|]. cbn. apply insert_insert_eq. }
  rewrite (bind_run _ _ _ _ _ EB).
  rewrite (bind_run _ _ _ _ _ (this_config_run sB this it1 c1
             ltac:(rewrite EiB; exact HA) HcB)).
  rewrite (bind_run _ _ _ _ _ (get_item_run sB n nit
             ltac:(rewrite EiB; exact HAn))).
  rewrite Hl1, Ec2.
  unfold put_config at 1, modify at 1. unfold bind at 1. cbv beta iota.
  set (sC := with_configs _ sB).
  assert (HCn : items sC !! n = Some nit) by (cbn; rewrite EiB; exact HAn).
  rewrite (bind_run _ _ _ _ _ (get_item_run sC n nit HCn)).
  unfold put_item at 1, modify at 1. unfold bind at 1. cbv beta iota.
  fold nit1. set (sD := with_items _ sC).
  assert (HDn : items sD !! n = Some nit1) by apply lookup_insert_eq.
  assert (HDt : items sD !! this = Some it1).
  { subst sD. cbn. rewrite lookup_insert_ne by congruence.
    rewrite EiB. exact HA. }
  rewrite (bind_run _ _ _ _ _ (get_item_run sD n nit1 HDn)).
  cbn [parent nit1 with_parent].
  rewrite (bind_run _ _ _ _ _ (get_item_run sD this it1 HDt)).
  change (isInitialised it1) with (isInitialised it).
  change (isInitialised nit1) with (isInitialised nit).
  rewrite Hb. unfold ret. f_equal.
  subst sD sC. unfold with_items, with_configs. cbn.
  now rewrite EiB, Ecfg, EtB, EfB.
Qed.

Lemma splice_insert_end {A} (x : A) (l : list A) (m : nat) :
  length l <= m -> splice_insert (Z.of_nat m) x l = l ++ [x].
Proof.
  intros H. unfold splice_insert, splice_start.
  destruct (Z.ltb_spec (Z.of_nat m) 0); [lia|].
  replace (Z.to_nat (Z.min (Z.of_nat m) (Z.of_nat (length l))))
    with (length l) by lia.
  now rewrite firstn_all, drop_all.
Qed.

(** X18. [_$onDrop] appends: the dropped node becomes the last child of the
    receiver and points at it, and its configuration becomes the last entry
    of [config.content], provided [config.content] (taken as empty when
    undefined) is not longer than [contentItems]. *)
Theorem onDrop_appends (s : State) (fuel : nat) (this n : iref)
    (it nit : Item) (c : ItemConfig.t) :
  items s !! this = Some it -> items s !! n = Some nit -> n <> this ->
  configs s !! config it = Some c ->
  length (default [] (ItemConfig.content c)) <= length (contentItems it) ->
  (isInitialised it = true -> isInitialised nit = false ->
   Forall (fun ch => is_Some (items s !! ch)) (contentItems nit) /\
   depthb fuel
     (with_items (<[n := with_parent (Some this) nit]> (items s)) s) n
   = true) ->
  exists s' nit',
    _onDrop fuel this n s = (Normal tt, s') /\
    items s' !! this = Some (with_contentItems (contentItems it ++ [n]) it) /\
    configs s' !! config it =
      Some (ItemConfig.with_content
              (Some (default [] (ItemConfig.content c) ++ [config nit])) c) /\
    items s' !! n = Some nit' /\ parent nit' = Some this /\
    (forall j, j <> this -> j <> n -> items s' !! j = items s !! j).
Proof.
  intros Hi Hn Hne Hc Hlen Hinit.
  destruct (addChild_run s fuel this n None it nit c Hi Hn Hne Hc Hinit)
    as (s' & nit' & E & Ht & Hcf & Hn' & Hp & _ & _ & Hother & _).
  cbn [default] in Ht, Hcf.
  rewrite splice_insert_end in Ht by reflexivity.
  rewrite splice_insert_end in Hcf by exact Hlen.
  exists s', nit'. auto 10.
Qed.

Lemma onDrop_appends_witness :
  exists s' nit',
    _onDrop 4 1 5 sample_layout = (Normal tt, s') /\
    items s' !! 1%positive =
      Some (with_contentItems
              (contentItems (sample_item 11 "root" [2%positive] None true 21)
               ++ [5%positive])
              (sample_item 11 "root" [2%positive] None true 21)) /\
    configs s' !! config (sample_item 11 "root" [2%positive] None true 21) =
      Some (ItemConfig.with_content
              (Some (default []
                       (ItemConfig.content (sample_config [12%positive] true))
                     ++ [config (sample_item 15 "component" [] None false 25)]))
              (sample_config [12%positive] true)) /\
    items s' !! 5%positive = Some nit' /\ parent nit' = Some 1%positive /\
    (forall j, j <> 1%positive -> j <> 5%positive ->
               items s' !! j = items sample_layout !! j).
Proof.
  apply (onDrop_appends sample_layout 4 1 5
           (sample_item 11 "root" [2%positive] None true 21)
           (sample_item 15 "component" [] None false 25)
           (sample_config [12%positive] true));
    [reflexivity | reflexivity | discriminate | reflexivity | cbn; lia |].
  intros _ [=].
Defined.

(** [removeChild] with [keepChild] on a receiver at which the removals
    stop, to the last field but the recorded effects. *)
Lemma removeChild_keep_run (s : State) (fuel : nat) (g c : iref)
    (it : Item) (cf : ItemConfig.t) (cl : list cref) :
  items s !! g = Some it -> c ∈ contentItems it ->
  configs s !! config it = Some cf -> ItemConfig.content cf = Some cl ->
  (1 < length (contentItems it) \/ instanceofRoot it = true \/
   ItemConfig.isClosable cf = false) ->
  allb_below (fun _ => true) fuel s g = true ->
  exists tr,
    removeChild fuel g c true s =
      (Normal tt,
       mkState
         (<[g := with_contentItems
                   (splice_remove (indexOf c (contentItems it))
                                  (contentItems it)) it]> (items s))
         (<[config it :=
              ItemConfig.with_content
                (Some (splice_remove (indexOf c (contentItems it)) cl)) cf]>
            (configs s))
         tr (frames s)).
Proof.
  intros Hi Hc Hcf Hl Hstop Hg.
  destruct fuel as [|k]; [discriminate|].
  unfold removeChild. cbn [removeChild_rec].
  rewrite (bind_run _ _ _ _ _ (get_item_run _ _ _ Hi)).
  assert (Hidx : indexOf c (contentItems it) <> (-1)%Z).
  { intros E%indexOf_absent. contradiction. }
  apply Z.eqb_neq in Hidx. rewrite Hidx. cbn [negb].
  rewrite (bind_run _ _ s tt s) by reflexivity.
  rewrite (bind_run _ _ _ _ _ (get_item_run s g it Hi)).
  set (it' := with_contentItems _ it).
  unfold put_item at 1, modify at 1. unfold bind at 1. cbv beta iota.
  set (sA := with_items (<[g := it']> (items s)) s).
  assert (HA : items sA !! g = Some it') by apply lookup_insert_eq.
  rewrite (bind_run _ _ _ _ _ (this_config_run sA g it' cf HA Hcf)).
  rewrite Hl.
  rewrite (bind_run _ _ _ _ _ (get_item_run _ _ _ HA)).
  unfold put_config at 1, modify at 1. unfold bind at 1. cbv beta iota.
  set (cf' := ItemConfig.with_content _ cf).
  set (s2 := with_configs _ sA).
  assert (H2 : items s2 !! g = Some it') by exact HA.
  rewrite (bind_run _ _ _ _ _ (get_item_run _ _ _ H2)).
  destruct (0 <? length (contentItems it'))%nat eqn:Hlen.
  - assert (Hg2 : allb_below (fun _ => true) (S k) s2 g = true).
    { eapply (allb_below_pruned (fun _ => true) (fun _ => true) (S k) s s2);
        [|auto|exact Hg].
      apply (pruned_step s s g it _ _ (trace_only_refl s) Hi).
      apply splice_remove_subseteq. }
    apply allb_below_tree in Hg2 as (t & <- & Hr & Hh & _).
    rewrite (callDownwards_abstract (S k) None s2 t false false)
      by assumption.
    eexists. reflexivity.
  - rewrite (bind_run _ _ _ _ _ (this_config_run s2 g it' cf' H2
               ltac:(cbn; apply lookup_insert_eq))).
    change (instanceofRoot it') with (instanceofRoot it).
    change (ItemConfig.isClosable cf') with (ItemConfig.isClosable cf).
    assert (Hone : length (contentItems it) = 1).
    { pose proof (splice_remove_length c (contentItems it) Hc) as E.
      apply Nat.ltb_ge in Hlen. subst it'. cbn [contentItems
        with_contentItems] in Hlen. lia. }
    destruct Hstop as [?|[Hr|Hcl]]; [lia| |].
    + rewrite Hr. cbn [negb andb]. eexists. reflexivity.
    + rewrite Hcl, andb_false_r. eexists. reflexivity.
Qed.

Lemma splice_insert_delete {A} (x : A) (l : list A) (k : nat) :
  l !! k = Some x -> splice_insert (Z.of_nat k) x (delete k l) = l.
Proof.
  intros Hk. pose proof (lookup_lt_Some _ _ _ Hk) as Hlt.
  unfold splice_insert, splice_start.
  destruct (Z.ltb_spec (Z.of_nat k) 0) as [H|H]; [lia|].
  rewrite length_delete by eauto.
  replace (Z.to_nat (Z.min (Z.of_nat k) (Z.of_nat (length l - 1))))
    with k by lia.
  clear Hlt H. revert k Hk.
  induction l as [|y l IH]; intros [|k]; cbn; try discriminate.
  - now intros [= ->].
  - intros Hk. f_equal. now apply IH.
Qed.

Lemma configs_of_lookup s (l : list iref) (cl : list cref) k c nit :
  configs_of s l = Some cl -> l !! k = Some c -> items s !! c = Some nit ->
  cl !! k = Some (config nit).
Proof.
  revert cl k. induction l as [|x l IH]; intros cl k; [discriminate|].
  cbn. destruct (items s !! x) as [itx|] eqn:Hx; [|discriminate].
  destruct (configs_of s l) as [cs|]; [|discriminate].
  intros [= <-]. destruct k as [|k]; cbn.
  - intros [= ->] Hn. congruence.
  - intros Hk Hn. now apply (IH cs k).
Qed.

(** X19. Taking a child out with [removeChild(child, true)] and putting it
    back with [addChild] at the index it had restores the tree: when the
    receiver is where removals stop, its [config.content] lists the
    configurations of its children one for one, the child names the receiver
    as its parent and is initialised if the receiver is, the two calls
    complete and every item and every configuration object is what it was
    before. *)
Theorem removeChild_keep_then_addChild_back (s : State) (fuel : nat)
    (g c : iref) (it nit : Item) (cf : ItemConfig.t) (cl : list cref) :
  items s !! g = Some it -> items s !! c = Some nit -> c <> g ->
  c ∈ contentItems it -> parent nit = Some g ->
  configs s !! config it = Some cf -> ItemConfig.content cf = Some cl ->
  configs_of s (contentItems it) = Some cl ->
  (1 < length (contentItems it) \/ instanceofRoot it = true \/
   ItemConfig.isClosable cf = false) ->
  allb_below (fun _ => true) fuel s g = true ->
  (isInitialised it = true -> isInitialised nit = true) ->
  exists s1 s2,
    removeChild fuel g c true s = (Normal tt, s1) /\
    addChild fuel g c (Some (indexOf c (contentItems it))) s1
      = (Normal tt, s2) /\
    items s2 = items s /\ configs s2 = configs s /\ frames s2 = frames s.
Proof.
  intros Hi Hn Hne Hc Hpar Hcf Hl Hpl Hstop Hg Hinit.
  destruct (removeChild_keep_run s fuel g c it cf cl Hi Hc Hcf Hl Hstop Hg)
    as (tr & E1).
  destruct (splice_remove_indexOf c (contentItems it) Hc) as [Ek Hk].
  assert (Hkc : cl !! Z.to_nat (indexOf c (contentItems it))
                = Some (config nit)).
  { exact (configs_of_lookup s _ cl _ c nit Hpl Hk Hn). }
  assert (Ekc : splice_remove (indexOf c (contentItems it)) cl
                = delete (Z.to_nat (indexOf c (contentItems it))) cl).
  { unfold splice_remove. f_equal. apply splice_start_index.
    pose proof (lookup_lt_Some _ _ _ Hkc).
    pose proof (indexOf_range c (contentItems it)) as [E|?]; [|lia].
    apply indexOf_absent in E. contradiction. }
  rewrite Ek, Ekc in E1.
  set (k := Z.to_nat (indexOf c (contentItems it))) in *.
  set (it' := with_contentItems (delete k (contentItems it)) it) in E1.
  set (cf' := ItemConfig.with_content (Some (delete k cl)) cf) in E1.
  set (s1 := mkState _ _ _ _) in E1.
  assert (Hb : isInitialised it' && negb (isInitialised nit) = false).
  { change (isInitialised it') with (isInitialised it).
    destruct (isInitialised it); [|reflexivity].
    now rewrite Hinit. }
  pose proof (addChild_exact s1 fuel g c
                (Some (indexOf c (contentItems it))) it' nit cf'
                ltac:(apply lookup_insert_eq)
                ltac:(cbn; rewrite lookup_insert_ne by congruence; exact Hn)
                Hne ltac:(apply lookup_insert_eq) Hb) as E2.
  exists s1. eexists. split; [exact E1|]. split; [exact E2|].
  assert (Eidx : indexOf c (contentItems it) = Z.of_nat k).
  { subst k. pose proof (indexOf_range c (contentItems it)) as [E|?]; [|lia].
    apply indexOf_absent in E. contradiction. }
  cbn [default from_option id items configs frames s1 contentItems it'
       with_contentItems ItemConfig.content cf' ItemConfig.with_content
       config].
  rewrite Eidx, (splice_insert_delete c _ k Hk),
    (splice_insert_delete (config nit) cl k Hkc).
  split; [|split; [|reflexivity]].
  - rewrite insert_insert_eq.
    replace (with_parent (Some g) nit) with nit
      by (destruct nit; cbn in *; now subst).
    replace (with_contentItems (contentItems it) it') with it
      by (now destruct it).
    rewrite (insert_id (<[g := it]> (items s)) c nit)
      by (rewrite lookup_insert_ne by congruence; exact Hn).
    now apply insert_id.
  - rewrite insert_insert_eq.
    replace (ItemConfig.with_content (Some cl) cf') with cf
      by (destruct cf; cbn in *; now subst).
    now apply insert_id.
Qed.

Lemma removeChild_keep_then_addChild_back_witness :
  exists s1 s2,
    removeChild 4 1 3 true sample_two_stacks = (Normal tt, s1) /\
    addChild 4 1 3
      (Some (indexOf 3%positive
               (contentItems
                  (sample_item 11 "root" [2; 3]%positive None true 21))))
      s1 = (Normal tt, s2) /\
    items s2 = items sample_two_stacks /\
    configs s2 = configs sample_two_stacks /\
    frames s2 = frames sample_two_stacks.
Proof.
  apply (removeChild_keep_then_addChild_back sample_two_stacks 4 1 3
           (sample_item 11 "root" [2; 3]%positive None true 21)
           (sample_item 13 "stack" [5%positive] (Some 1%positive) false 23)
           (sample_config [12; 13]%positive true) [12; 13]%positive);
    try reflexivity.
  - discriminate.
  - apply elem_of_cons. right. apply list_elem_of_singleton. reflexivity.
  - left. cbn. lia.
Defined.

Lemma allb_below_ext (P : iref -> bool) (n : nat) :
  forall s s' i,
    (forall j, contentItems <$> items s' !! j
               = contentItems <$> items s !! j) ->
    allb_below P n s' i = allb_below P n s i.
Proof.
  induction n as [|n IH]; intros s s' i H; [reflexivity|]. cbn.
  specialize (H i) as Hi.
  destruct (items s' !! i) as [it'|], (items s !! i) as [it|];
    try discriminate; [|reflexivity].
  injection Hi as ->. f_equal.
  induction (contentItems it) as [|x l IHl]; [reflexivity|].
  cbn. now rewrite IHl, (IH s s' x H).
Qed.

(** X20. [replaceChild] on a child of the receiver, with both elements
    attached: the call completes; the new child stands in [contentItems]
    where the old one stood, all other entries and the length unchanged, and
    points at the receiver; the old child has lost its parent when it was to
    be destroyed and still names the receiver when it was not; the new child
    is initialised on the way when the receiver is and it was not; no other
    item and no configuration object changes. *)
Theorem replaceChild_puts_new_in_place (s : State) (fuel : nat)
    (this oldChild newChild : iref) (destroyOldChild : bool)
    (it oit nit : Item) (oe ne : Element) :
  items s !! this = Some it -> items s !! oldChild = Some oit ->
  items s !! newChild = Some nit ->
  oldChild ∈ contentItems it ->
  element oit = Some oe -> element nit = Some ne ->
  this <> oldChild -> this <> newChild -> oldChild <> newChild ->
  let k := Z.to_nat (indexOf oldChild (contentItems it)) in
  let it' := with_contentItems (<[k := newChild]> (contentItems it)) it in
  let oit' := if destroyOldChild then with_parent None oit else oit in
  let nit1 := with_parent (Some this) nit in
  let init := isInitialised it && negb (isInitialised nit) in
  (init = true ->
   Forall (fun ch => is_Some (items s !! ch)) (contentItems nit) /\
   depthb fuel
     (with_items (<[newChild := nit1]> (<[oldChild := oit']> (items s))) s)
     newChild = true) ->
  allb_below (fun _ => true) fuel
    (with_items (<[this := it']> (items s)) s) this = true ->
  exists s',
    replaceChild fuel this oldChild newChild destroyOldChild s
      = (Normal tt, s') /\
    items s' =
      <[newChild := if init then with_isInitialised true nit1 else nit1]>
        (<[this := it']> (<[oldChild := oit']> (items s))) /\
    configs s' = configs s /\ frames s' = frames s.
Proof.
  intros Hi Ho Hn Hin Hoe Hne Hto Htn Hon k it' oit' nit1 init Hinit Hall.
  assert (Hfuel : exists f, fuel = S f).
  { destruct fuel; [discriminate | eauto]. }
  unfold replaceChild, _normalizeContentItem, processChildReplaced.
  rewrite (bind_run _ _ s newChild s) by reflexivity.
  rewrite (bind_run _ _ _ _ _ (get_item_run _ _ _ Hi)).
  rewrite (bind_run _ _ _ _ _ (get_item_run _ _ _ Ho)). rewrite Hoe.
  assert (Hidx : indexOf oldChild (contentItems it) <> (-1)%Z).
  { intros E%indexOf_absent. contradiction. }
  apply Z.eqb_neq in Hidx. rewrite Hidx.
  rewrite (bind_run _ _ _ _ _ (get_item_run _ _ _ Hn)). rewrite Hne.
  rewrite (bind_run _ _ s tt
             (with_trace (trace s ++ [DomReplaceChild ne oe]) s))
    by reflexivity.
  set (s1 := with_trace _ s).
  (* the old child *)
  assert (exists s2,
            (if destroyOldChild then
               old1 <- get_item oldChild ;;
               put_item oldChild (with_parent None old1) ;;;
               _destroy fuel oldChild
             else ret tt) s1 = (Normal tt, s2) /\
            items s2 = <[oldChild := oit']> (items s) /\
            configs s2 = configs s /\ frames s2 = frames s)
    as (s2 & E2 & Ei2 & Ec2 & Ef2).
  { subst oit'. destruct destroyOldChild.
    - rewrite (bind_run _ _ _ _ _ (get_item_run s1 oldChild oit Ho)).
      unfold put_item at 1, modify at 1. unfold bind at 1. cbv beta iota.
      set (sA := with_items _ s1).
      destruct (destroy_quiet fuel sA oldChild) with (s := sA)
        as (s2 & E & (Ei & Ec & Ef)).
      + unfold destroyable. subst sA. cbn [items with_items].
        rewrite lookup_insert_eq. cbn [element with_parent]. rewrite Hoe.
        destruct Hfuel as [f ->]. cbn. now rewrite lookup_insert_eq.
      + apply trace_only_refl.
      + exists s2. split; [exact E|]. now rewrite Ei, Ec, Ef.
    - exists s1. split; [reflexivity|]. cbn.
      now rewrite insert_id by exact Ho. }
  rewrite (bind_run _ _ _ _ _ E2).
  (* the receiver *)
  assert (H2t : items s2 !! this = Some it).
  { rewrite Ei2, lookup_insert_ne by congruence. exact Hi. }
  rewrite (bind_run _ _ _ _ _ (get_item_run _ _ _ H2t)). fold k. fold it'.
  unfold put_item at 1, modify at 1. unfold bind at 1. cbv beta iota.
  set (s3 := with_items _ s2).
  (* the new child *)
  assert (H3n : items s3 !! newChild = Some nit).
  { subst s3. cbn [items with_items].
    rewrite Ei2, !lookup_insert_ne by congruence. exact Hn. }
  rewrite (bind_run _ _ _ _ _ (get_item_run _ _ _ H3n)). fold nit1.
  unfold put_item at 1, modify at 1. unfold bind at 1. cbv beta iota.
  set (s4 := with_items _ s3).
  rewrite (bind_run _ _ s4 tt s4) by reflexivity.
  assert (H4n : items s4 !! newChild = Some nit1) by apply lookup_insert_eq.
  assert (H4t : items s4 !! this = Some it').
  { subst s4 s3. cbn [items with_items].
    rewrite lookup_insert_ne by congruence. apply lookup_insert_eq. }
  assert (E4 : items s4
               = <[newChild := nit1]>
                   (<[this := it']> (<[oldChild := oit']> (items s)))).
  { subst s4 s3. cbn [items with_items]. now rewrite Ei2. }
  rewrite (bind_run _ _ _ _ _ (get_item_run _ _ _ H4n)).
  cbn [parent nit1 with_parent].
  rewrite (bind_run _ _ _ _ _ (get_item_run _ _ _ H4t)).
  change (isInitialised it') with (isInitialised it).
  change (isInitialised nit1) with (isInitialised nit). fold init.
  assert (exists s5,
            (if init then _init fuel newChild else ret tt) s4
              = (Normal tt, s5) /\
            items s5 =
              <[newChild := if init then with_isInitialised true nit1
                            else nit1]>
                (<[this := it']> (<[oldChild := oit']> (items s))) /\
            configs s5 = configs s /\ frames s5 = frames s)
    as (s5 & E5 & Ei5 & Ec5 & Ef5).
  { destruct init eqn:Hb.
    - destruct (Hinit eq_refl) as [Hch Hd].
      destruct (init_run fuel s4 newChild nit1 H4n) as (s5 & E & Ei & Ec & Ef).
      + eapply Forall_impl; [exact Hch|]. intros ch Hs. rewrite E4.
        rewrite !lookup_insert_is_Some'. auto.
      + rewrite <- Hd. apply depthb_ext. intros j. rewrite E4. cbn.
        destruct (decide (newChild = j)) as [<-|?];
          [now rewrite !lookup_insert_eq|].
        rewrite 2!(lookup_insert_ne _ newChild j) by assumption.
        destruct (decide (this = j)) as [<-|?].
        * rewrite lookup_insert_eq, lookup_insert_ne, Hi by congruence.
          reflexivity.
        * now rewrite (lookup_insert_ne _ this j).
      + exists s5. split; [exact E|]. rewrite Ei, Ec, Ef, E4.
        split; [apply insert_insert_eq|]. now split.
    - exists s4. split; [reflexivity|]. split; [exact E4|]. now split. }
  rewrite (bind_run _ _ _ _ _ E5).
  (* sizes *)
  assert (H5 : allb_below (fun _ => true) fuel s5 this = true).
  { etransitivity; [|exact Hall].
    apply allb_below_ext. intros j. rewrite Ei5. cbn.
    destruct (decide (newChild = j)) as [<-|?].
    - rewrite lookup_insert_eq, lookup_insert_ne, Hn by congruence.
      now destruct init.
    - rewrite (lookup_insert_ne _ newChild j) by assumption.
      destruct (decide (this = j)) as [<-|?];
        [now rewrite !lookup_insert_eq|].
      rewrite 2!(lookup_insert_ne _ this j) by assumption.
      destruct (decide (oldChild = j)) as [<-|?].
      + rewrite lookup_insert_eq, Ho. subst oit'.
        now destruct destroyOldChild.
      + now rewrite lookup_insert_ne. }
  apply allb_below_tree in H5 as (t & <- & Hr & Hh & _).
  rewrite (callDownwards_abstract fuel None s5 t false false)
      by assumption.
  eexists. split; [reflexivity|]. cbn [items configs frames with_trace].
  now rewrite Ec5, Ef5.
Qed.

Lemma replaceChild_puts_new_in_place_witness :
  let k := Z.to_nat (indexOf 4%positive
                       (contentItems
                          (sample_item 13 "stack" [4%positive]
                             (Some 2%positive) false 23))) in
  let it' :=
    with_contentItems
      (<[k := 5%positive]>
         (contentItems (sample_item 13 "stack" [4%positive]
                          (Some 2%positive) false 23)))
      (sample_item 13 "stack" [4%positive] (Some 2%positive) false 23) in
  let oit' :=
    if true
    then with_parent None
           (sample_item 14 "component" [] (Some 3%positive) false 24)
    else sample_item 14 "component" [] (Some 3%positive) false 24 in
  let nit1 :=
    with_parent (Some 3%positive)
      (with_isInitialised false
         (sample_item 15 "component" [] None false 25)) in
  let init :=
    isInitialised (sample_item 13 "stack" [4%positive] (Some 2%positive)
                     false 23)
    && negb (isInitialised
               (with_isInitialised false
                  (sample_item 15 "component" [] None false 25))) in
  exists s',
    replaceChild 4 3 4 5 true sample_uninitialised = (Normal tt, s') /\
    items s' =
      <[5%positive := if init then with_isInitialised true nit1 else nit1]>
        (<[3%positive := it']>
           (<[4%positive := oit']> (items sample_uninitialised))) /\
    configs s' = configs sample_uninitialised /\
    frames s' = frames sample_uninitialised.
Proof.
  apply (replaceChild_puts_new_in_place sample_uninitialised 4 3 4 5 true
           (sample_item 13 "stack" [4%positive] (Some 2%positive) false 23)
           (sample_item 14 "component" [] (Some 3%positive) false 24)
           (with_isInitialised false
              (sample_item 15 "component" [] None false 25))
           24%positive 25%positive);
    try reflexivity; try discriminate.
  - apply list_elem_of_singleton. reflexivity.
  - intros _. split; [constructor | reflexivity].
Defined.

(** ** Default resolution of item configurations *)

Lemma user_ind' (P : UserItemConfig.t -> Prop) :
  (forall ty content w h i closable ti reorder active cname,
     match content with
     | Some l => Forall P l
     | None => True
     end ->
     P (UserItemConfig.mk ty content w h i closable ti reorder active cname)) ->
  forall u, P u.
Proof.
  intros H. fix IH 1. intros [ty content w h i closable ti reorder active cname].
  apply H. destruct content as [l|]; [|exact I].
  induction l as [|x l IHl]; constructor; [apply IH | exact IHl].
Qed.

(** The outcome of [resolveDefaults] in terms of the outcome for the
    content. *)
Lemma resolveDefaults_node ty content w h i closable ti reorder active cname :
  UserItemConfig.resolveDefaults
    (UserItemConfig.mk ty content w h i closable ti reorder active cname)
  = match ty, cname with
    | UserItemConfig.component, None =>
        inl (Error "UserJsonComponentConfig.componentName is undefined")
    | UserItemConfig.react_component, None =>
        inl (Error "UserReactComponentConfig.componentName is undefined")
    | _, _ =>
        match resolveContentDefaults content with
        | inl e => inl e
        | inr rs =>
            inr (UserItemConfig.mkResolved ty rs
                   (default 50%Z w) (default 50%Z h)
                   (default (IdStr "") i) (default true closable)
                   (default true reorder)
                   (match ty, cname with
                    | UserItemConfig.component, Some n
                    | UserItemConfig.react_component, Some n => default n ti
                    | _, _ => default "" ti
                    end)
                   (default (-1)%Z active)
                   (match ty, cname with
                    | UserItemConfig.component, Some n => Some n
                    | UserItemConfig.react_component, Some _ =>
                        Some UserItemConfig.REACT_COMPONENT_ID
                    | _, _ => None
                    end))
        end
    end.
Proof.
  cbn [UserItemConfig.resolveDefaults]. fold resolve_each.
  destruct content as [l|]; cbn [resolveContentDefaults];
    destruct ty, cname; try reflexivity;
    destruct (resolve_each l); reflexivity.
Qed.

Lemma resolveContentDefaults_named (content : option (list UserItemConfig.t)) :
  match content with
  | Some l =>
      Forall (fun u => (exists r, UserItemConfig.resolveDefaults u = inr r)
                       <-> named u = true) l
  | None => True
  end ->
  (exists rs, resolveContentDefaults content = inr rs) <->
  match content with
  | None => true
  | Some l => forallb named l
  end = true.
Proof.
  destruct content as [l|]; cbn; [|intros _; split; eauto].
  induction 1 as [|x l Hx _ IH]; cbn; [split; eauto|].
  rewrite andb_true_iff, <- Hx, <- IH.
  destruct (UserItemConfig.resolveDefaults x) as [e|r].
  - split; [intros [rs [=]] | intros [[r [=]] _]].
  - destruct (resolve_each l) as [e|rs].
    + split; [intros [rs [=]] | intros [_ [rs [=]]]].
    + split; eauto.
Qed.

Lemma resolveDefaults_named (u : UserItemConfig.t) :
  (exists r, UserItemConfig.resolveDefaults u = inr r) <-> named u = true.
Proof.
  induction u as [ty content w h i closable ti reorder active cname IH]
    using user_ind'.
  rewrite resolveDefaults_node. cbn [named]. rewrite andb_true_iff.
  rewrite <- (resolveContentDefaults_named content IH).
  destruct (resolveContentDefaults content) as [e|rs];
    destruct ty, cname; cbn;
    (split;
     [intros [r Hr]; first [discriminate Hr | split; [reflexivity | eauto]]
     |intros [Ht [rs' Hrs]];
      first [discriminate Ht | discriminate Hrs | eauto]]).
Qed.

Lemma resolveDefaults_errors (u : UserItemConfig.t) (e : Exn) :
  UserItemConfig.resolveDefaults u = inl e ->
  e = Error "UserJsonComponentConfig.componentName is undefined" \/
  e = Error "UserReactComponentConfig.componentName is undefined".
Proof.
  revert e.
  induction u as [ty content w h i closable ti reorder active cname IH]
    using user_ind'.
  intros e. rewrite resolveDefaults_node.
  assert (Hc : forall e', resolveContentDefaults content = inl e' ->
            e' = Error "UserJsonComponentConfig.componentName is undefined" \/
            e' = Error "UserReactComponentConfig.componentName is undefined").
  { destruct content as [l|]; cbn; [|discriminate].
    induction IH as [|x l Hx _ IHl]; cbn; [discriminate|].
    intros e'. destruct (UserItemConfig.resolveDefaults x) as [ex|r].
    - intros [= <-]. now apply Hx.
    - destruct (resolve_each l) as [el|rs]; [|discriminate].
      intros [= <-]. now apply IHl. }
  destruct (resolveContentDefaults content) as [e'|rs];
    destruct ty, cname; intros [= <-]; auto.
Qed.

(** X21. [UserItemConfig.resolveDefaults] returns exactly when every
    component and react-component of the configuration, at any depth, has a
    [componentName]; otherwise it throws, and what it throws is one of the two
    errors about an undefined componentName. *)
Theorem resolveDefaults_fails_iff_unnamed (u : UserItemConfig.t) :
  ((exists r, UserItemConfig.resolveDefaults u = inr r) <-> named u = true) /\
  (forall e,
     UserItemConfig.resolveDefaults u = inl e ->
     named u = false /\
     (e = Error "UserJsonComponentConfig.componentName is undefined" \/
      e = Error "UserReactComponentConfig.componentName is undefined")).
Proof.
  split; [apply resolveDefaults_named|].
  intros e He. split; [|exact (resolveDefaults_errors u e He)].
  destruct (named u) eqn:Hn; [|reflexivity].
  apply resolveDefaults_named in Hn as [r Hr]. congruence.
Qed.

Example resolveDefaults_of_the_samples :
  (exists r, UserItemConfig.resolveDefaults sample_user = inr r) /\
  UserItemConfig.resolveDefaults sample_user_unnamed
  = inl (Error "UserJsonComponentConfig.componentName is undefined").
Proof. split; [eexists|]; reflexivity. Qed.

Lemma resolveContentDefaults_shape (content : option (list UserItemConfig.t))
    (rs : list UserItemConfig.resolved) :
  match content with
  | Some l =>
      Forall (fun u => forall r, UserItemConfig.resolveDefaults u = inr r ->
                                 resolved_shape r = user_shape u) l
  | None => True
  end ->
  resolveContentDefaults content = inr rs ->
  map resolved_shape rs
  = match content with
    | None => []
    | Some l => map user_shape l
    end.
Proof.
  destruct content as [l|]; cbn; [|now intros _ [= <-]].
  intros H. revert rs. induction H as [|x l Hx _ IH]; cbn; intros rs.
  - now intros [= <-].
  - destruct (UserItemConfig.resolveDefaults x) as [e|r]; [discriminate|].
    destruct (resolve_each l) as [e|rs']; [discriminate|].
    intros [= <-]. cbn. now rewrite (Hx r eq_refl), (IH rs' eq_refl).
Qed.

(** X22. Resolution keeps the tree: the resolved configuration has the
    shape of the user's, node for node with the same item type, a missing
    [content] standing for no children. *)
Theorem resolveDefaults_keeps_shape (u : UserItemConfig.t)
    (r : UserItemConfig.resolved) :
  UserItemConfig.resolveDefaults u = inr r ->
  resolved_shape r = user_shape u.
Proof.
  revert r.
  induction u as [ty content w h i closable ti reorder active cname IH]
    using user_ind'.
  intros r. rewrite resolveDefaults_node. cbn [user_shape].
  pose proof (resolveContentDefaults_shape content) as Hc.
  destruct (resolveContentDefaults content) as [e|rs];
    destruct ty, cname; intros [= <-]; cbn [resolved_shape];
    now rewrite (Hc rs IH eq_refl).
Qed.

Lemma resolveDefaults_keeps_shape_witness :
  exists r,
    UserItemConfig.resolveDefaults sample_user = inr r /\
    resolved_shape r = user_shape sample_user.
Proof.
  eexists. split; [reflexivity|].
  apply (resolveDefaults_keeps_shape sample_user). reflexivity.
Defined.

Lemma resolveContentDefaults_as_user
    (content : option (list UserItemConfig.t))
    (rs : list UserItemConfig.resolved) :
  match content with
  | Some l =>
      Forall (fun u => forall r,
                UserItemConfig.resolveDefaults u = inr r ->
                UserItemConfig.resolveDefaults (as_user r) = inr r) l
  | None => True
  end ->
  resolveContentDefaults content = inr rs ->
  resolveContentDefaults (Some (map as_user rs)) = inr rs.
Proof.
  destruct content as [l|]; cbn; [|now intros _ [= <-]].
  intros H. revert rs. induction H as [|x l Hx _ IH]; cbn; intros rs.
  - now intros [= <-].
  - destruct (UserItemConfig.resolveDefaults x) as [e|r]; [discriminate|].
    destruct (resolve_each l) as [e|rs']; [discriminate|].
    intros [= <-]. cbn. now rewrite (Hx r eq_refl), (IH rs' eq_refl).
Qed.

Lemma resolveDefaults_as_user (u : UserItemConfig.t)
    (r : UserItemConfig.resolved) :
  UserItemConfig.resolveDefaults u = inr r ->
  UserItemConfig.resolveDefaults (as_user r) = inr r.
Proof.
  revert r.
  induction u as [ty content w h i closable ti reorder active cname IH]
    using user_ind'.
  intros r. rewrite resolveDefaults_node.
  pose proof (resolveContentDefaults_as_user content) as Hc.
  destruct (resolveContentDefaults content) as [e|rs];
    destruct ty, cname; intros [= <-]; cbn [as_user];
    rewrite resolveDefaults_node, (Hc rs IH eq_refl); reflexivity.
Qed.

(** X23. Resolution is idempotent: a resolved item configuration, handed to
    [resolveDefaults] again, comes back unchanged, at every depth. *)
Theorem resolveDefaults_idempotent (u : UserItemConfig.t)
    (r : UserItemConfig.resolved) :
  UserItemConfig.resolveDefaults u = inr r ->
  UserItemConfig.resolveDefaults (as_user r) = inr r.
Proof. exact (resolveDefaults_as_user u r). Qed.

Lemma resolveDefaults_idempotent_witness :
  exists r,
    UserItemConfig.resolveDefaults sample_user = inr r /\
    UserItemConfig.resolveDefaults (as_user r) = inr r.
Proof.
  eexists. split; [reflexivity|].
  apply (resolveDefaults_idempotent sample_user). reflexivity.
Defined.

(** ** Default resolution of layout configurations *)

Lemma popout_ind' {Mode} (P : UserPopoutManagerConfig.t Mode -> Prop) :
  (forall content openPopouts dimensions settings labels maximisedItemId
          parentId indexInParent,
     match openPopouts with
     | Some l => Forall P l
     | None => True
     end ->
     P (UserPopoutManagerConfig.mk content openPopouts dimensions settings
          labels maximisedItemId parentId indexInParent)) ->
  forall u, P u.
Proof.
  intros H. fix IH 1. intros [c o d st lb mx pid idx].
  apply H. destruct o as [l|]; [|exact I].
  induction l as [|x l IHl]; constructor; [apply IH | exact IHl].
Qed.

Lemma popout_resolveDefaults_node {Mode} (onload : Mode)
    content openPopouts dimensions settings labels maximisedItemId
    parentId indexInParent :
  UserPopoutManagerConfig.resolveDefaults onload
    (UserPopoutManagerConfig.mk content openPopouts dimensions settings
       labels maximisedItemId parentId indexInParent)
  = match resolveContentDefaults content with
    | inl e => inl e
    | inr rc =>
        match resolveOpenPopouts onload openPopouts with
        | inl e => inl e
        | inr rp =>
            inr (PopoutManagerConfig.mk rc parentId indexInParent rp
                   (UserManagerConfig.Settings.resolveDefaults onload settings)
                   (UserManagerConfig.Labels.resolveDefaults labels)
                   (UserPopoutManagerConfig.Dimensions.resolveDefaults
                      (Some dimensions))
                   (default None maximisedItemId))
        end
    end.
Proof.
  cbn [UserPopoutManagerConfig.resolveDefaults].
  destruct (resolveContentDefaults content) as [e|rc]; [reflexivity|].
  destruct openPopouts as [ps|]; reflexivity.
Qed.

Lemma resolveContentDefaults_forallb
    (content : option (list UserItemConfig.t)) :
  (exists rs, resolveContentDefaults content = inr rs) <->
  forallb named (default [] content) = true.
Proof.
  destruct content as [l|]; cbn; [|split; eauto].
  induction l as [|x l IH]; cbn; [split; eauto|].
  rewrite andb_true_iff, <- (resolveDefaults_named x), <- IH.
  destruct (UserItemConfig.resolveDefaults x) as [e|r].
  - split; [intros [rs [=]] | intros [[r [=]] _]].
  - destruct (resolve_each l) as [e|rs].
    + split; [intros [rs [=]] | intros [_ [rs [=]]]].
    + split; eauto.
Qed.

Lemma resolveOpenPopouts_forallb {Mode} (onload : Mode)
    (l : list (UserPopoutManagerConfig.t Mode)) :
  Forall (fun u =>
            (exists r, UserPopoutManagerConfig.resolveDefaults onload u = inr r)
            <-> popout_named u = true) l ->
  (exists rs, resolve_each_popout onload l = inr rs) <->
  forallb popout_named l = true.
Proof.
  induction 1 as [|x l Hx _ IH]; cbn; [split; eauto|].
  rewrite andb_true_iff, <- Hx, <- IH.
  destruct (UserPopoutManagerConfig.resolveDefaults onload x) as [e|r].
  - split; [intros [rs [=]] | intros [[r [=]] _]].
  - destruct (resolve_each_popout onload l) as [e|rs].
    + split; [intros [rs [=]] | intros [_ [rs [=]]]].
    + split; eauto.
Qed.

Lemma popout_resolveDefaults_named {Mode} (onload : Mode)
    (u : UserPopoutManagerConfig.t Mode) :
  (exists r, UserPopoutManagerConfig.resolveDefaults onload u = inr r)
  <-> popout_named u = true.
Proof.
  induction u as [c o d st lb mx pid idx IH] using popout_ind'.
  rewrite popout_resolveDefaults_node. cbn [popout_named].
  rewrite andb_true_iff, <- (resolveContentDefaults_forallb c).
  assert (Ho : (exists rs, resolveOpenPopouts onload o = inr rs) <->
               match o with
               | Some l => forallb popout_named l
               | None => true
               end = true).
  { destruct o as [l|]; cbn; [|split; eauto].
    now apply resolveOpenPopouts_forallb. }
  rewrite <- Ho.
  destruct (resolveContentDefaults c) as [e|rc].
  - split; [intros [r [=]] | intros [[rs [=]] _]].
  - destruct (resolveOpenPopouts onload o) as [e|rp].
    + split; [intros [r [=]] | intros [_ [rs [=]]]].
    + split; eauto.
Qed.

(** X24. [UserConfig.resolveDefaults] returns exactly when every component
    of the layout names its component: those of the main window and those of
    every popout, the popouts that popouts open included.  Otherwise it
    throws. *)
Theorem layout_resolveDefaults_fails_iff_unnamed {Mode} (onload : Mode)
    (u : UserConfig.t Mode) :
  (exists c, UserConfig.resolveDefaults onload u = inr c) <->
  layout_named u = true.
Proof.
  unfold UserConfig.resolveDefaults, layout_named.
  rewrite andb_true_iff, <- (resolveContentDefaults_forallb _).
  assert (Ho : (exists rs, resolveOpenPopouts onload (UserConfig.openPopouts u)
                           = inr rs) <->
               forallb popout_named (default [] (UserConfig.openPopouts u))
               = true).
  { destruct (UserConfig.openPopouts u) as [l|]; cbn; [|split; eauto].
    apply resolveOpenPopouts_forallb, Forall_forall.
    intros x _. apply popout_resolveDefaults_named. }
  rewrite <- Ho.
  destruct (resolveContentDefaults (UserConfig.content u)) as [e|rc].
  - split; [intros [r [=]] | intros [[rs [=]] _]].
  - destruct (resolveOpenPopouts onload (UserConfig.openPopouts u)) as [e|rp].
    + split; [intros [r [=]] | intros [_ [rs [=]]]].
    + split; eauto.
Qed.

Example layout_resolveDefaults_of_the_sample :
  (exists c,
     UserConfig.resolveDefaults "onload" sample_user_layout = inr c) /\
  UserConfig.resolveDefaults "onload"
    (UserConfig.mk None
       (Some [UserPopoutManagerConfig.mk (Some [sample_user_unnamed]) None
                (UserPopoutManagerConfig.Dimensions.mk None None None None
                   None None None None None None None)
                None None None "left" 0%Z])
       None None None None)
  = inl (Error "UserJsonComponentConfig.componentName is undefined").
Proof. split; [eexists|]; reflexivity. Qed.

Lemma resolve_each_as_user (l : list UserItemConfig.t)
    (rs : list UserItemConfig.resolved) :
  resolve_each l = inr rs -> resolve_each (map as_user rs) = inr rs.
Proof.
  intros H.
  apply (resolveContentDefaults_as_user (Some l) rs); [|exact H].
  apply Forall_forall. intros u _ r. apply resolveDefaults_as_user.
Qed.

Lemma resolveContentDefaults_idem (content : option (list UserItemConfig.t))
    (rs : list UserItemConfig.resolved) :
  resolveContentDefaults content = inr rs ->
  resolveContentDefaults (Some (map as_user rs)) = inr rs.
Proof.
  destruct content as [l|]; cbn; [apply resolve_each_as_user|].
  now intros [= <-].
Qed.

Lemma settings_idem {Mode} (onload : Mode) (r : ManagerConfig.Settings.t Mode) :
  UserManagerConfig.Settings.resolveDefaults onload (Some (settings_as_user r))
  = r.
Proof. now destruct r. Qed.

Lemma dimensions_idem (r : ManagerConfig.Dimensions.t) :
  UserManagerConfig.Dimensions.resolveDefaults (Some (dimensions_as_user r))
  = r.
Proof. now destruct r. Qed.

Lemma labels_idem (r : ManagerConfig.Labels.t) :
  UserManagerConfig.Labels.resolveDefaults (Some (labels_as_user r)) = r.
Proof. now destruct r. Qed.

Lemma popout_dimensions_idem (r : PopoutManagerConfig.Dimensions.t) :
  UserPopoutManagerConfig.Dimensions.resolveDefaults
    (Some (popout_dimensions_as_user r)) = r.
Proof. destruct r as [? ? ? ? ? ? ? [w|] [h|] [x|] [y|]]; reflexivity. Qed.

Lemma resolve_each_popout_idem {Mode} (onload : Mode)
    (l : list (UserPopoutManagerConfig.t Mode)) :
  Forall (fun u => forall r,
            UserPopoutManagerConfig.resolveDefaults onload u = inr r ->
            UserPopoutManagerConfig.resolveDefaults onload (popout_as_user r)
            = inr r) l ->
  forall rs,
    resolve_each_popout onload l = inr rs ->
    resolve_each_popout onload (map popout_as_user rs) = inr rs.
Proof.
  induction 1 as [|x l Hx _ IH]; cbn; intros rs.
  - now intros [= <-].
  - destruct (UserPopoutManagerConfig.resolveDefaults onload x) as [e|r];
      [discriminate|].
    destruct (resolve_each_popout onload l) as [e|rs']; [discriminate|].
    intros [= <-]. cbn. now rewrite (Hx r eq_refl), (IH rs' eq_refl).
Qed.

Lemma popout_resolveDefaults_idem {Mode} (onload : Mode)
    (u : UserPopoutManagerConfig.t Mode) (r : PopoutManagerConfig.t Mode) :
  UserPopoutManagerConfig.resolveDefaults onload u = inr r ->
  UserPopoutManagerConfig.resolveDefaults onload (popout_as_user r) = inr r.
Proof.
  revert r. induction u as [c o d st lb mx pid idx IH] using popout_ind'.
  intros r. rewrite popout_resolveDefaults_node.
  destruct (resolveContentDefaults c) as [e|rc] eqn:Hc; [discriminate|].
  destruct (resolveOpenPopouts onload o) as [e|rp] eqn:Ho; [discriminate|].
  intros [= <-]. cbn [popout_as_user]. rewrite popout_resolveDefaults_node.
  rewrite (resolveContentDefaults_idem c rc Hc).
  assert (resolveOpenPopouts onload (Some (map popout_as_user rp)) = inr rp)
    as ->.
  { destruct o as [l|]; cbn in Ho |- *.
    - now apply (resolve_each_popout_idem onload l).
    - now injection Ho as <-. }
  now rewrite settings_idem, labels_idem, popout_dimensions_idem.
Qed.

(** X25. Resolution of a whole layout is idempotent, and its result is told
    apart from a user configuration: a configuration that
    [UserConfig.resolveDefaults] returned comes back unchanged when resolved
    again (content, popouts, dimensions, settings and labels alike), and
    [isUserConfig] answers false for it. *)
Theorem layout_resolveDefaults_idempotent {Mode} (onload : Mode)
    (u : UserConfig.t Mode) (c : Config.t Mode) :
  UserConfig.resolveDefaults onload u = inr c ->
  UserConfig.resolveDefaults onload (config_as_user c) = inr c /\
  UserConfig.isUserConfig (inl c) = false /\
  UserConfig.isUserConfig (inr (config_as_user c)) = true.
Proof.
  unfold UserConfig.resolveDefaults at 1.
  destruct (resolveContentDefaults (UserConfig.content u)) as [e|rc] eqn:Hc;
    [discriminate|].
  destruct (resolveOpenPopouts onload (UserConfig.openPopouts u))
    as [e|rp] eqn:Ho; [discriminate|].
  intros [= <-]. split; [|split; reflexivity].
  unfold UserConfig.resolveDefaults, config_as_user.
  cbn [UserConfig.content UserConfig.openPopouts UserConfig.dimensions
       UserConfig.settings UserConfig.labels UserConfig.maximisedItemId
       Config.content Config.openPopouts Config.dimensions Config.settings
       Config.labels Config.maximisedItemId].
  rewrite (resolveContentDefaults_idem _ rc Hc).
  assert (resolveOpenPopouts onload (Some (map popout_as_user rp)) = inr rp)
    as ->.
  { destruct (UserConfig.openPopouts u) as [l|]; cbn in Ho |- *.
    - apply (resolve_each_popout_idem onload l); [|exact Ho].
      apply Forall_forall. intros x _ r. apply popout_resolveDefaults_idem.
    - now injection Ho as <-. }
  now rewrite settings_idem, labels_idem, dimensions_idem.
Qed.

Lemma layout_resolveDefaults_idempotent_witness :
  exists c,
    UserConfig.resolveDefaults "onload" sample_user_layout = inr c /\
    UserConfig.resolveDefaults "onload" (config_as_user c) = inr c /\
    UserConfig.isUserConfig (inl c) = false /\
    UserConfig.isUserConfig (inr (config_as_user c)) = true.
Proof.
  eexists. split; [reflexivity|].
  apply (layout_resolveDefaults_idempotent "onload" sample_user_layout).
  reflexivity.
Defined.

(** X26. The tables of defaults agree with one another: resolving the empty
    user configuration gives [defaultConfig]; and for every input, given or
    not, the dimensions resolved for a popout are, on the seven fields it
    shares with the main window, those the main window's resolver gives. *)
Theorem default_tables_agree {Mode} (onload : Mode) :
  UserConfig.resolveDefaults onload
    (UserConfig.mk None None None None None None)
  = inr (UserConfig.defaultConfig onload) /\
  forall user,
    shared_dimensions (UserPopoutManagerConfig.Dimensions.resolveDefaults user)
    = UserManagerConfig.Dimensions.resolveDefaults
        (shared_user_dimensions <$> user).
Proof.
  split; [reflexivity|]. intros [u|]; [|reflexivity]. now destruct u.
Qed.

(** ** Events in a tree *)

Lemma hangs_inv s par i ch :
  hangs s par (Node i ch) ->
  exists it, items s !! i = Some it /\ parent it = par /\
             contentItems it = map label_of ch /\
             Forall (hangs s (Some i)) ch.
Proof. inversion 1; subst; eauto. Qed.

Lemma top_of_mono (n : nat) :
  forall m s i r, top_of n s i = Some r -> n <= m -> top_of m s i = Some r.
Proof.
  induction n as [|n IH]; intros m s i r H Hle; [discriminate|].
  destruct m as [|m]; [lia|]. cbn in H |- *.
  destruct (items s !! i) as [it|]; [|discriminate].
  destruct (isInitialised it); [|discriminate].
  destruct (if isRoot it then None else parent it) as [p|]; [|exact H].
  apply (IH m); [exact H | lia].
Qed.

(** Below a node whose events are scheduled at [r], every initialised node
    that is not a root has its events scheduled at [r] too. *)
Lemma top_of_hangs (s : State) (r : iref) (t : tree) :
  forall par n,
    hangs s par t ->
    top_of (S n) s (label_of t) = Some r ->
    (forall j it, j ∈ descendants t -> items s !! j = Some it ->
                  isInitialised it = true /\ isRoot it = false) ->
    forall i, i ∈ preorder t -> top_of (n + height t) s i = Some r.
Proof.
  induction t as [k ch IH] using tree_ind'.
  intros par n (it & Hk & Hpar & Hch & Hhang)%hangs_inv Htop Hbelow i Hi.
  cbn [label_of] in Htop.
  apply elem_of_cons in Hi as [->|Hi].
  { apply (top_of_mono (S n)); [exact Htop | cbn; lia]. }
  apply elem_of_concat_map in Hi as (c & Hc & Hic).
  pose proof (proj1 (Forall_forall _ _) IH c Hc) as IHc.
  pose proof (proj1 (Forall_forall _ _) Hhang c Hc) as Hhc.
  pose proof (proj1 (Forall_forall _ _) (height_subtrees ch) c Hc) as Hle.
  cbn beta in Hle.
  apply (top_of_mono (S n + height c)); [|cbn; lia].
  apply (IHc (Some k) (S n) Hhc); [| |exact Hic].
  - destruct c as [j chj]. cbn [label_of].
    apply hangs_inv in Hhc as (itj & Hj & Hpj & _ & _).
    destruct (Hbelow j itj) as [Hinit Hroot]; [|exact Hj|].
    { unfold descendants. cbn [subtrees_of].
      apply elem_of_concat_map. exists (Node j chj).
      split; [exact Hc | apply elem_of_cons; now left]. }
    change (top_of (S (S n)) s j) with
      (match items s !! j with
       | Some it0 =>
           if isInitialised it0 then
             match (if isRoot it0 then None else parent it0) with
             | Some p => top_of (S n) s p
             | None => Some j
             end
           else None
       | None => None
       end).
    now rewrite Hj, Hinit, Hroot, Hpj.
  - intros j itj Hj. apply Hbelow. unfold descendants in *.
    cbn [subtrees_of]. apply elem_of_concat_map. exists c.
    split; [exact Hc|]. destruct c as [x chx]. cbn [subtrees_of] in Hj.
    apply elem_of_cons. now right.
Qed.

(** X27. In a tree whose items are all initialised, whose parent links
    match the children lists and in which no node below the top is marked as
    root, every bubbling event reaches the layout manager through the top of
    the tree, from whichever node it is emitted: an event that is not batched
    is delivered at once, once, with the emitting node as payload; the first
    stateChanged of a window marks the top and queues one callback on it. *)
Theorem events_reach_the_layout_manager (s : State) (t : tree) (fuel : nat)
    (i : iref) :
  hangs s None t ->
  (forall j it, j ∈ preorder t -> items s !! j = Some it ->
                isInitialised it = true) ->
  (forall j it, j ∈ descendants t -> items s !! j = Some it ->
                isRoot it = false) ->
  height t <= fuel -> i ∈ preorder t ->
  top_of fuel s i = Some (label_of t) /\
  (forall name,
     name <> "stateChanged" ->
     emitBubblingEvent fuel i name s =
       (Normal tt, with_trace (trace s ++ [LmEmit name (POrigin i)]) s)) /\
  (forall itr,
     items s !! label_of t = Some itr ->
     _pendingEventPropagations itr !! "stateChanged" <> Some true ->
     emitBubblingEvent fuel i "stateChanged" s =
       (Normal tt,
        with_frames
          (frames s ++ [mkFrame (label_of t) "stateChanged"
                                (mkEvent "stateChanged" i false)])
          (with_items
             (<[label_of t :=
                  with_pending
                    (<["stateChanged" := true]>
                       (_pendingEventPropagations itr)) itr]> (items s))
             s))).
Proof.
  intros Hh Hinit Hroot Hfuel Hi.
  assert (Ht : top_of fuel s i = Some (label_of t)).
  { apply (top_of_mono (0 + height t)); [|exact Hfuel].
    apply (top_of_hangs s (label_of t) t None 0 Hh); [| |exact Hi].
    - destruct t as [k ch]. cbn [label_of].
      apply hangs_inv in Hh as (it & Hk & Hpar & _ & _). cbn.
      rewrite Hk, (Hinit k it ltac:(apply elem_of_cons; now left) Hk), Hpar.
      now destruct (isRoot it).
    - intros j it Hj Hjt. split; [|now apply (Hroot j it)].
      apply (Hinit j it); [|exact Hjt]. destruct t as [k ch].
      apply elem_of_cons. now right. }
  split; [exact Ht|]. split.
  - intros name Hn. exact (emit_immediate s fuel i _ name Ht Hn).
  - intros itr Hr Hp. exact (emit_batched_first s fuel i _ itr Ht Hr Hp).
Qed.

Lemma sample_layout_hangs : hangs sample_layout None sample_tree.
Proof.
  unfold sample_tree.
  repeat (eapply hangs_node;
          [reflexivity | reflexivity | reflexivity | repeat constructor]).
Qed.

Lemma events_reach_the_layout_manager_witness :
  top_of 4 sample_layout 4 = Some (label_of sample_tree) /\
  (forall name,
     name <> "stateChanged" ->
     emitBubblingEvent 4 4 name sample_layout =
       (Normal tt,
        with_trace (trace sample_layout ++ [LmEmit name (POrigin 4)])
                   sample_layout)) /\
  (forall itr,
     items sample_layout !! label_of sample_tree = Some itr ->
     _pendingEventPropagations itr !! "stateChanged" <> Some true ->
     emitBubblingEvent 4 4 "stateChanged" sample_layout =
       (Normal tt,
        with_frames
          (frames sample_layout
           ++ [mkFrame (label_of sample_tree) "stateChanged"
                       (mkEvent "stateChanged" 4 false)])
          (with_items
             (<[label_of sample_tree :=
                  with_pending
                    (<["stateChanged" := true]>
                       (_pendingEventPropagations itr)) itr]>
                (items sample_layout))
             sample_layout))).
Proof.
  apply (events_reach_the_layout_manager sample_layout sample_tree 4 4).
  - exact sample_layout_hangs.
  - intros j it Hj.
    repeat (apply elem_of_cons in Hj as [->|Hj]; [now intros [= <-]|]).
    inversion Hj.
  - intros j it Hj. unfold descendants in Hj. cbn in Hj.
    repeat (apply elem_of_cons in Hj as [->|Hj]; [now intros [= <-]|]).
    inversion Hj.
  - cbn. lia.
  - apply list_elem_of_In. cbn. tauto.
Defined.

(** X28. [setTitle] writes the title into the configuration object of the
    item and tells no one outside the item: what it emits are plain events,
    not bubbling ones, so nothing is delivered to the layout manager and
    nothing is queued for the next animation frame; no item and no other
    field of the configuration changes. *)
Theorem setTitle_notifies_nobody (s : State) (fuel : nat) (this : iref)
    (title : string) (it : Item) (c : ItemConfig.t) :
  items s !! this = Some it -> configs s !! config it = Some c ->
  setTitle (S fuel) this title s =
    (Normal tt,
     with_configs
       (<[config it :=
            ItemConfig.mk (ItemConfig.content c) (ItemConfig.id c)
                          (ItemConfig.isClosable c) title]> (configs s))
       s).
Proof.
  intros Hi Hc. unfold setTitle.
  rewrite (bind_run _ _ _ _ _ (get_item_run _ _ _ Hi)).
  rewrite (bind_run _ _ _ _ _ (get_config_run _ _ _ Hc)).
  unfold put_config at 1, modify at 1. unfold bind at 1. cbv beta iota.
  set (s1 := with_configs _ s).
  assert (E : forall name, emit (S fuel) this name None s1 = (Normal tt, s1)).
  { intros name. unfold emit. cbn [propagateEvent].
    now rewrite (bind_run _ _ _ _ _ (get_item_run s1 this it Hi)). }
  rewrite (bind_run _ _ _ _ _ (E "titleChanged")). apply E.
Qed.

Lemma setTitle_notifies_nobody_witness :
  setTitle 1 4 "tab" sample_layout =
    (Normal tt,
     with_configs
       (<[config (sample_item 14 "component" [] (Some 3%positive) false 24) :=
            ItemConfig.mk (ItemConfig.content (sample_config [] true))
                          (ItemConfig.id (sample_config [] true))
                          (ItemConfig.isClosable (sample_config [] true))
                          "tab"]> (configs sample_layout))
       sample_layout).
Proof.
  apply (setTitle_notifies_nobody sample_layout 0 4 "tab"
           (sample_item 14 "component" [] (Some 3%positive) false 24)
           (sample_config [] true)); reflexivity.
Defined.

(** ** The order of destruction *)







(** The calls that follow the destruction in the sample: [setSize] twice
    on the root and twice on each node that is left. *)
Example sizing_after_the_removal_of_the_sample :
  calls "setSize" (trace (snd (removeChild 4 1 2 false sample_three_components)))
  = [1; 1; 3; 3; 5; 5]%positive.
Proof. reflexivity. Qed.

(** Removing stack 2 detaches its own element before those of its two
    components. *)
Example destruction_order_of_the_sample :
  omap (fun e => match e with DomRemove x => Some x | _ => None end)
       (trace (snd (removeChild 4 1 2 false sample_three_components)))
  = [22; 24; 26]%positive.
Proof. reflexivity. Qed.

(** ** Initialising the children *)

(** Marking more items as initialised does not change where events that
    reached the layout manager are scheduled. *)
Lemma top_of_more_initialised (n : nat) :
  forall s s' i r,
    (forall j, items s' !! j = items s !! j \/
               items s' !! j = with_isInitialised true <$> items s !! j) ->
    top_of n s i = Some r -> top_of n s' i = Some r.
Proof.
  induction n as [|n IH]; intros s s' i r H Ht; [discriminate|].
  cbn in Ht |- *. destruct (items s !! i) as [it|] eqn:Hi; [|discriminate].
  destruct (isInitialised it) eqn:Hinit; [|discriminate].
  assert (items s' !! i = Some it) as ->.
  { destruct (H i) as [->| ->]; rewrite Hi; [reflexivity|]. cbn.
    destruct it; cbn in *. now subst. }
  rewrite Hinit.
  destruct (if isRoot it then None else parent it) as [p|]; [|exact Ht].
  now apply (IH s).
Qed.

Lemma deliveries_DomAppend (this : iref) (f : iref -> option Element)
    (l : list iref) :
  deliveries (map (fun c => DomAppend this (f c)) l) = [].
Proof. induction l as [|x l IH]; [reflexivity | exact IH]. Qed.

(** The rounds of [initContentItems] from child number [length pre] on. *)
Lemma initContentItems_rounds (s : State) (fuel : nat) (this r : iref)
    (it : Item) :
  items s !! this = Some it ->
  NoDup (contentItems it) -> this ∉ contentItems it ->
  top_of fuel s this = Some r ->
  Forall (fun c =>
            exists itc,
              items s !! c = Some itc /\ parent itc = Some this /\
              isRoot itc = false /\
              Forall (fun g => is_Some (items s !! g)) (contentItems itc))
         (contentItems it) ->
  forall rest pre n s1,
    contentItems it = pre ++ rest -> length rest <= n ->
    (forall j, items s1 !! j =
               if bool_decide (j ∈ pre)
               then with_isInitialised true <$> items s !! j
               else items s !! j) ->
    configs s1 = configs s -> frames s1 = frames s ->
    deliveries (trace s1)
    = deliveries (trace s) ++ concat (map (created s) pre) ->
    exists s',
      for_children n this (length pre) (fun c => _init (S fuel) c) s1
      = (Normal tt, s') /\
      (forall j, items s' !! j =
                 if bool_decide (j ∈ contentItems it)
                 then with_isInitialised true <$> items s !! j
                 else items s !! j) /\
      configs s' = configs s /\ frames s' = frames s /\
      deliveries (trace s')
      = deliveries (trace s) ++ concat (map (created s) (contentItems it)).
Proof.
  intros Hi Hnd Hself Htop Hch.
  induction rest as [|c rest IH]; intros pre n s1 Hl Hn Hit Hcf Hfr Hdel.
  - rewrite app_nil_r in Hl. subst pre.
    assert (H1 : items s1 !! this = Some it).
    { rewrite Hit, bool_decide_false by exact Hself. exact Hi. }
    exists s1. split; [|auto].
    assert (for_children n this (length (contentItems it))
              (fun c => _init (S fuel) c) s1
            = (it0 <- get_item this ;;
               match contentItems it0 !! length (contentItems it) with
               | None => ret tt
               | Some c =>
                   match n with
                   | 0 => stuck
                   | S n' =>
                       _init (S fuel) c ;;;
                       for_children n' this (S (length (contentItems it)))
                         (fun c => _init (S fuel) c)
                   end
               end) s1) as -> by now destruct n.
    rewrite (bind_run _ _ _ _ _ (get_item_run _ _ _ H1)).
    now rewrite lookup_ge_None_2 by lia.
  - destruct n as [|n]; [cbn in Hn; lia|]. cbn [for_children].
    assert (Hcin : c ∈ contentItems it).
    { rewrite Hl. apply elem_of_app. right. apply elem_of_cons. now left. }
    assert (Hcpre : c ∉ pre).
    { rewrite Hl in Hnd. apply NoDup_app in Hnd as (_ & Hd & _).
      intros Hc. apply (Hd c Hc). apply elem_of_cons. now left. }
    assert (H1 : items s1 !! this = Some it).
    { rewrite Hit, bool_decide_false; [exact Hi|].
      intros Hp. apply Hself. rewrite Hl. apply elem_of_app. now left. }
    rewrite (bind_run _ _ _ _ _ (get_item_run _ _ _ H1)).
    assert (Hlk : contentItems it !! length pre = Some c).
    { rewrite Hl. now apply list_lookup_middle. }
    rewrite Hlk.
    destruct (proj1 (Forall_forall _ _) Hch c Hcin)
      as (itc & Hc & Hpar & Hroot & Hgrand).
    assert (H1c : items s1 !! c = Some itc).
    { now rewrite Hit, bool_decide_false by exact Hcpre. }
    assert (Hg1 : Forall (fun g => is_Some (items s1 !! g))
                         (contentItems itc)).
    { eapply Forall_impl; [exact Hgrand|]. intros g [x Hx]. rewrite Hit.
      destruct (bool_decide (g ∈ pre)); rewrite Hx; eauto. }
    assert (Ht1 : top_of (S fuel)
                    (with_items
                       (<[c := with_isInitialised true itc]> (items s1)) s1)
                    c = Some r).
    { change (top_of (S fuel) ?st c) with
        (match items st !! c with
         | Some it0 =>
             if isInitialised it0 then
               match (if isRoot it0 then None else parent it0) with
               | Some p => top_of fuel st p
               | None => Some c
               end
             else None
         | None => None
         end).
      cbn [items with_items]. rewrite lookup_insert_eq.
      cbn [isInitialised isRoot parent with_isInitialised].
      rewrite Hroot, Hpar.
      apply (top_of_more_initialised fuel s); [|exact Htop].
      intros j. cbn [items with_items].
      destruct (decide (c = j)) as [<-|Hne].
      - rewrite lookup_insert_eq, Hc. now right.
      - rewrite lookup_insert_ne, Hit by exact Hne.
        destruct (bool_decide (j ∈ pre)); auto. }
    pose proof (init_exact s1 (S fuel) c r itc H1c Hg1 Ht1) as E.
    rewrite (bind_run _ _ _ _ _ E).
    specialize (IH (pre ++ [c]) n).
    rewrite length_app, Nat.add_1_r in IH. apply IH.
    + now rewrite <- app_assoc.
    + cbn in Hn. lia.
    + intros j. cbn [items]. destruct (decide (c = j)) as [<-|Hne].
      * rewrite lookup_insert_eq, bool_decide_true, Hc; [reflexivity|].
        apply elem_of_app. right. now apply list_elem_of_singleton.
      * rewrite lookup_insert_ne, Hit by exact Hne.
        apply (f_equal (fun b : bool =>
                 if b then with_isInitialised true <$> items s !! j
                 else items s !! j)).
        apply bool_decide_ext. rewrite elem_of_app, list_elem_of_singleton.
        split; [auto | intros [?|?]; [assumption | congruence]].
    + exact Hcf.
    + exact Hfr.
    + cbn [trace]. rewrite !deliveries_app, Hdel.
      change (deliveries (Call c "setSize" [] :: ?l)) with (deliveries l).
      rewrite deliveries_app, deliveries_DomAppend.
      rewrite map_app, concat_app, <- app_assoc. cbn [map concat app].
      unfold created at 3. rewrite Hc, app_nil_r. reflexivity.
Qed.

(** X30. [initContentItems] on an item whose own events reach the layout
    manager initialises its children one after the other, in their order:
    every child ends up initialised, the layout manager is handed itemCreated
    and <type>Created for each child, child by child, and nothing else in the
    store changes.  The children are distinct, name the item as their parent
    and are not roots, and their own children are in the store. *)
Theorem initContentItems_initialises_children (s : State) (fuel : nat)
    (this r : iref) (it : Item) :
  items s !! this = Some it ->
  NoDup (contentItems it) -> this ∉ contentItems it ->
  top_of fuel s this = Some r ->
  Forall (fun c =>
            exists itc,
              items s !! c = Some itc /\ parent itc = Some this /\
              isRoot itc = false /\
              Forall (fun g => is_Some (items s !! g)) (contentItems itc))
         (contentItems it) ->
  exists s',
    initContentItems (S fuel) this s = (Normal tt, s') /\
    (forall j, items s' !! j =
               if bool_decide (j ∈ contentItems it)
               then with_isInitialised true <$> items s !! j
               else items s !! j) /\
    configs s' = configs s /\ frames s' = frames s /\
    deliveries (trace s')
    = deliveries (trace s) ++ concat (map (created s) (contentItems it)).
Proof.
  intros Hi Hnd Hself Htop Hch. unfold initContentItems.
  rewrite (bind_run _ _ _ _ _ (get_item_run _ _ _ Hi)).
  apply (initContentItems_rounds s fuel this r it Hi Hnd Hself Htop Hch
           (contentItems it) [] (length (contentItems it)) s);
    try reflexivity.
  cbn. now rewrite app_nil_r.
Qed.

Lemma initContentItems_initialises_children_witness :
  exists s',
    initContentItems (S 3) 2 sample_stack_to_fill = (Normal tt, s') /\
    (forall j, items s' !! j =
               if bool_decide (j ∈ contentItems
                                     (sample_item 12 "stack" [4; 6]%positive
                                        (Some 1%positive) false 22))
               then with_isInitialised true
                      <$> items sample_stack_to_fill !! j
               else items sample_stack_to_fill !! j) /\
    configs s' = configs sample_stack_to_fill /\
    frames s' = frames sample_stack_to_fill /\
    deliveries (trace s')
    = deliveries (trace sample_stack_to_fill)
      ++ concat (map (created sample_stack_to_fill)
                   (contentItems
                      (sample_item 12 "stack" [4; 6]%positive
                         (Some 1%positive) false 22))).
Proof.
  apply (initContentItems_initialises_children sample_stack_to_fill 3 2 1
           (sample_item 12 "stack" [4; 6]%positive (Some 1%positive)
              false 22)); try reflexivity.
  - apply (bool_decide_unpack _). reflexivity.
  - apply (bool_decide_unpack _). reflexivity.
  - repeat constructor; eexists;
      (split; [reflexivity|]); repeat split; constructor.
Defined.

(** ** Adding a child, to the last field *)

(** [addChild] up to the point where the child may have to be
    initialised. *)
Lemma addChild_steps (s : State) (fuel : nat) (this n : iref)
    (index : option Z) (it nit : Item) (c : ItemConfig.t) :
  items s !! this = Some it -> items s !! n = Some nit -> n <> this ->
  configs s !! config it = Some c ->
  addChild fuel this n index s =
    (if isInitialised it && negb (isInitialised nit)
     then _init fuel n else ret tt)
      (mkState
         (<[n := with_parent (Some this) nit]>
            (<[this := with_contentItems
                         (splice_insert
                            (default (Z.of_nat (length (contentItems it)))
                                     index)
                            n (contentItems it)) it]> (items s)))
         (<[config it :=
              ItemConfig.with_content
                (Some (splice_insert
                         (default (Z.of_nat (length (contentItems it))) index)
                         (config nit) (default [] (ItemConfig.content c)))) c]>
            (configs s))
         (trace s) (frames s)).
Proof.
  intros Hi Hn Hne Hc.
  set (i := default (Z.of_nat (length (contentItems it))) index).
  set (it1 := with_contentItems (splice_insert i n (contentItems it)) it).
  set (l1 := default [] (ItemConfig.content c)).
  set (c2 := ItemConfig.with_content
               (Some (splice_insert i (config nit) l1)) c).
  set (nit1 := with_parent (Some this) nit).
  unfold addChild. rewrite (bind_run _ _ _ _ _ (get_item_run _ _ _ Hi)).
  fold i. fold it1.
  unfold put_item at 1, modify at 1. unfold bind at 1. cbv beta iota.
  set (sA := with_items (<[this := it1]> (items s)) s).
  assert (HA : items sA !! this = Some it1) by apply lookup_insert_eq.
  assert (HAn : items sA !! n = Some nit).
  { subst sA. cbn. now rewrite lookup_insert_ne by congruence. }
  rewrite (bind_run _ _ _ _ _ (this_config_run sA this it1 c HA Hc)).
  assert (exists sB c1,
            (match ItemConfig.content c with
             | None => put_config (config it)
                         (ItemConfig.with_content (Some []) c)
             | Some _ => ret tt
             end) sA = (Normal tt, sB) /\
            items sB = items sA /\ trace sB = trace s /\
            frames sB = frames s /\
            configs sB !! config it = Some c1 /\
            ItemConfig.content c1 = Some l1 /\
            ItemConfig.with_content
              (Some (splice_insert i (config nit) l1)) c1 = c2 /\
            (<[config it := c2]> (configs sB)
             = <[config it := c2]> (configs s)))
    as (sB & c1 & EB & EiB & EtB & EfB & HcB & Hl1 & Ec2 & Ecfg).
  { subst l1 c2. destruct (ItemConfig.content c) as [l|] eqn:Hl.
    - exists sA, c. split; [reflexivity|]. do 3 (split; [reflexivity|]).
      split; [exact Hc|]. split; [exact Hl|]. split; reflexivity.
    - eexists _, _. split; [reflexivity|]. do 3 (split; [reflexivity|]).
      split; [apply lookup_insert_eq|]. split; [reflexivity|].
      split; [reflexivity|]. cbn. apply insert_insert_eq. }
  rewrite (bind_run _ _ _ _ _ EB).
  rewrite (bind_run _ _ _ _ _ (this_config_run sB this it1 c1
             ltac:(rewrite EiB; exact HA) HcB)).
  rewrite (bind_run _ _ _ _ _ (get_item_run sB n nit
             ltac:(rewrite EiB; exact HAn))).
  rewrite Hl1, Ec2.
  unfold put_config at 1, modify at 1. unfold bind at 1. cbv beta iota.
  set (sC := with_configs _ sB).
  assert (HCn : items sC !! n = Some nit) by (cbn; rewrite EiB; exact HAn).
  rewrite (bind_run _ _ _ _ _ (get_item_run sC n nit HCn)).
  unfold put_item at 1, modify at 1. unfold bind at 1. cbv beta iota.
  fold nit1. set (sD := with_items _ sC).
  assert (HDn : items sD !! n = Some nit1) by apply lookup_insert_eq.
  assert (HDt : items sD !! this = Some it1).
  { subst sD. cbn. rewrite lookup_insert_ne by congruence.
    rewrite EiB. exact HA. }
  rewrite (bind_run _ _ _ _ _ (get_item_run sD n nit1 HDn)).
  cbn [parent nit1 with_parent].
  rewrite (bind_run _ _ _ _ _ (get_item_run sD this it1 HDt)).
  change (isInitialised it1) with (isInitialised it).
  change (isInitialised nit1) with (isInitialised nit).
  f_equal. subst sD sC. unfold with_items, with_configs. cbn.
  now rewrite EiB, Ecfg, EtB, EfB.
Qed.

(** X2.  [addChild] puts the child into [contentItems], and the child's
    configuration into [config.content], at the place [splice] gives the
    index (the front for index 0), and points the child's [parent] at the
    receiver.  When the receiver is initialised and the child is not, it then
    initialises the child: [setSize] is called on it, the elements of its
    children are appended, it is marked initialised, and itemCreated and
    <type>Created are delivered with the child as payload.  Otherwise the
    child's mark is left as it is and nothing is recorded.  No other item
    and no other configuration object changes.  A child that has to be
    initialised needs its children in the store and, once it is linked and
    marked, a way up for its events. *)
Theorem addChild_inserts (s : State) (fuel : nat) (this n r : iref)
    (index : option Z) (it nit : Item) (c : ItemConfig.t) :
  items s !! this = Some it -> items s !! n = Some nit -> n <> this ->
  configs s !! config it = Some c ->
  (isInitialised it = true -> isInitialised nit = false ->
   Forall (fun ch => is_Some (items s !! ch)) (contentItems nit) /\
   top_of fuel
     (with_items
        (<[n := with_isInitialised true (with_parent (Some this) nit)]>
           (items s)) s) n
   = Some r) ->
  addChild fuel this n index s =
    (Normal tt,
     mkState
       (<[n := if isInitialised it && negb (isInitialised nit)
               then with_isInitialised true (with_parent (Some this) nit)
               else with_parent (Some this) nit]>
          (<[this := with_contentItems
                       (splice_insert
                          (default (Z.of_nat (length (contentItems it))) index)
                          n (contentItems it)) it]> (items s)))
       (<[config it :=
            ItemConfig.with_content
              (Some (splice_insert
                       (default (Z.of_nat (length (contentItems it))) index)
                       (config nit) (default [] (ItemConfig.content c)))) c]>
          (configs s))
       (trace s
        ++ if isInitialised it && negb (isInitialised nit)
           then Call n "setSize" []
                :: map (fun ch => DomAppend n (element_of s ch))
                       (contentItems nit)
                ++ [LmEmit "itemCreated" (POrigin n);
                    LmEmit (type nit +:+ "Created") (POrigin n)]
           else [])
       (frames s)) /\
  (index = Some 0%Z ->
   splice_insert (default (Z.of_nat (length (contentItems it))) index) n
                 (contentItems it) = n :: contentItems it /\
   splice_insert (default (Z.of_nat (length (contentItems it))) index)
                 (config nit) (default [] (ItemConfig.content c))
   = config nit :: default [] (ItemConfig.content c)).
Proof.
  intros Hi Hn Hne Hc Hinit. split.
  2:{ intros ->.
      change (default (Z.of_nat (length (contentItems it))) (Some 0%Z))
        with 0%Z.
      now rewrite !splice_insert_front. }
  rewrite (addChild_steps s fuel this n index it nit c Hi Hn Hne Hc).
  set (it1 := with_contentItems _ it).
  set (nit1 := with_parent (Some this) nit).
  set (sD := mkState _ _ _ _).
  destruct (isInitialised it && negb (isInitialised nit)) eqn:Hb.
  2:{ unfold ret. subst sD. now rewrite app_nil_r. }
  apply andb_true_iff in Hb as [Hb1 Hb2%negb_true_iff].
  destruct (Hinit Hb1 Hb2) as [Hch Ht].
  assert (HDn : items sD !! n = Some nit1) by apply lookup_insert_eq.
  assert (Hel : forall ch, element_of sD ch = element_of s ch).
  { intros ch. unfold element_of. subst sD. cbn [items].
    destruct (decide (n = ch)) as [<-|?];
      [now rewrite lookup_insert_eq, Hn|].
    rewrite lookup_insert_ne by assumption.
    destruct (decide (this = ch)) as [<-|?];
      [now rewrite lookup_insert_eq, Hi|].
    now rewrite lookup_insert_ne. }
  rewrite (init_exact sD fuel n r nit1 HDn).
  - subst sD. cbn [items configs trace frames].
    rewrite insert_insert_eq. do 2 f_equal. f_equal.
    change (contentItems nit1) with (contentItems nit).
    change (type nit1) with (type nit).
    f_equal. f_equal. apply List.map_ext. intros ch. now rewrite Hel.
  - change (contentItems nit1) with (contentItems nit).
    eapply Forall_impl; [exact Hch|]. intros ch [x Hx]. subst sD.
    cbn [items].
    destruct (decide (n = ch)) as [<-|?];
      [rewrite lookup_insert_eq; eauto|].
    rewrite lookup_insert_ne by assumption.
    destruct (decide (this = ch)) as [<-|?];
      [rewrite lookup_insert_eq; eauto|].
    rewrite lookup_insert_ne by assumption. eauto.
  - rewrite <- Ht. apply top_of_ext. intros j. subst sD.
    cbn [items with_items]. rewrite insert_insert_eq.
    destruct (decide (n = j)) as [<-|?];
      [now rewrite !lookup_insert_eq|].
    rewrite 2!(lookup_insert_ne _ n j) by assumption.
    destruct (decide (this = j)) as [<-|?];
      [now rewrite lookup_insert_eq, Hi|].
    now rewrite lookup_insert_ne.
Qed.

Lemma addChild_inserts_witness :
  addChild 4 1 5 (Some 0%Z) sample_uninitialised =
    (Normal tt,
     mkState
       (<[5%positive :=
            if isInitialised (sample_item 11 "root" [2%positive] None true 21)
               && negb (isInitialised
                          (with_isInitialised false
                             (sample_item 15 "component" [] None false 25)))
            then with_isInitialised true
                   (with_parent (Some 1%positive)
                      (with_isInitialised false
                         (sample_item 15 "component" [] None false 25)))
            else with_parent (Some 1%positive)
                   (with_isInitialised false
                      (sample_item 15 "component" [] None false 25))]>
          (<[1%positive :=
               with_contentItems
                 (splice_insert (default 1%Z (Some 0%Z)) 5%positive
                                [2%positive])
                 (sample_item 11 "root" [2%positive] None true 21)]>
             (items sample_uninitialised)))
       (<[11%positive :=
            ItemConfig.with_content
              (Some (splice_insert (default 1%Z (Some 0%Z)) 15%positive
                       (default [] (Some [12%positive]))))
              (sample_config [12%positive] true)]>
          (configs sample_uninitialised))
       (trace sample_uninitialised
        ++ if isInitialised (sample_item 11 "root" [2%positive] None true 21)
              && negb (isInitialised
                         (with_isInitialised false
                            (sample_item 15 "component" [] None false 25)))
           then Call 5 "setSize" []
                :: map (fun ch => DomAppend 5
                                    (element_of sample_uninitialised ch)) []
                ++ [LmEmit "itemCreated" (POrigin 5);
                    LmEmit ("component" +:+ "Created") (POrigin 5)]
           else [])
       (frames sample_uninitialised)) /\
  (Some 0%Z = Some 0%Z ->
   splice_insert (default 1%Z (Some 0%Z)) 5%positive [2%positive]
   = [5; 2]%positive /\
   splice_insert (default 1%Z (Some 0%Z)) 15%positive
                 (default [] (Some [12%positive]))
   = [15; 12]%positive).
Proof.
  apply (addChild_inserts sample_uninitialised 4 1 5 1 (Some 0%Z)
           (sample_item 11 "root" [2%positive] None true 21)
           (with_isInitialised false
              (sample_item 15 "component" [] None false 25))
           (sample_config [12%positive] true));
    [reflexivity | reflexivity | discriminate | reflexivity |].
  intros _ _. split; [constructor | reflexivity].
Defined.
